(** * Spectre simulator: instruction codec, cache, branch predictor,
      in-order pipeline and Tomasulo engine

    A shallow embedding of [src/cpu/instruction_set.c], [src/cpu/cache.c],
    [src/cpu/branch_predictor.c], [src/cpu/pipeline.c] and
    [src/cpu/tomasulo.c], followed by the properties proved about them.

    Conventions.  A C [uint64_t] is a [Z] in [0, 2^64) and every C
    operation that can leave that range is written with its wrap-around
    ([wrap64]); [uint8_t] and [uint32_t] likewise.  A C array is a [list]
    read with [!!] and written with [<[i:=x]>]; an access outside the array
    is undefined behaviour in C, the model reads the default value and
    drops the write there, and the theorems state the bounds they need. *)

From Stdlib Require Import ZArith Lia Bool List.
From stdpp Require Import base list strings.

Local Open Scope Z_scope.

(** ** Machine integers and byte memory *)

Definition wrap8 (z : Z) : Z := z mod 2 ^ 8.
Definition wrap32 (z : Z) : Z := z mod 2 ^ 32.
Definition wrap64 (z : Z) : Z := z mod 2 ^ 64.
Definition UINT64_MAX : Z := 2 ^ 64 - 1.

(** [a[i]] for an array of integers. *)
Definition zget (l : list Z) (i : Z) : Z := default 0 (l !! Z.to_nat i).
(** [a[i] = x]. *)
Definition zset (l : list Z) (i : Z) (x : Z) : list Z := <[Z.to_nat i := x]> l.

Definition bget (l : list bool) (i : Z) : bool := default false (l !! Z.to_nat i).
Definition bset (l : list bool) (i : Z) (x : bool) : list bool := <[Z.to_nat i := x]> l.

(** [*(uint64_t* )(mem + a)] on a little-endian host: eight bytes, least
    significant first. *)
Definition byte_of (v : Z) (k : Z) : Z := Z.land (Z.shiftr v (8 * k)) 255.

Definition read_u64 (mem : list Z) (a : Z) : Z :=
  fold_right (fun k acc => Z.lor (Z.shiftl (zget mem (a + k)) (8 * k)) acc) 0
    [0; 1; 2; 3; 4; 5; 6; 7].

Definition write_u64 (mem : list Z) (a : Z) (v : Z) : list Z :=
  fold_left (fun m k => zset m (a + k) (byte_of v k)) [0; 1; 2; 3; 4; 5; 6; 7] mem.

(** ** The instruction set ([include/cpu.h], [src/cpu/instruction_set.c]) *)

Module Isa.

Inductive InstructionType : Type :=
  | INST_NOP | INST_ADD | INST_SUB | INST_MUL | INST_DIV | INST_AND
  | INST_OR | INST_XOR | INST_NOT | INST_SHL | INST_SHR | INST_LD
  | INST_ST | INST_JMP | INST_JZ | INST_JNZ | INST_CALL | INST_RET
  | INST_CMP | INST_MOV | INST_HLT.

#[global] Instance InstructionType_eq_dec : EqDecision InstructionType.
Proof. solve_decision. Defined.

(** The enumerators in declaration order; the C value of an enumerator is
    its position. *)
Definition all_types : list InstructionType :=
  [INST_NOP; INST_ADD; INST_SUB; INST_MUL; INST_DIV; INST_AND; INST_OR;
   INST_XOR; INST_NOT; INST_SHL; INST_SHR; INST_LD; INST_ST; INST_JMP;
   INST_JZ; INST_JNZ; INST_CALL; INST_RET; INST_CMP; INST_MOV; INST_HLT].

Definition type_eqb (a b : InstructionType) : bool := bool_decide (a = b).

Fixpoint index_of (t : InstructionType) (l : list InstructionType) : Z :=
  match l with
  | [] => 0
  | x :: l' => if type_eqb x t then 0 else 1 + index_of t l'
  end.

(** The integer value of an enumerator. *)
Definition type_to_Z (t : InstructionType) : Z := index_of t all_types.

(** The enumerator with a given integer value (below 21). *)
Definition type_of_Z (z : Z) : InstructionType :=
  default INST_NOP (all_types !! Z.to_nat z).

Inductive InstructionFormat : Type :=
  | FORMAT_R | FORMAT_I | FORMAT_M | FORMAT_J | FORMAT_S.

#[global] Instance InstructionFormat_eq_dec : EqDecision InstructionFormat.
Proof. solve_decision. Defined.

Record DecodedInstruction : Type := mkInst {
  type : InstructionType;
  format : InstructionFormat;
  opcode : Z;      (* uint8_t *)
  rd : Z;          (* uint8_t *)
  rs1 : Z;         (* uint8_t *)
  rs2 : Z;         (* uint8_t *)
  imm : Z;         (* uint64_t *)
  address : Z      (* uint64_t *)
}.

Record table_entry : Type := mkEntry {
  e_opcode : Z;
  e_type : InstructionType;
  e_format : InstructionFormat;
  e_name : string
}.

Definition instruction_table : list table_entry :=
  [ mkEntry 0x00 INST_NOP FORMAT_R "nop";
    mkEntry 0x01 INST_ADD FORMAT_R "add";
    mkEntry 0x02 INST_SUB FORMAT_R "sub";
    mkEntry 0x03 INST_MUL FORMAT_R "mul";
    mkEntry 0x04 INST_DIV FORMAT_R "div";
    mkEntry 0x05 INST_AND FORMAT_R "and";
    mkEntry 0x06 INST_OR FORMAT_R "or";
    mkEntry 0x07 INST_XOR FORMAT_R "xor";
    mkEntry 0x08 INST_NOT FORMAT_R "not";
    mkEntry 0x09 INST_SHL FORMAT_R "shl";
    mkEntry 0x0A INST_SHR FORMAT_R "shr";
    mkEntry 0x0B INST_LD FORMAT_M "ld";
    mkEntry 0x0C INST_ST FORMAT_M "st";
    mkEntry 0x0D INST_JMP FORMAT_J "jmp";
    mkEntry 0x0E INST_JZ FORMAT_J "jz";
    mkEntry 0x0F INST_JNZ FORMAT_J "jnz";
    mkEntry 0x10 INST_CALL FORMAT_J "call";
    mkEntry 0x11 INST_RET FORMAT_J "ret";
    mkEntry 0x12 INST_CMP FORMAT_R "cmp";
    mkEntry 0x13 INST_MOV FORMAT_R "mov";
    mkEntry 0x14 INST_HLT FORMAT_S "hlt" ].

(** The first table entry with a given opcode / a given type: the two
    [for ... break] loops of the codec. *)
Definition lookup_opcode (op : Z) : option table_entry :=
  List.find (fun e => e_opcode e =? op) instruction_table.

Definition lookup_type (t : InstructionType) : option table_entry :=
  List.find (fun e => type_eqb (e_type e) t) instruction_table.

Definition format_eqb (a b : InstructionFormat) : bool := bool_decide (a = b).

(** [decode_instruction(mem, pc)].  [inst] starts as [{0}], that is
    [INST_NOP], [FORMAT_R] and zero fields. *)
Definition decode_instruction (mem : list Z) (pc : Z) : DecodedInstruction :=
  let ptr := fun i => zget mem (pc + i) in
  let op := ptr 0 in
  let '(ty, fmt) :=
    match lookup_opcode op with
    | Some e => (e_type e, e_format e)
    | None => (INST_NOP, FORMAT_R)
    end in
  if format_eqb fmt FORMAT_R || format_eqb fmt FORMAT_M then
    mkInst ty fmt op
      (Z.land (Z.shiftr (ptr 1) 4) 0x0F)
      (Z.land (ptr 1) 0x0F)
      (Z.land (Z.shiftr (ptr 2) 4) 0x0F)
      0
      (if format_eqb fmt FORMAT_M then read_u64 mem (pc + 3) else 0)
  else if format_eqb fmt FORMAT_I || format_eqb fmt FORMAT_J then
    mkInst ty fmt op (Z.land (Z.shiftr (ptr 1) 4) 0x0F) 0 0
      (read_u64 mem (pc + 2)) 0
  else
    mkInst ty fmt op 0 0 0 0 0.

(** [encode_instruction(inst, buffer)] where [buffer] points at offset [buf]
    of [mem]; returns the size and the memory after the writes. *)
Definition encode_instruction (inst : DecodedInstruction) (mem : list Z) (buf : Z)
  : Z * list Z :=
  let mem0 :=
    match lookup_type (type inst) with
    | Some e => zset mem buf (e_opcode e)
    | None => mem
    end in
  match format inst with
  | FORMAT_R | FORMAT_M =>
      let mem1 := zset mem0 (buf + 1)
                    (wrap8 (Z.lor (Z.shiftl (rd inst) 4) (Z.land (rs1 inst) 0x0F))) in
      let mem2 := zset mem1 (buf + 2) (wrap8 (Z.shiftl (rs2 inst) 4)) in
      if format_eqb (format inst) FORMAT_M
      then (3 + 8, write_u64 mem2 (buf + 3) (address inst))
      else (3, mem2)
  | FORMAT_I | FORMAT_J =>
      let mem1 := zset mem0 (buf + 1) (wrap8 (Z.shiftl (rd inst) 4)) in
      (10, write_u64 mem1 (buf + 2) (imm inst))
  | FORMAT_S => (1, mem0)
  end.

(** [get_instruction_size] as a function of the format. *)
Definition format_size (f : InstructionFormat) : Z :=
  match f with
  | FORMAT_R => 3
  | FORMAT_M => 11
  | FORMAT_I => 10
  | FORMAT_J => 10
  | FORMAT_S => 1
  end.

Definition get_instruction_size (mem : list Z) (pc : Z) : Z :=
  format_size (format (decode_instruction mem pc)).

(** The format the table gives a type. *)
Definition table_format (t : InstructionType) : option InstructionFormat :=
  e_format <$> lookup_type t.

Definition table_opcode (t : InstructionType) : option Z :=
  e_opcode <$> lookup_type t.

(** Packing two register indices into a byte and unpacking them, as a
    check that can be run on every pair. *)
Definition pack_ok (a b : Z) : bool :=
  let byte := wrap8 (Z.lor (Z.shiftl a 4) (Z.land b 0x0F)) in
  (Z.land (Z.shiftr byte 4) 0x0F =? a) && (Z.land byte 0x0F =? b).

(** A conditional jump that names a source register. *)
Definition jump_with_source : DecodedInstruction :=
  mkInst INST_JZ FORMAT_J 0x0E 0 1 0 0x2000 0.

End Isa.


(** ** The cache model ([src/cpu/cache.c]) *)

Module CacheModel.

Inductive CacheType : Type :=
  | CACHE_DIRECT_MAPPED | CACHE_SET_ASSOC | CACHE_FULL_ASSOC.

#[global] Instance CacheType_eq_dec : EqDecision CacheType.
Proof. solve_decision. Defined.

Definition is_set_assoc (t : CacheType) : bool := bool_decide (t = CACHE_SET_ASSOC).

Record Cache : Type := mkCache {
  type : CacheType;
  size : Z;
  line_size : Z;
  associativity : Z;
  num_sets : Z;
  hit_time : Z;
  miss_penalty : Z;
  tags : list (list Z);        (* tags[set][way] *)
  valid : list (list bool);    (* valid[set][way] *)
  lru_counters : list Z;       (* flat, set * associativity + way; NULL is [] *)
  hits : Z;
  misses : Z;
  accesses : Z
}.

(** [cache_create].  Allocation is taken to succeed, so the result is always
    [Some]; [None] stands for the NULL the source returns when [malloc]
    fails.  [int] division truncates ([Z.quot]). *)
Definition cache_create (ty : CacheType) (sz lsz assoc : Z) : option Cache :=
  let lines := Z.quot sz lsz in
  let sets := Z.quot lines assoc in
  Some {|
    type := ty; size := sz; line_size := lsz; associativity := assoc;
    num_sets := sets; hit_time := 1; miss_penalty := 10;
    tags := replicate (Z.to_nat sets) (replicate (Z.to_nat assoc) 0);
    valid := replicate (Z.to_nat sets) (replicate (Z.to_nat assoc) false);
    lru_counters :=
      if is_set_assoc ty then replicate (Z.to_nat (sets * assoc)) 0 else [];
    hits := 0; misses := 0; accesses := 0
  |}.

(** [cache->valid[s][w]] and [cache->tags[s][w]]. *)
Definition way_valid (c : Cache) (s w : Z) : bool :=
  bget (default [] (valid c !! Z.to_nat s)) w.
Definition way_tag (c : Cache) (s w : Z) : Z :=
  zget (default [] (tags c !! Z.to_nat s)) w.
Definition way_lru (c : Cache) (s w : Z) : Z :=
  zget (lru_counters c) (s * associativity c + w).

(** [for (i = from; i < from + n; i++) if (p i) return i;] *)
Fixpoint find_from (p : Z -> bool) (i : Z) (n : nat) : option Z :=
  match n with
  | O => None
  | S n' => if p i then Some i else find_from p (i + 1) n'
  end.

Definition line_of (c : Cache) (addr : Z) : Z := addr / line_size c.
Definition set_of (c : Cache) (addr : Z) : Z := line_of c addr mod num_sets c.
Definition tag_of (c : Cache) (addr : Z) : Z := line_of c addr / num_sets c.

(** The hit search: the first way of the set that is valid and holds the tag. *)
Definition find_hit (c : Cache) (s tag : Z) : option Z :=
  find_from (fun i => way_valid c s i && (way_tag c s i =? tag)) 0
            (Z.to_nat (associativity c)).

(** The LRU victim loop of the set-associative case, from way [i] with [n]
    ways left, [min_lru] and [victim] as in the source. *)
Fixpoint lru_scan (c : Cache) (s : Z) (i : Z) (n : nat) (min_lru victim : Z) : Z :=
  match n with
  | O => victim
  | S n' =>
      if negb (way_valid c s i) then i
      else
        let lru := way_lru c s i in
        if lru <? min_lru then lru_scan c s (i + 1) n' lru i
        else lru_scan c s (i + 1) n' min_lru victim
  end.

(** [victim] as computed on a miss. *)
Definition choose_victim (c : Cache) (s : Z) : Z :=
  if is_set_assoc (type c)
  then lru_scan c s 0 (Z.to_nat (associativity c)) UINT64_MAX 0
  else 0.

(** [cache_access(cache, addr, is_write)]: the latency and the cache after.
    The function divides by [line_size] and by [num_sets]; this is the call
    where both are positive.  [cache_access_checked] below is the call on
    any cache. *)
Definition cache_access (c : Cache) (addr : Z) (is_write : bool) : Z * Cache :=
  let acc := wrap64 (accesses c + 1) in
  let s := set_of c addr in
  let tag := tag_of c addr in
  match find_hit c s tag with
  | Some i =>
      (hit_time c,
       {| type := type c; size := size c; line_size := line_size c;
          associativity := associativity c; num_sets := num_sets c;
          hit_time := hit_time c; miss_penalty := miss_penalty c;
          tags := tags c; valid := valid c;
          lru_counters :=
            if is_set_assoc (type c)
            then zset (lru_counters c) (s * associativity c + i) acc
            else lru_counters c;
          hits := wrap64 (hits c + 1); misses := misses c; accesses := acc |})
  | None =>
      let victim := choose_victim c s in
      (miss_penalty c,
       {| type := type c; size := size c; line_size := line_size c;
          associativity := associativity c; num_sets := num_sets c;
          hit_time := hit_time c; miss_penalty := miss_penalty c;
          tags := alter (fun row => zset row victim tag) (Z.to_nat s) (tags c);
          valid := alter (fun row => bset row victim true) (Z.to_nat s) (valid c);
          lru_counters :=
            if is_set_assoc (type c)
            then zset (lru_counters c) (s * associativity c + victim) acc
            else lru_counters c;
          hits := hits c; misses := wrap64 (misses c + 1); accesses := acc |})
  end.

(** Whether the divisions of [cache_access], [addr / line_size],
    [line_addr % num_sets] and [line_addr / num_sets], have a non-zero
    divisor. *)
Definition divisors_nonzero (c : Cache) : bool :=
  negb (line_size c =? 0) && negb (num_sets c =? 0).

(** [cache_access] on any cache.  A division by zero is undefined in C and
    kills the process: [None] stands for that. *)
Definition cache_access_checked (c : Cache) (addr : Z) (is_write : bool)
  : option (Z * Cache) :=
  if divisors_nonzero c then Some (cache_access c addr is_write) else None.

(** The first way of the set that is not valid, if there is one. *)
Definition first_invalid (c : Cache) (s : Z) : option Z :=
  find_from (fun i => negb (way_valid c s i)) 0 (Z.to_nat (associativity c)).

(** The shape of the arrays: [sets] rows of [ways] entries. *)
Definition rows_ok {A : Type} (m : list (list A)) (sets ways : Z) : Prop :=
  length m = Z.to_nat sets /\ Forall (fun row => length row = Z.to_nat ways) m.

(** A cache as [cache_create] builds it from positive parameters and as
    [cache_access] keeps it: positive geometry, arrays of the declared
    shape, 64-bit timestamps. *)
Definition cache_wf (c : Cache) : Prop :=
  0 < line_size c /\ 0 < associativity c /\ 0 < num_sets c /\
  rows_ok (tags c) (num_sets c) (associativity c) /\
  rows_ok (valid c) (num_sets c) (associativity c) /\
  Forall (fun x => 0 <= x < 2 ^ 64) (lru_counters c) /\
  (type c = CACHE_SET_ASSOC ->
   length (lru_counters c) = Z.to_nat (num_sets c * associativity c)).

(** A run of accesses, each an address and its [is_write] flag. *)
Definition access_all (c : Cache) (reqs : list (Z * bool)) : Cache :=
  fold_left (fun c r => snd (cache_access c (fst r) (snd r))) reqs c.

(** An access evicts when it misses and its victim way holds a valid line. *)
Definition evicts (c : Cache) (addr : Z) : bool :=
  match find_hit c (set_of c addr) (tag_of c addr) with
  | Some _ => false
  | None => way_valid c (set_of c addr) (choose_victim c (set_of c addr))
  end.

(** The number of evictions over a run of accesses. *)
Fixpoint count_evictions (c : Cache) (reqs : list (Z * bool)) : nat :=
  match reqs with
  | [] => O
  | r :: rest =>
      ((if evicts c (fst r) then 1 else 0) +
       count_evictions (snd (cache_access c (fst r) (snd r))) rest)%nat
  end.

(** A two-way cache of one set, as [cache_create] returns it for 128 bytes
    in lines of 64. *)
Definition two_way (ty : CacheType) : Cache :=
  mkCache ty 128 64 2 1 1 10 [[0; 0]] [[false; false]]
          (if is_set_assoc ty then [0; 0] else []) 0 0 0.

End CacheModel.

(** ** The branch predictor ([src/cpu/branch_predictor.c]) *)

Module BP.

Inductive PredictorType : Type :=
  | PREDICTOR_ALWAYS_TAKEN | PREDICTOR_ALWAYS_NOT_TAKEN
  | PREDICTOR_BIMODAL | PREDICTOR_GSHARE.

#[global] Instance PredictorType_eq_dec : EqDecision PredictorType.
Proof. solve_decision. Defined.

Record BranchPredictor : Type := mkBP {
  type : PredictorType;
  bhr_size : Z;
  pht_size : Z;
  bhr : Z;            (* uint32_t *)
  pht : list Z;       (* uint8_t[pht_size] *)
  correct : Z;
  total : Z
}.

(** [bp_create]; allocation is taken to succeed. *)
Definition bp_create (ty : PredictorType) (bhr_sz pht_sz : Z) : BranchPredictor :=
  {| type := ty; bhr_size := bhr_sz; pht_size := pht_sz; bhr := 0;
     pht := replicate (Z.to_nat pht_sz) 2; correct := 0; total := 0 |}.

(** The table index of a branch: [pc % pht_size] for bimodal,
    [(pc ^ bhr) % pht_size] for gshare, stored into a [uint32_t]. *)
Definition bimodal_index (bp : BranchPredictor) (pc : Z) : Z :=
  wrap32 (pc mod pht_size bp).
Definition gshare_index (bp : BranchPredictor) (pc : Z) : Z :=
  wrap32 (Z.lxor pc (bhr bp) mod pht_size bp).

(** [bp_predict(bp, pc)]: the prediction and the predictor after. *)
Definition bp_predict (bp : BranchPredictor) (pc : Z) : bool * BranchPredictor :=
  let bp' :=
    {| type := type bp; bhr_size := bhr_size bp; pht_size := pht_size bp;
       bhr := bhr bp; pht := pht bp; correct := correct bp;
       total := wrap64 (total bp + 1) |} in
  match type bp with
  | PREDICTOR_ALWAYS_TAKEN => (true, bp')
  | PREDICTOR_ALWAYS_NOT_TAKEN => (false, bp')
  | PREDICTOR_BIMODAL => (2 <=? zget (pht bp) (bimodal_index bp pc), bp')
  | PREDICTOR_GSHARE => (2 <=? zget (pht bp) (gshare_index bp pc), bp')
  end.

(** The two-bit counter step: up when taken unless already 3 or more, down
    when not taken unless already 0. *)
Definition counter_step (taken : bool) (v : Z) : Z :=
  if taken then (if v <? 3 then v + 1 else v)
  else (if 0 <? v then v - 1 else v).

(** [bp_update(bp, pc, taken, predicted)].  [1 << bhr_size] is an [int]
    shift, defined in C for [0 <= bhr_size <= 30]. *)
Definition bp_update (bp : BranchPredictor) (pc : Z) (taken predicted : bool)
  : BranchPredictor :=
  let correct' :=
    if eqb taken predicted then wrap64 (correct bp + 1) else correct bp in
  match type bp with
  | PREDICTOR_BIMODAL =>
      let index := bimodal_index bp pc in
      {| type := type bp; bhr_size := bhr_size bp; pht_size := pht_size bp;
         bhr := bhr bp;
         pht := zset (pht bp) index (counter_step taken (zget (pht bp) index));
         correct := correct'; total := total bp |}
  | PREDICTOR_GSHARE =>
      let index := gshare_index bp pc in
      let shifted :=
        wrap32 (Z.lor (Z.shiftl (bhr bp) 1) (if taken then 1 else 0)) in
      {| type := type bp; bhr_size := bhr_size bp; pht_size := pht_size bp;
         bhr := Z.land shifted (wrap32 (Z.shiftl 1 (bhr_size bp) - 1));
         pht := zset (pht bp) index (counter_step taken (zget (pht bp) index));
         correct := correct'; total := total bp |}
  | _ =>
      {| type := type bp; bhr_size := bhr_size bp; pht_size := pht_size bp;
         bhr := bhr bp; pht := pht bp; correct := correct'; total := total bp |}
  end.

(** One resolved branch, as [stage_execute] and the unit test treat it:
    predict, then update with the outcome and that prediction. *)
Definition predict_then_update (bp : BranchPredictor) (pc : Z) (taken : bool)
  : BranchPredictor :=
  let '(predicted, bp1) := bp_predict bp pc in
  bp_update bp1 pc taken predicted.

(** [n] resolved branches at one [pc], all with the same outcome. *)
Definition train (bp : BranchPredictor) (pc : Z) (taken : bool) (n : nat)
  : BranchPredictor :=
  Nat.iter n (fun b => predict_then_update b pc taken) bp.

End BP.

(** ** The in-order pipeline ([src/cpu/pipeline.c]) *)

Module Pipe.
Import Isa.

Inductive PipelineStage : Type :=
  | STAGE_FETCH | STAGE_DECODE | STAGE_EXECUTE
  | STAGE_MEMORY | STAGE_WRITEBACK | STAGE_COMMIT.

#[global] Instance PipelineStage_eq_dec : EqDecision PipelineStage.
Proof. solve_decision. Defined.

Record PipelineRegister : Type := mkPR {
  pr_pc : Z;
  type : InstructionType;
  opcode : Z;          (* uint8_t *)
  src1 : Z;
  src2 : Z;
  dest : Z;
  immediate : Z;
  result : Z;
  mem_addr : Z;
  mem_data : Z;
  stall : bool;
  bubble : bool;
  cycle_entered : Z
}.

(** [PipelineRegister pipeline[6]]: one register per stage. *)
Record Pipeline : Type := mkPipeline {
  at_fetch : PipelineRegister;
  at_decode : PipelineRegister;
  at_execute : PipelineRegister;
  at_memory : PipelineRegister;
  at_writeback : PipelineRegister;
  at_commit : PipelineRegister
}.

(** [cpu->pipeline[s]]. *)
Definition stage (p : Pipeline) (s : PipelineStage) : PipelineRegister :=
  match s with
  | STAGE_FETCH => at_fetch p
  | STAGE_DECODE => at_decode p
  | STAGE_EXECUTE => at_execute p
  | STAGE_MEMORY => at_memory p
  | STAGE_WRITEBACK => at_writeback p
  | STAGE_COMMIT => at_commit p
  end.

(** [cpu->pipeline[s] = r]. *)
Definition set_stage (p : Pipeline) (s : PipelineStage) (r : PipelineRegister)
  : Pipeline :=
  match s with
  | STAGE_FETCH => mkPipeline r (at_decode p) (at_execute p) (at_memory p) (at_writeback p) (at_commit p)
  | STAGE_DECODE => mkPipeline (at_fetch p) r (at_execute p) (at_memory p) (at_writeback p) (at_commit p)
  | STAGE_EXECUTE => mkPipeline (at_fetch p) (at_decode p) r (at_memory p) (at_writeback p) (at_commit p)
  | STAGE_MEMORY => mkPipeline (at_fetch p) (at_decode p) (at_execute p) r (at_writeback p) (at_commit p)
  | STAGE_WRITEBACK => mkPipeline (at_fetch p) (at_decode p) (at_execute p) (at_memory p) r (at_commit p)
  | STAGE_COMMIT => mkPipeline (at_fetch p) (at_decode p) (at_execute p) (at_memory p) (at_writeback p) r
  end.

(** The stages after [s], in index order: the range of the loop
    [for (i = s + 1; i <= STAGE_COMMIT; i++)]. *)
Definition stages_after (s : PipelineStage) : list PipelineStage :=
  match s with
  | STAGE_FETCH => [STAGE_DECODE; STAGE_EXECUTE; STAGE_MEMORY; STAGE_WRITEBACK; STAGE_COMMIT]
  | STAGE_DECODE => [STAGE_EXECUTE; STAGE_MEMORY; STAGE_WRITEBACK; STAGE_COMMIT]
  | STAGE_EXECUTE => [STAGE_MEMORY; STAGE_WRITEBACK; STAGE_COMMIT]
  | STAGE_MEMORY => [STAGE_WRITEBACK; STAGE_COMMIT]
  | STAGE_WRITEBACK => [STAGE_COMMIT]
  | STAGE_COMMIT => []
  end.

Record CPU : Type := mkCPU {
  registers : list Z;        (* uint64_t registers[16] *)
  pc : Z;
  sp : Z;
  flags : Z;
  memory : list Z;           (* uint8_t memory[mem_size] *)
  mem_size : Z;
  l1_cache : CacheModel.Cache;
  l2_cache : CacheModel.Cache;
  bp : BP.BranchPredictor;
  pipeline : Pipeline;
  current_stage : PipelineStage;
  cycles : Z;
  instructions : Z;
  stalls : Z;
  bubbles : Z;
  start_time : Z
}.

(** Field updates of the [CPU] structure. *)
Definition with_pipeline (cpu : CPU) (p : Pipeline) : CPU :=
  mkCPU (registers cpu) (pc cpu) (sp cpu) (flags cpu) (memory cpu) (mem_size cpu)
        (l1_cache cpu) (l2_cache cpu) (bp cpu) p (current_stage cpu)
        (cycles cpu) (instructions cpu) (stalls cpu) (bubbles cpu) (start_time cpu).
Definition with_pc (cpu : CPU) (v : Z) : CPU :=
  mkCPU (registers cpu) v (sp cpu) (flags cpu) (memory cpu) (mem_size cpu)
        (l1_cache cpu) (l2_cache cpu) (bp cpu) (pipeline cpu) (current_stage cpu)
        (cycles cpu) (instructions cpu) (stalls cpu) (bubbles cpu) (start_time cpu).
Definition with_registers (cpu : CPU) (r : list Z) : CPU :=
  mkCPU r (pc cpu) (sp cpu) (flags cpu) (memory cpu) (mem_size cpu)
        (l1_cache cpu) (l2_cache cpu) (bp cpu) (pipeline cpu) (current_stage cpu)
        (cycles cpu) (instructions cpu) (stalls cpu) (bubbles cpu) (start_time cpu).
Definition with_flags (cpu : CPU) (v : Z) : CPU :=
  mkCPU (registers cpu) (pc cpu) (sp cpu) v (memory cpu) (mem_size cpu)
        (l1_cache cpu) (l2_cache cpu) (bp cpu) (pipeline cpu) (current_stage cpu)
        (cycles cpu) (instructions cpu) (stalls cpu) (bubbles cpu) (start_time cpu).
Definition with_memory (cpu : CPU) (m : list Z) : CPU :=
  mkCPU (registers cpu) (pc cpu) (sp cpu) (flags cpu) m (mem_size cpu)
        (l1_cache cpu) (l2_cache cpu) (bp cpu) (pipeline cpu) (current_stage cpu)
        (cycles cpu) (instructions cpu) (stalls cpu) (bubbles cpu) (start_time cpu).
Definition with_l1_cache (cpu : CPU) (c : CacheModel.Cache) : CPU :=
  mkCPU (registers cpu) (pc cpu) (sp cpu) (flags cpu) (memory cpu) (mem_size cpu)
        c (l2_cache cpu) (bp cpu) (pipeline cpu) (current_stage cpu)
        (cycles cpu) (instructions cpu) (stalls cpu) (bubbles cpu) (start_time cpu).
Definition with_bp (cpu : CPU) (b : BP.BranchPredictor) : CPU :=
  mkCPU (registers cpu) (pc cpu) (sp cpu) (flags cpu) (memory cpu) (mem_size cpu)
        (l1_cache cpu) (l2_cache cpu) b (pipeline cpu) (current_stage cpu)
        (cycles cpu) (instructions cpu) (stalls cpu) (bubbles cpu) (start_time cpu).
Definition with_cycles (cpu : CPU) (v : Z) : CPU :=
  mkCPU (registers cpu) (pc cpu) (sp cpu) (flags cpu) (memory cpu) (mem_size cpu)
        (l1_cache cpu) (l2_cache cpu) (bp cpu) (pipeline cpu) (current_stage cpu)
        v (instructions cpu) (stalls cpu) (bubbles cpu) (start_time cpu).
Definition with_instructions (cpu : CPU) (v : Z) : CPU :=
  mkCPU (registers cpu) (pc cpu) (sp cpu) (flags cpu) (memory cpu) (mem_size cpu)
        (l1_cache cpu) (l2_cache cpu) (bp cpu) (pipeline cpu) (current_stage cpu)
        (cycles cpu) v (stalls cpu) (bubbles cpu) (start_time cpu).
Definition with_stalls (cpu : CPU) (v : Z) : CPU :=
  mkCPU (registers cpu) (pc cpu) (sp cpu) (flags cpu) (memory cpu) (mem_size cpu)
        (l1_cache cpu) (l2_cache cpu) (bp cpu) (pipeline cpu) (current_stage cpu)
        (cycles cpu) (instructions cpu) v (bubbles cpu) (start_time cpu).
Definition with_bubbles (cpu : CPU) (v : Z) : CPU :=
  mkCPU (registers cpu) (pc cpu) (sp cpu) (flags cpu) (memory cpu) (mem_size cpu)
        (l1_cache cpu) (l2_cache cpu) (bp cpu) (pipeline cpu) (current_stage cpu)
        (cycles cpu) (instructions cpu) (stalls cpu) v (start_time cpu).

(** Field updates of a pipeline register. *)
Definition pr_with_type (r : PipelineRegister) (t : InstructionType) : PipelineRegister :=
  mkPR (pr_pc r) t (opcode r) (src1 r) (src2 r) (dest r) (immediate r) (result r)
       (mem_addr r) (mem_data r) (stall r) (bubble r) (cycle_entered r).
Definition pr_with_bubble (r : PipelineRegister) (b : bool) : PipelineRegister :=
  mkPR (pr_pc r) (type r) (opcode r) (src1 r) (src2 r) (dest r) (immediate r) (result r)
       (mem_addr r) (mem_data r) (stall r) b (cycle_entered r).
Definition pr_with_stall (r : PipelineRegister) (b : bool) : PipelineRegister :=
  mkPR (pr_pc r) (type r) (opcode r) (src1 r) (src2 r) (dest r) (immediate r) (result r)
       (mem_addr r) (mem_data r) b (bubble r) (cycle_entered r).
Definition pr_with_result (r : PipelineRegister) (v : Z) : PipelineRegister :=
  mkPR (pr_pc r) (type r) (opcode r) (src1 r) (src2 r) (dest r) (immediate r) v
       (mem_addr r) (mem_data r) (stall r) (bubble r) (cycle_entered r).
Definition pr_with_cycle (r : PipelineRegister) (v : Z) : PipelineRegister :=
  mkPR (pr_pc r) (type r) (opcode r) (src1 r) (src2 r) (dest r) (immediate r) (result r)
       (mem_addr r) (mem_data r) (stall r) (bubble r) v.
Definition pr_with_srcs (r : PipelineRegister) (a b : Z) : PipelineRegister :=
  mkPR (pr_pc r) (type r) (opcode r) a b (dest r) (immediate r) (result r)
       (mem_addr r) (mem_data r) (stall r) (bubble r) (cycle_entered r).

(** [pr->type = INST_NOP; pr->bubble = b;] *)
Definition make_nop (r : PipelineRegister) (b : bool) : PipelineRegister :=
  pr_with_bubble (pr_with_type r INST_NOP) b.

(** The all-zero register that [memset] leaves, with type [INST_NOP]. *)
Definition empty_register : PipelineRegister :=
  mkPR 0 INST_NOP 0 0 0 0 0 0 0 0 false false 0.

Definition is_jump (t : InstructionType) : bool :=
  type_eqb t INST_JMP || type_eqb t INST_JZ || type_eqb t INST_JNZ.

(** [check_hazard(cpu, stage, reg)]. *)
Definition check_hazard (cpu : CPU) (s : PipelineStage) (reg : Z) : bool :=
  existsb (fun i => (dest (stage (pipeline cpu) i) =? reg)
                    && negb (type_eqb (type (stage (pipeline cpu) i)) INST_NOP))
          (stages_after s).

(** [cpu_reset]; [now] is the clock value read by [get_time_ms]. *)
Definition cpu_reset (cpu : CPU) (now : Z) : CPU :=
  mkCPU (replicate 16 0) 0x1000 0x8000 0 (memory cpu) (mem_size cpu)
        (l1_cache cpu) (l2_cache cpu) (bp cpu)
        (mkPipeline empty_register empty_register empty_register
                    empty_register empty_register empty_register)
        STAGE_FETCH 0 0 0 0 now.

(** [cpu_create(mem_size)].  [malloc] does not initialise the memory: its
    contents [mem0] are a parameter.  Allocation is taken to succeed. *)
Definition cpu_create (msize : Z) (mem0 : list Z) (now : Z) : option CPU :=
  match CacheModel.cache_create CacheModel.CACHE_SET_ASSOC (32 * 1024) 64 8,
        CacheModel.cache_create CacheModel.CACHE_SET_ASSOC (256 * 1024) 64 16 with
  | Some l1, Some l2 =>
      Some (cpu_reset
              (mkCPU [] 0 0 0 mem0 msize l1 l2
                     (BP.bp_create BP.PREDICTOR_BIMODAL 12 4096)
                     (mkPipeline empty_register empty_register empty_register
                                 empty_register empty_register empty_register)
                     STAGE_FETCH 0 0 0 0 0)
              now)
  | _, _ => None
  end.

(** [memcpy(mem + a, program, size)].  The address is a 64-bit offset from
    the start of the memory: byte [i] of the program goes to offset
    [a + i] taken modulo 2^64, so a copy that runs past 2^64 continues at
    offset 0. *)
Fixpoint copy_bytes (mem : list Z) (a : Z) (program : list Z) : list Z :=
  match program with
  | [] => mem
  | b :: rest => copy_bytes (zset mem (wrap64 a) b) (a + 1) rest
  end.

(** [cpu_load_program(cpu, program, size, address)] with
    [size = length program]: the return code and the processor after. *)
Definition cpu_load_program (cpu : CPU) (program : list Z) (addr : Z) : Z * CPU :=
  if mem_size cpu <? wrap64 (addr + Z.of_nat (length program))
  then (-1, cpu)
  else (0, with_pc (with_memory cpu (copy_bytes (memory cpu) addr program)) addr).

(** Lines 91-108 of [stage_fetch]: the misprediction check against the
    instruction in Execute. *)
Definition fetch_check_mispredict (cpu : CPU) : CPU :=
  let ex := stage (pipeline cpu) STAGE_EXECUTE in
  if is_jump (type ex) then
    let taken := negb (result ex =? 0) in
    let '(predicted, bp') := BP.bp_predict (bp cpu) (pr_pc ex) in
    let cpu1 := with_bp cpu bp' in
    if negb (eqb taken predicted) then
      let flushed :=
        fold_left (fun p i => set_stage p i (make_nop (stage p i) true))
                  (stages_after STAGE_FETCH) (pipeline cpu1) in
      let cpu2 := with_pipeline cpu1 flushed in
      let cpu3 := with_pc cpu2 (result (stage (pipeline cpu2) STAGE_EXECUTE)) in
      with_bubbles cpu3 (wrap64 (bubbles cpu3 + 3))
    else cpu1
  else cpu.

(** The type a fetched opcode byte is mapped to. *)
Definition fetch_type (op : Z) : InstructionType :=
  if op <? 20 then type_of_Z op else INST_NOP.

(** Lines 110-126 of [stage_fetch]: the cache access, the read of the
    opcode byte and the advance of the program counter. *)
Definition fetch_instruction (cpu : CPU) : CPU :=
  let '(_, l1) := CacheModel.cache_access (l1_cache cpu) (pc cpu) false in
  let cpu1 := with_l1_cache cpu l1 in
  let op := zget (memory cpu1) (pc cpu1) in
  let pr := stage (pipeline cpu1) STAGE_FETCH in
  let pr' :=
    mkPR (pc cpu1) (fetch_type op) op (src1 pr) (src2 pr) (dest pr) (immediate pr)
         (result pr) (mem_addr pr) (mem_data pr) (stall pr) (bubble pr)
         (cycles cpu1) in
  with_pc (with_pipeline cpu1 (set_stage (pipeline cpu1) STAGE_FETCH pr'))
          (wrap64 (pc cpu1 + 1)).

Definition stage_fetch (cpu : CPU) : CPU :=
  if stall (stage (pipeline cpu) STAGE_FETCH)
  then with_stalls cpu (wrap64 (stalls cpu + 1))
  else fetch_instruction (fetch_check_mispredict cpu).

Definition stage_decode (cpu : CPU) : CPU :=
  let pr := stage (pipeline cpu) STAGE_DECODE in
  let prev := stage (pipeline cpu) STAGE_FETCH in
  if bubble prev then
    with_pipeline cpu (set_stage (pipeline cpu) STAGE_DECODE (make_nop pr true))
  else if check_hazard cpu STAGE_DECODE (src1 prev)
          || check_hazard cpu STAGE_DECODE (src2 prev) then
    let p1 := set_stage (pipeline cpu) STAGE_FETCH (pr_with_stall prev true) in
    let p2 := set_stage p1 STAGE_DECODE (pr_with_type pr INST_NOP) in
    with_stalls (with_pipeline cpu p2) (wrap64 (stalls cpu + 1))
  else
    let pr1 := pr_with_cycle prev (cycles cpu) in
    let pr2 :=
      pr_with_srcs pr1
        (zget (registers cpu) (Z.land (opcode pr1) 0x0F))
        (zget (registers cpu) (Z.land (Z.shiftr (opcode pr1) 4) 0x0F)) in
    with_pipeline cpu (set_stage (pipeline cpu) STAGE_DECODE pr2).

(** The [switch] of [stage_execute]: the result of an instruction. *)
Definition execute_result (pr : PipelineRegister) : Z :=
  match type pr with
  | INST_ADD => wrap64 (src1 pr + src2 pr)
  | INST_SUB => wrap64 (src1 pr - src2 pr)
  | INST_MUL => wrap64 (src1 pr * src2 pr)
  | INST_AND => Z.land (src1 pr) (src2 pr)
  | INST_OR => Z.lor (src1 pr) (src2 pr)
  | INST_XOR => Z.lxor (src1 pr) (src2 pr)
  | INST_SHL => wrap64 (Z.shiftl (src1 pr) (Z.land (src2 pr) 0x3F))
  | INST_SHR => Z.shiftr (src1 pr) (Z.land (src2 pr) 0x3F)
  | INST_JMP => immediate pr
  | INST_JZ => if src1 pr =? 0 then immediate pr else wrap64 (pr_pc pr + 1)
  | INST_JNZ => if negb (src1 pr =? 0) then immediate pr else wrap64 (pr_pc pr + 1)
  | INST_CMP => wrap64 (src1 pr - src2 pr)
  | INST_MOV => src1 pr
  | _ => 0
  end.

(** The outcome of a branch as [stage_execute] computes it. *)
Definition branch_taken (pr : PipelineRegister) : bool :=
  negb (result pr =? wrap64 (pr_pc pr + 1)).

Definition stage_execute (cpu : CPU) : CPU :=
  let pr := stage (pipeline cpu) STAGE_EXECUTE in
  let prev := stage (pipeline cpu) STAGE_DECODE in
  if bubble prev then
    with_pipeline cpu (set_stage (pipeline cpu) STAGE_EXECUTE (make_nop pr true))
  else
    let pr1 := pr_with_cycle prev (cycles cpu) in
    let cpu1 :=
      if type_eqb (type pr1) INST_CMP
      then with_flags cpu (wrap64 (src1 pr1 - src2 pr1)) else cpu in
    let pr2 := pr_with_result pr1 (execute_result pr1) in
    let cpu2 := with_pipeline cpu1 (set_stage (pipeline cpu1) STAGE_EXECUTE pr2) in
    if is_jump (type pr2) then
      let taken := branch_taken pr2 in
      let '(predicted, bp1) := BP.bp_predict (bp cpu2) (pr_pc pr2) in
      with_bp cpu2 (BP.bp_update bp1 (pr_pc pr2) taken predicted)
    else cpu2.

Definition stage_memory (cpu : CPU) : CPU :=
  let pr := stage (pipeline cpu) STAGE_MEMORY in
  let prev := stage (pipeline cpu) STAGE_EXECUTE in
  if bubble prev then
    with_pipeline cpu (set_stage (pipeline cpu) STAGE_MEMORY (make_nop pr true))
  else
    let pr1 := pr_with_cycle prev (cycles cpu) in
    if type_eqb (type pr1) INST_LD then
      let '(_, l1) := CacheModel.cache_access (l1_cache cpu) (mem_addr pr1) false in
      let pr2 := pr_with_result pr1 (read_u64 (memory cpu) (mem_addr pr1)) in
      with_pipeline (with_l1_cache cpu l1) (set_stage (pipeline cpu) STAGE_MEMORY pr2)
    else if type_eqb (type pr1) INST_ST then
      let '(_, l1) := CacheModel.cache_access (l1_cache cpu) (mem_addr pr1) true in
      with_memory
        (with_pipeline (with_l1_cache cpu l1) (set_stage (pipeline cpu) STAGE_MEMORY pr1))
        (write_u64 (memory cpu) (mem_addr pr1) (mem_data pr1))
    else
      with_pipeline cpu (set_stage (pipeline cpu) STAGE_MEMORY pr1).

Definition stage_writeback (cpu : CPU) : CPU :=
  let pr := stage (pipeline cpu) STAGE_WRITEBACK in
  let prev := stage (pipeline cpu) STAGE_MEMORY in
  if bubble prev then
    with_pipeline cpu (set_stage (pipeline cpu) STAGE_WRITEBACK (make_nop pr true))
  else
    let pr1 := pr_with_cycle prev (cycles cpu) in
    let cpu1 := with_pipeline cpu (set_stage (pipeline cpu) STAGE_WRITEBACK pr1) in
    let cpu2 :=
      if dest pr1 <? 16
      then with_registers cpu1 (zset (registers cpu1) (dest pr1) (result pr1))
      else cpu1 in
    with_instructions cpu2 (wrap64 (instructions cpu2 + 1)).

Definition stage_commit (cpu : CPU) : CPU :=
  let pr := stage (pipeline cpu) STAGE_COMMIT in
  let prev := stage (pipeline cpu) STAGE_WRITEBACK in
  let p1 :=
    if bubble prev
    then set_stage (pipeline cpu) STAGE_COMMIT (make_nop pr false)
    else set_stage (pipeline cpu) STAGE_COMMIT prev in
  with_pipeline cpu
    (set_stage p1 STAGE_FETCH (pr_with_stall (stage p1 STAGE_FETCH) false)).

(** One cycle: the stages in reverse order, then the cycle counter. *)
Definition cpu_step (cpu : CPU) : CPU :=
  let cpu := stage_commit cpu in
  let cpu := stage_writeback cpu in
  let cpu := stage_memory cpu in
  let cpu := stage_execute cpu in
  let cpu := stage_decode cpu in
  let cpu := stage_fetch cpu in
  with_cycles cpu (wrap64 (cycles cpu + 1)).

(** [cpu_run(cpu, n)]. *)
Definition cpu_run (cpu : CPU) (n : nat) : CPU := Nat.iter n cpu_step cpu.

(** Every pipeline register names destination 0. *)
Definition dest_zero (p : Pipeline) : Prop :=
  forall s, dest (stage p s) = 0.

(** [sign_extend(value, bits)]: with [mask = 1ULL << (bits - 1)], the
    64-bit value of [(value ^ mask) - mask]. *)
Definition sign_extend (value bits : Z) : Z :=
  let mask := wrap64 (Z.shiftl 1 (bits - 1)) in
  wrap64 (Z.lxor value mask - mask).

(** A processor in which no stage is a bubble, no register names a
    destination or, in Fetch, a source other than 0, and the bubble counter
    is 0: the state [cpu_reset] leaves. *)
Definition quiet (cpu : CPU) : Prop :=
  dest_zero (pipeline cpu) /\
  src1 (stage (pipeline cpu) STAGE_FETCH) = 0 /\
  src2 (stage (pipeline cpu) STAGE_FETCH) = 0 /\
  (forall s, bubble (stage (pipeline cpu) s) = false) /\
  bubbles cpu = 0.

(** Two conditional jumps that fall through and one jump, 4096 bytes apart
    so that the three use the same entry of the 4096-entry pattern table:
    [INST_JNZ] at 0 and at 4096, [INST_JMP] at 8192, no-ops in between. *)
Definition aliased_branches : list Z :=
  [15] ++ replicate (Z.to_nat 4095) 0 ++ [15] ++ replicate (Z.to_nat 4095) 0 ++ [13].

(** The repository's test layout of [MOV R0,10; ADD R1,R0,R0]: one opcode
    byte and the operand bytes of each instruction. *)
Definition hazard_program : list Z := [19; 0; 10; 1; 1; 0; 0].

(** A processor whose Fetch register is stalled while Execute holds a taken
    jump from 0x1000 to 0x2000 and the predictor always says not taken. *)
Definition stalled_with_taken_jump : CPU :=
  mkCPU (replicate 16 0) 0x1002 0x8000 0 (replicate 0x3000 0) 0x3000
        (CacheModel.two_way CacheModel.CACHE_SET_ASSOC)
        (CacheModel.two_way CacheModel.CACHE_SET_ASSOC)
        (BP.bp_create BP.PREDICTOR_ALWAYS_NOT_TAKEN 12 4096)
        (mkPipeline (mkPR 0x1001 INST_NOP 0 0 0 0 0 0 0 0 true false 0)
                    empty_register
                    (mkPR 0x1000 INST_JMP 13 0 0 0 0x2000 0x2000 0 0 false false 0)
                    empty_register empty_register empty_register)
        STAGE_FETCH 3 0 0 0 0.

(** The same processor with the Fetch register not stalled. *)
Definition taken_jump_in_execute : CPU :=
  with_pipeline stalled_with_taken_jump
    (set_stage (pipeline stalled_with_taken_jump) STAGE_FETCH
       (pr_with_stall (stage (pipeline stalled_with_taken_jump) STAGE_FETCH) false)).

End Pipe.

(** ** The out-of-order engine ([src/cpu/tomasulo.c]) *)

Module RS.
Record ReservationStation : Type := mk {
  busy : bool;
  op : Isa.InstructionType;
  vj : Z;
  vk : Z;
  qj : Z;
  qk : Z;
  dest : Z;
  address : Z;
  result : Z;
  result_ready : bool
}.
(** A [calloc]ed station. *)
Definition zero : ReservationStation :=
  mk false Isa.INST_NOP 0 0 0 0 0 0 0 false.
End RS.

Module ROB.
Record ROBEntry : Type := mk {
  busy : bool;
  op : Isa.InstructionType;
  result : Z;
  dest : Z;
  ready : bool;
  exception : bool
}.
(** A [calloc]ed entry. *)
Definition zero : ROBEntry := mk false Isa.INST_NOP 0 0 false false.
End ROB.

Module Tomasulo.
Import Isa.

Record TomasuloCPU : Type := mkT {
  rs : list RS.ReservationStation;
  rob : list ROB.ROBEntry;
  registers : list Z;       (* 32 registers *)
  reg_status : list Z;      (* 0: no producer, otherwise ROB index + 1 *)
  rs_count : Z;
  rob_size : Z;
  rs_head : Z;
  rs_tail : Z;
  rob_head : Z;
  rob_tail : Z;
  clock : Z;
  instructions_issued : Z;
  instructions_completed : Z;
  instructions_committed : Z
}.

(** [tomasulo_create]; allocation is taken to succeed. *)
Definition tomasulo_create (n_rs n_rob : Z) : TomasuloCPU :=
  mkT (replicate (Z.to_nat n_rs) RS.zero) (replicate (Z.to_nat n_rob) ROB.zero)
      (replicate 32 0) (replicate 32 0) n_rs n_rob 0 0 0 0 0 0 0 0.

(** [cpu->rs[i]] and [cpu->rob[j]]. *)
Definition rs_at (cpu : TomasuloCPU) (i : Z) : RS.ReservationStation :=
  default RS.zero (rs cpu !! Z.to_nat i).
Definition rob_at (cpu : TomasuloCPU) (j : Z) : ROB.ROBEntry :=
  default ROB.zero (rob cpu !! Z.to_nat j).

(** The first station that is not busy: the search loop of
    [tomasulo_issue]. *)
Definition find_free_station (cpu : TomasuloCPU) : option Z :=
  CacheModel.find_from (fun i => negb (RS.busy (rs_at cpu i))) 0
                       (Z.to_nat (rs_count cpu)).

(** The body of the loop of [tomasulo_issue] at the free station [i]. *)
Definition issue_at (cpu : TomasuloCPU) (inst : DecodedInstruction) (i : Z)
  : TomasuloCPU :=
  let st := rs_at cpu i in
  let sj := zget (reg_status cpu) (rs1 inst) in
  let sk := zget (reg_status cpu) (rs2 inst) in
  let vj' := if sj =? 0 then zget (registers cpu) (rs1 inst) else RS.vj st in
  let vk' := if sk =? 0 then zget (registers cpu) (rs2 inst) else RS.vk st in
  let st' :=
    RS.mk true (type inst) vj' vk' sj sk (rd inst)
          (RS.address st) (RS.result st) (RS.result_ready st) in
  let rob_idx := rob_tail cpu in
  let e := rob_at cpu rob_idx in
  let e' := ROB.mk true (type inst) (ROB.result e) (rd inst) false false in
  mkT (<[Z.to_nat i := st']> (rs cpu))
      (<[Z.to_nat rob_idx := e']> (rob cpu))
      (registers cpu)
      (zset (reg_status cpu) (rd inst) (rob_idx + 1))
      (rs_count cpu) (rob_size cpu) (rs_head cpu) (rs_tail cpu)
      (rob_head cpu) (Z.rem (rob_tail cpu + 1) (rob_size cpu))
      (clock cpu) (wrap64 (instructions_issued cpu + 1))
      (instructions_completed cpu) (instructions_committed cpu).

(** [tomasulo_issue(cpu, inst)]: whether the instruction was issued, and the
    engine after. *)
Definition tomasulo_issue (cpu : TomasuloCPU) (inst : DecodedInstruction)
  : bool * TomasuloCPU :=
  match find_free_station cpu with
  | Some i => (true, issue_at cpu inst i)
  | None => (false, cpu)
  end.

(** The [switch] of [tomasulo_execute]. *)
Definition station_result (st : RS.ReservationStation) : Z :=
  match RS.op st with
  | INST_ADD => wrap64 (RS.vj st + RS.vk st)
  | INST_SUB => wrap64 (RS.vj st - RS.vk st)
  | INST_MUL => wrap64 (RS.vj st * RS.vk st)
  | _ => 0
  end.

(** One iteration of the loop of [tomasulo_execute], at station [i]. *)
Definition execute_at (cpu : TomasuloCPU) (i : Z) : TomasuloCPU :=
  let st := rs_at cpu i in
  if RS.busy st && (RS.qj st =? 0) && (RS.qk st =? 0) then
    let st' :=
      RS.mk (RS.busy st) (RS.op st) (RS.vj st) (RS.vk st) (RS.qj st) (RS.qk st)
            (RS.dest st) (RS.address st) (station_result st) true in
    mkT (<[Z.to_nat i := st']> (rs cpu)) (rob cpu) (registers cpu) (reg_status cpu)
        (rs_count cpu) (rob_size cpu) (rs_head cpu) (rs_tail cpu)
        (rob_head cpu) (rob_tail cpu) (clock cpu) (instructions_issued cpu)
        (wrap64 (instructions_completed cpu + 1)) (instructions_committed cpu)
  else cpu.

(** The station and entry indices [0, 1, ..., n-1] of a [for] loop. *)
Definition indices (n : Z) : list Z := map Z.of_nat (seq 0 (Z.to_nat n)).

Definition tomasulo_execute (cpu : TomasuloCPU) : TomasuloCPU :=
  fold_left execute_at (indices (rs_count cpu)) cpu.

(** The first reorder-buffer entry that is busy and not ready: the inner
    loop of [tomasulo_writeback]. *)
Definition find_pending_entry (cpu : TomasuloCPU) : option Z :=
  CacheModel.find_from
    (fun j => ROB.busy (rob_at cpu j) && negb (ROB.ready (rob_at cpu j))) 0
    (Z.to_nat (rob_size cpu)).

(** One iteration of the outer loop of [tomasulo_writeback], at station [i]. *)
Definition writeback_at (cpu : TomasuloCPU) (i : Z) : TomasuloCPU :=
  let st := rs_at cpu i in
  if RS.busy st && RS.result_ready st then
    let rob' :=
      match find_pending_entry cpu with
      | Some j =>
          let e := rob_at cpu j in
          <[Z.to_nat j := ROB.mk (ROB.busy e) (ROB.op e) (RS.result st)
                                 (ROB.dest e) true (ROB.exception e)]> (rob cpu)
      | None => rob cpu
      end in
    let st' :=
      RS.mk false (RS.op st) (RS.vj st) (RS.vk st) (RS.qj st) (RS.qk st)
            (RS.dest st) (RS.address st) (RS.result st) false in
    mkT (<[Z.to_nat i := st']> (rs cpu)) rob' (registers cpu) (reg_status cpu)
        (rs_count cpu) (rob_size cpu) (rs_head cpu) (rs_tail cpu)
        (rob_head cpu) (rob_tail cpu) (clock cpu) (instructions_issued cpu)
        (instructions_completed cpu) (instructions_committed cpu)
  else cpu.

Definition tomasulo_writeback (cpu : TomasuloCPU) : TomasuloCPU :=
  fold_left writeback_at (indices (rs_count cpu)) cpu.

(** The loop condition of [tomasulo_commit]. *)
Definition head_ready (cpu : TomasuloCPU) : bool :=
  ROB.busy (rob_at cpu (rob_head cpu)) && ROB.ready (rob_at cpu (rob_head cpu)).

(** The loop body of [tomasulo_commit]: retire the head entry. *)
Definition commit_head (cpu : TomasuloCPU) : TomasuloCPU :=
  let entry := rob_at cpu (rob_head cpu) in
  let regs' :=
    if negb (ROB.exception entry)
    then zset (registers cpu) (ROB.dest entry) (ROB.result entry)
    else registers cpu in
  let status' :=
    if negb (ROB.exception entry)
    then zset (reg_status cpu) (ROB.dest entry) 0
    else reg_status cpu in
  let entry' :=
    ROB.mk false (ROB.op entry) (ROB.result entry) (ROB.dest entry)
           (ROB.ready entry) (ROB.exception entry) in
  mkT (rs cpu) (<[Z.to_nat (rob_head cpu) := entry']> (rob cpu)) regs' status'
      (rs_count cpu) (rob_size cpu) (rs_head cpu) (rs_tail cpu)
      (Z.rem (rob_head cpu + 1) (rob_size cpu)) (rob_tail cpu)
      (clock cpu) (instructions_issued cpu) (instructions_completed cpu)
      (wrap64 (instructions_committed cpu + 1)).

(** The [while] loop of [tomasulo_commit] with a bound on its iterations. *)
Fixpoint commit_loop (fuel : nat) (cpu : TomasuloCPU) : TomasuloCPU :=
  match fuel with
  | O => cpu
  | S fuel' => if head_ready cpu then commit_loop fuel' (commit_head cpu) else cpu
  end.

(** [tomasulo_commit].  Every iteration clears the busy flag of one entry,
    and the head visits each entry once before it comes back to the first:
    [rob_size] iterations are enough (see [commit_loop_stops]). *)
Definition tomasulo_commit (cpu : TomasuloCPU) : TomasuloCPU :=
  commit_loop (Z.to_nat (rob_size cpu)) cpu.

(** An engine whose arrays have the sizes [tomasulo_create] gives them and
    whose reorder-buffer indices are in range. *)
Definition engine_wf (cpu : TomasuloCPU) : Prop :=
  length (rs cpu) = Z.to_nat (rs_count cpu) /\ 0 <= rs_count cpu /\
  length (rob cpu) = Z.to_nat (rob_size cpu) /\ 0 < rob_size cpu /\
  0 <= rob_head cpu < rob_size cpu /\ 0 <= rob_tail cpu < rob_size cpu /\
  length (registers cpu) = 32%nat /\ length (reg_status cpu) = 32%nat.

(** A station that holds an instruction waiting for a producer: busy, no
    result yet, and at least one pending operand tag. *)
Definition waiting (st : RS.ReservationStation) : Prop :=
  RS.busy st = true /\ RS.result_ready st = false /\
  (RS.qj st <> 0 \/ RS.qk st <> 0).

(** An engine with nothing in flight: every station and every
    reorder-buffer entry is free, no register waits for a producer, and the
    reorder buffer's head has caught up with its tail. *)
Definition idle (cpu : TomasuloCPU) : Prop :=
  (forall i, RS.busy (rs_at cpu i) = false) /\
  (forall j, ROB.busy (rob_at cpu j) = false) /\
  (forall r, zget (reg_status cpu) r = 0) /\
  rob_head cpu = rob_tail cpu.

(** The value the [switch] of [tomasulo_execute] computes from two operand
    values. *)
Definition alu_value (op : InstructionType) (a b : Z) : Z :=
  station_result (RS.mk true op a b 0 0 0 0 0 false).

(** One call of the interface of the engine. *)
Inductive engine_call : Type :=
  | CallIssue (inst : DecodedInstruction)
  | CallExecute
  | CallWriteback
  | CallCommit.

Definition do_call (cpu : TomasuloCPU) (c : engine_call) : TomasuloCPU :=
  match c with
  | CallIssue inst => snd (tomasulo_issue cpu inst)
  | CallExecute => tomasulo_execute cpu
  | CallWriteback => tomasulo_writeback cpu
  | CallCommit => tomasulo_commit cpu
  end.

(** A caller's sequence of calls. *)
Definition do_calls (cpu : TomasuloCPU) (cs : list engine_call) : TomasuloCPU :=
  fold_left do_call cs cpu.

(** A caller's sequence of issues. *)
Definition issue_all (cpu : TomasuloCPU) (insts : list DecodedInstruction)
  : TomasuloCPU :=
  fold_left (fun c i => snd (tomasulo_issue c i)) insts cpu.

(** A caller's round over the in-flight instructions: one call of each
    phase, in the order Execute, Writeback, Commit. *)
Definition run_phases (cpu : TomasuloCPU) : TomasuloCPU :=
  tomasulo_commit (tomasulo_writeback (tomasulo_execute cpu)).

Definition add_inst (d a b : Z) : DecodedInstruction :=
  mkInst INST_ADD FORMAT_R 0x01 d a b 0 0.

(** [ADD r1,r2,r3; ADD r4,r1,r5; ADD r6,r7,r8]: the second depends on the
    first, the third is independent. *)
Definition dependency_chain : list DecodedInstruction :=
  [add_inst 1 2 3; add_inst 4 1 5; add_inst 6 7 8].

(** An engine of three stations and four reorder-buffer entries with
    r2 = 1, r3 = 2, r5 = 10, r7 = 100 and r8 = 200. *)
Definition loaded_engine : TomasuloCPU :=
  let cpu := tomasulo_create 3 4 in
  mkT (rs cpu) (rob cpu)
      (zset (zset (zset (zset (zset (registers cpu) 2 1) 3 2) 5 10) 7 100) 8 200)
      (reg_status cpu) (rs_count cpu) (rob_size cpu) (rs_head cpu) (rs_tail cpu)
      (rob_head cpu) (rob_tail cpu) (clock cpu) (instructions_issued cpu)
      (instructions_completed cpu) (instructions_committed cpu).

End Tomasulo.

(** * Properties *)

(** ** Arrays and machine words *)

Section Arrays.

Lemma zget_zset_eq (l : list Z) (i x : Z) :
  0 <= i < Z.of_nat (length l) -> zget (zset l i x) i = x.
Proof.
  intros Hi. unfold zget, zset.
  rewrite list_lookup_insert_eq by lia. reflexivity.
Qed.

Lemma zget_zset_ne (l : list Z) (i j x : Z) :
  0 <= i -> 0 <= j -> i <> j -> zget (zset l i x) j = zget l j.
Proof.
  intros Hi Hj Hne. unfold zget, zset.
  rewrite list_lookup_insert_ne by lia. reflexivity.
Qed.

Lemma length_zset (l : list Z) (i x : Z) : length (zset l i x) = length l.
Proof. unfold zset. apply length_insert. Qed.

Lemma bget_bset_eq (l : list bool) (i : Z) (x : bool) :
  0 <= i < Z.of_nat (length l) -> bget (bset l i x) i = x.
Proof.
  intros Hi. unfold bget, bset.
  rewrite list_lookup_insert_eq by lia. reflexivity.
Qed.

Lemma bget_bset_ne (l : list bool) (i j : Z) (x : bool) :
  0 <= i -> 0 <= j -> i <> j -> bget (bset l i x) j = bget l j.
Proof.
  intros Hi Hj Hne. unfold bget, bset.
  rewrite list_lookup_insert_ne by lia. reflexivity.
Qed.

Lemma length_bset (l : list bool) (i : Z) (x : bool) : length (bset l i x) = length l.
Proof. unfold bset. apply length_insert. Qed.

Lemma wrap64_range (z : Z) : 0 <= wrap64 z < 2 ^ 64.
Proof. unfold wrap64. apply Z.mod_pos_bound. lia. Qed.

Lemma wrap64_small (z : Z) : 0 <= z < 2 ^ 64 -> wrap64 z = z.
Proof. intros H. unfold wrap64. apply Z.mod_small. exact H. Qed.

(** A property checked on every element of [0, n) holds on the range. *)
Lemma forallb_range (p : Z -> bool) (n : Z) :
  forallb p (seqZ 0 n) = true -> forall x, 0 <= x < n -> p x = true.
Proof.
  intros Hall x Hx. rewrite forallb_forall in Hall. apply Hall.
  apply list_elem_of_In, elem_of_seqZ. lia.
Qed.

(** Bit [n] of the [k]-th byte of [v], put back in its place. *)
Lemma byte_in_place_bit (v k n : Z) :
  0 <= k -> 0 <= n ->
  Z.testbit (Z.shiftl (byte_of v k) (8 * k)) n =
  Z.testbit v n && (8 * k <=? n) && (n <? 8 * k + 8).
Proof.
  intros Hk Hn. unfold byte_of.
  rewrite Z.shiftl_spec by lia.
  destruct (Z.leb_spec (8 * k) n) as [Hle | Hlt].
  - rewrite Z.land_spec, Z.shiftr_spec by lia.
    replace (n - 8 * k + 8 * k) with n by lia.
    change 255 with (Z.ones 8).
    destruct (Z.ltb_spec n (8 * k + 8)) as [Hin | Hout].
    + rewrite Z.ones_spec_low by lia. rewrite !andb_true_r. reflexivity.
    + rewrite Z.ones_spec_high by lia. rewrite !andb_false_r. reflexivity.
  - rewrite Z.testbit_neg_r by lia. rewrite andb_false_r. reflexivity.
Qed.

Lemma high_bits_zero (v n : Z) : 0 <= v < 2 ^ 64 -> 64 <= n -> Z.testbit v n = false.
Proof.
  intros Hv Hn. rewrite <- (Z.mod_small v (2 ^ 64)) by lia.
  apply Z.mod_pow2_bits_high. lia.
Qed.

(** The eight bytes of a 64-bit word, reassembled. *)
Lemma bytes_reassemble (v : Z) :
  0 <= v < 2 ^ 64 ->
  fold_right (fun k acc => Z.lor (Z.shiftl (byte_of v k) (8 * k)) acc) 0
             [0; 1; 2; 3; 4; 5; 6; 7] = v.
Proof.
  intros Hv. apply Z.bits_inj'. intros n Hn. simpl fold_right.
  rewrite !Z.lor_spec, !byte_in_place_bit by lia.
  rewrite Z.bits_0, orb_false_r.
  destruct (Z.ltb_spec n 64) as [Hlow | Hhigh].
  - destruct (Z.testbit v n); [| reflexivity]. simpl.
    assert (Hbyte : n < 8 \/ 8 <= n < 16 \/ 16 <= n < 24 \/ 24 <= n < 32 \/
                    32 <= n < 40 \/ 40 <= n < 48 \/ 48 <= n < 56 \/ 56 <= n < 64)
      by lia.
    repeat destruct Hbyte as [Hbyte | Hbyte];
      repeat match goal with
             | |- context [(?a <=? ?b)] =>
                 first [ rewrite (proj2 (Z.leb_le a b)) by lia
                       | rewrite (proj2 (Z.leb_gt a b)) by lia ]
             | |- context [(?a <? ?b)] =>
                 first [ rewrite (proj2 (Z.ltb_lt a b)) by lia
                       | rewrite (proj2 (Z.ltb_ge a b)) by lia ]
             end; reflexivity.
  - rewrite high_bits_zero by lia. reflexivity.
Qed.

Lemma length_write_u64 (mem : list Z) (a v : Z) :
  length (write_u64 mem a v) = length mem.
Proof. unfold write_u64. simpl. rewrite !length_zset. reflexivity. Qed.

(** A 64-bit word written at [a] is read back from [a]. *)
Lemma read_write_u64 (mem : list Z) (a v : Z) :
  0 <= a -> a + 8 <= Z.of_nat (length mem) -> 0 <= v < 2 ^ 64 ->
  read_u64 (write_u64 mem a v) a = v.
Proof.
  intros Ha Hlen Hv. rewrite <- (bytes_reassemble v Hv) at 2.
  unfold read_u64, write_u64. simpl fold_left. simpl fold_right.
  repeat (rewrite ?zget_zset_eq by (rewrite ?length_zset; lia);
          rewrite ?zget_zset_ne by lia).
  reflexivity.
Qed.

(** A byte outside the eight written ones is unchanged. *)
Lemma zget_write_u64_other (mem : list Z) (a v j : Z) :
  0 <= a -> 0 <= j -> (j < a \/ a + 8 <= j) ->
  zget (write_u64 mem a v) j = zget mem j.
Proof.
  intros Ha Hj Hout. unfold write_u64. simpl fold_left.
  rewrite !zget_zset_ne by lia. reflexivity.
Qed.

End Arrays.

(** ** The instruction codec *)

Section Codec.
Import Isa.

Lemma pack_unpack (a b : Z) :
  0 <= a < 16 -> 0 <= b < 16 ->
  let byte := wrap8 (Z.lor (Z.shiftl a 4) (Z.land b 0x0F)) in
  Z.land (Z.shiftr byte 4) 0x0F = a /\ Z.land byte 0x0F = b.
Proof.
  intros Ha Hb.
  assert (Hall : forallb (fun x => forallb (pack_ok x) (seqZ 0 16)) (seqZ 0 16) = true)
    by (vm_compute; reflexivity).
  pose proof (forallb_range _ _ Hall a Ha) as Hrow. cbv beta in Hrow.
  pose proof (forallb_range _ _ Hrow b Hb) as Hab.
  unfold pack_ok in Hab. apply andb_true_iff in Hab as [H1 H2].
  split; lia.
Qed.

Lemma high_nibble (a : Z) :
  0 <= a < 16 -> Z.land (Z.shiftr (wrap8 (Z.shiftl a 4)) 4) 0x0F = a.
Proof.
  intros Ha. destruct (pack_unpack a 0 Ha ltac:(lia)) as [H _].
  cbv zeta in H. rewrite Z.land_0_l, Z.lor_0_r in H. exact H.
Qed.

(** Every type has its table entry, with the opcode equal to the
    enumerator's value. *)
Lemma lookup_type_total (t : InstructionType) :
  exists e, lookup_type t = Some e /\ e_type e = t /\ e_opcode e = type_to_Z t
            /\ lookup_opcode (e_opcode e) = Some e.
Proof. destruct t; eexists; repeat split; reflexivity. Qed.

Lemma table_format_cases (t : InstructionType) (f : InstructionFormat) :
  table_format t = Some f -> f = FORMAT_R \/ f = FORMAT_M \/ f = FORMAT_J \/ f = FORMAT_S.
Proof. destruct t; intros [= <-]; auto. Qed.


Ltac zget_simpl :=
  repeat first
    [ rewrite zget_write_u64_other by lia
    | rewrite zget_zset_ne by lia
    | rewrite zget_zset_eq by (rewrite ?length_write_u64, ?length_zset; lia) ].

(** C1 (amended).  For an instruction whose format is the table's format for
    its type, with register indices below 16 and 64-bit operands, encoding
    at [p] and decoding at [p] gives back the type and the format, and of the
    operand fields exactly those the format carries: [rd], [rs1], [rs2] for
    the register format, these and [address] for the memory format, [rd] and
    [imm] for the jump format, none for the system format.  The other
    operand fields decode as 0. *)
Theorem encode_decode_roundtrip (inst : DecodedInstruction) (mem : list Z) (p : Z) :
  table_format (type inst) = Some (format inst) ->
  0 <= rd inst < 16 -> 0 <= rs1 inst < 16 -> 0 <= rs2 inst < 16 ->
  0 <= imm inst < 2 ^ 64 -> 0 <= address inst < 2 ^ 64 ->
  0 <= p -> p + format_size (format inst) <= Z.of_nat (length mem) ->
  let d := decode_instruction (snd (encode_instruction inst mem p)) p in
  fst (encode_instruction inst mem p) = format_size (format inst) /\
  type d = type inst /\ format d = format inst /\
  match format inst with
  | FORMAT_R =>
      rd d = rd inst /\ rs1 d = rs1 inst /\ rs2 d = rs2 inst /\
      imm d = 0 /\ address d = 0
  | FORMAT_M =>
      rd d = rd inst /\ rs1 d = rs1 inst /\ rs2 d = rs2 inst /\
      imm d = 0 /\ address d = address inst
  | FORMAT_I | FORMAT_J =>
      rd d = rd inst /\ rs1 d = 0 /\ rs2 d = 0 /\
      imm d = imm inst /\ address d = 0
  | FORMAT_S =>
      rd d = 0 /\ rs1 d = 0 /\ rs2 d = 0 /\ imm d = 0 /\ address d = 0
  end.
Proof.
  destruct inst as [ty fmt opc rd0 rs10 rs20 imm0 addr0]. cbn [type format rd rs1 rs2 imm address].
  intros Hfmt Hrd Hrs1 Hrs2 Himm Haddr Hp Hlen.
  destruct (lookup_type_total ty) as (e & He & Hety & Heop & Hback).
  assert (Hef : e_format e = fmt).
  { unfold table_format in Hfmt. rewrite He in Hfmt. simpl in Hfmt. congruence. }
  pose proof (pack_unpack rd0 rs10 Hrd Hrs1) as [Hhi Hlo].
  pose proof (high_nibble rd0 Hrd) as Hrd'.
  pose proof (high_nibble rs20 Hrs2) as Hrs2'.
  destruct (table_format_cases _ _ Hfmt) as [-> | [-> | [-> | ->]]];
    unfold encode_instruction, decode_instruction, format_eqb;
    cbn [type format rd rs1 rs2 imm address fst snd format_size];
    rewrite He; cbn [format_size] in Hlen;
    rewrite ?bool_decide_eq_true_2 by reflexivity;
    rewrite ?bool_decide_eq_false_2 by discriminate;
    cbn [fst snd orb];
    rewrite !Z.add_0_r; zget_simpl; rewrite Hback, Hef, Hety;
    rewrite ?bool_decide_eq_true_2 by reflexivity;
    rewrite ?bool_decide_eq_false_2 by discriminate;
    cbn [orb type format rd rs1 rs2 imm address];
    zget_simpl;
    rewrite ?read_write_u64 by (rewrite ?length_zset; lia);
    repeat split; auto.
Qed.

(** The claim as stated fails for the source registers of a jump: the jump
    format has no byte for them. *)
Lemma roundtrip_loses_jump_source :
  table_format (type jump_with_source) = Some (format jump_with_source) /\
  0 <= rd jump_with_source < 16 /\ 0 <= rs1 jump_with_source < 16 /\
  0 <= rs2 jump_with_source < 16 /\
  rs1 (decode_instruction
         (snd (encode_instruction jump_with_source (replicate 16 0) 0)) 0)
    <> rs1 jump_with_source.
Proof. vm_compute. repeat split; discriminate. Qed.

Lemma encode_decode_roundtrip_witness :
  let inst := mkInst INST_LD FORMAT_M 0x0B 3 4 5 0 0x1234 in
  let d := decode_instruction (snd (encode_instruction inst (replicate 16 0) 2)) 2 in
  fst (encode_instruction inst (replicate 16 0) 2) = 11 /\
  type d = INST_LD /\ format d = FORMAT_M /\
  rd d = 3 /\ rs1 d = 4 /\ rs2 d = 5 /\ imm d = 0 /\ address d = 0x1234.
Proof.
  apply (encode_decode_roundtrip (mkInst INST_LD FORMAT_M 0x0B 3 4 5 0 0x1234)
           (replicate 16 0) 2); simpl; try reflexivity; lia.
Defined.

End Codec.

(** ** The cache *)

Section CacheFacts.
Import CacheModel.

Lemma find_from_Some (p : Z -> bool) (n : nat) (i k : Z) :
  find_from p i n = Some k ->
  i <= k < i + Z.of_nat n /\ p k = true /\ forall j, i <= j < k -> p j = false.
Proof.
  revert i. induction n as [| n IH]; intros i H; simpl in H; [discriminate |].
  destruct (p i) eqn:Hp.
  - injection H as <-. repeat split; try lia. exact Hp.
  - apply IH in H as (Hr & Hk & Hbefore). repeat split; try lia; [exact Hk |].
    intros j Hj. destruct (Z.eq_dec j i) as [-> | Hne]; [exact Hp |].
    apply Hbefore. lia.
Qed.

Lemma find_from_None (p : Z -> bool) (n : nat) (i : Z) :
  find_from p i n = None -> forall j, i <= j < i + Z.of_nat n -> p j = false.
Proof.
  revert i. induction n as [| n IH]; intros i H j Hj; simpl in H; [lia |].
  destruct (p i) eqn:Hp; [discriminate |].
  destruct (Z.eq_dec j i) as [-> | Hne]; [exact Hp |].
  apply (IH (i + 1) H). lia.
Qed.

Lemma find_from_found (p : Z -> bool) (n : nat) (i k : Z) :
  i <= k < i + Z.of_nat n -> p k = true -> is_Some (find_from p i n).
Proof.
  intros Hk Hp. destruct (find_from p i n) eqn:Hf; [eauto |].
  rewrite (find_from_None _ _ _ Hf k Hk) in Hp. discriminate.
Qed.

Lemma find_from_ext (p q : Z -> bool) (n : nat) (i : Z) :
  (forall j, i <= j < i + Z.of_nat n -> p j = q j) ->
  find_from p i n = find_from q i n.
Proof.
  revert i. induction n as [| n IH]; intros i H; simpl; [reflexivity |].
  rewrite (H i) by lia. destruct (q i); [reflexivity |].
  apply IH. intros j Hj. apply H. lia.
Qed.

(** Reading [m[s'][w']] after [m[s][w] = x]. *)
Lemma bget_alter_eq (m : list (list bool)) (sets ways s w : Z) (x : bool) :
  rows_ok m sets ways -> 0 <= s < sets -> 0 <= w < ways ->
  bget (default [] (alter (fun row => bset row w x) (Z.to_nat s) m !! Z.to_nat s)) w = x.
Proof.
  intros [Hlen Hrows] Hs Hw. rewrite list_lookup_alter_eq.
  destruct (lookup_lt_is_Some_2 m (Z.to_nat s)) as [row Hrow]; [lia |].
  rewrite Hrow. simpl. apply bget_bset_eq.
  rewrite (Forall_lookup_1 _ _ _ _ Hrows Hrow). lia.
Qed.

Lemma bget_alter_ne (m : list (list bool)) (s w s' w' : Z) (x : bool) :
  0 <= s -> 0 <= w -> 0 <= s' -> 0 <= w' -> (s', w') <> (s, w) ->
  bget (default [] (alter (fun row => bset row w x) (Z.to_nat s) m !! Z.to_nat s')) w'
  = bget (default [] (m !! Z.to_nat s')) w'.
Proof.
  intros Hs Hw Hs' Hw' Hne. destruct (Z.eq_dec s' s) as [-> | Hss].
  - rewrite list_lookup_alter_eq. destruct (m !! Z.to_nat s) as [row |]; simpl.
    + apply bget_bset_ne; try lia. congruence.
    + reflexivity.
  - rewrite list_lookup_alter_ne by lia. reflexivity.
Qed.

Lemma zget_alter_eq (m : list (list Z)) (sets ways s w x : Z) :
  rows_ok m sets ways -> 0 <= s < sets -> 0 <= w < ways ->
  zget (default [] (alter (fun row => zset row w x) (Z.to_nat s) m !! Z.to_nat s)) w = x.
Proof.
  intros [Hlen Hrows] Hs Hw. rewrite list_lookup_alter_eq.
  destruct (lookup_lt_is_Some_2 m (Z.to_nat s)) as [row Hrow]; [lia |].
  rewrite Hrow. simpl. apply zget_zset_eq.
  rewrite (Forall_lookup_1 _ _ _ _ Hrows Hrow). lia.
Qed.

Lemma zget_alter_ne (m : list (list Z)) (s w s' w' x : Z) :
  0 <= s -> 0 <= w -> 0 <= s' -> 0 <= w' -> (s', w') <> (s, w) ->
  zget (default [] (alter (fun row => zset row w x) (Z.to_nat s) m !! Z.to_nat s')) w'
  = zget (default [] (m !! Z.to_nat s')) w'.
Proof.
  intros Hs Hw Hs' Hw' Hne. destruct (Z.eq_dec s' s) as [-> | Hss].
  - rewrite list_lookup_alter_eq. destruct (m !! Z.to_nat s) as [row |]; simpl.
    + apply zget_zset_ne; try lia. congruence.
    + reflexivity.
  - rewrite list_lookup_alter_ne by lia. reflexivity.
Qed.

Lemma rows_ok_alter {A : Type} (m : list (list A)) (sets ways : Z)
      (f : list A -> list A) (i : nat) :
  (forall row, length (f row) = length row) ->
  rows_ok m sets ways -> rows_ok (alter f i m) sets ways.
Proof.
  intros Hf [Hlen Hrows]. split.
  - rewrite length_alter. exact Hlen.
  - apply Forall_alter; [exact Hrows |]. intros row _ Hrow. rewrite Hf. exact Hrow.
Qed.

Lemma set_of_range (c : Cache) (addr : Z) :
  cache_wf c -> 0 <= set_of c addr < num_sets c.
Proof.
  intros (Hl & Ha & Hn & _). unfold set_of. apply Z.mod_pos_bound. exact Hn.
Qed.

(** The victim loop: the first invalid way when there is one, otherwise a
    way of least timestamp among those scanned, or the initial victim when
    no timestamp is below the initial minimum. *)
Lemma lru_scan_spec (c : Cache) (s : Z) (n : nat) (i min_lru victim : Z) :
  match find_from (fun w => negb (way_valid c s w)) i n with
  | Some k => lru_scan c s i n min_lru victim = k
  | None =>
      let v := lru_scan c s i n min_lru victim in
      (v = victim /\ forall j, i <= j < i + Z.of_nat n -> min_lru <= way_lru c s j)
      \/ (i <= v < i + Z.of_nat n /\ way_lru c s v < min_lru /\
          forall j, i <= j < i + Z.of_nat n -> way_lru c s v <= way_lru c s j)
  end.
Proof.
  revert i min_lru victim. induction n as [| n IH]; intros i min_lru victim; simpl.
  - left. split; [reflexivity | intros; lia].
  - destruct (negb (way_valid c s i)) eqn:Hinv; [reflexivity |].
    destruct (Z.ltb_spec (way_lru c s i) min_lru) as [Hlt | Hge].
    + specialize (IH (i + 1) (way_lru c s i) i).
      destruct (find_from _ (i + 1) n); [exact IH |].
      cbv zeta in IH |- *. destruct IH as [[Hv Hall] | (Hr & Hlt' & Hall)].
      * right. rewrite Hv. repeat split; try lia.
        intros j Hj. destruct (Z.eq_dec j i) as [-> | Hne]; [lia |].
        apply Hall. lia.
      * right. repeat split; try lia.
        intros j Hj. destruct (Z.eq_dec j i) as [-> | Hne]; [lia |].
        apply Hall. lia.
    + specialize (IH (i + 1) min_lru victim).
      destruct (find_from _ (i + 1) n); [exact IH |].
      cbv zeta in IH |- *. destruct IH as [[Hv Hall] | (Hr & Hlt' & Hall)].
      * left. split; [exact Hv |].
        intros j Hj. destruct (Z.eq_dec j i) as [-> | Hne]; [lia |].
        apply Hall. lia.
      * right. repeat split; try lia.
        intros j Hj. destruct (Z.eq_dec j i) as [-> | Hne]; [lia |].
        apply Hall. lia.
Qed.

Lemma way_lru_range (c : Cache) (s w : Z) :
  cache_wf c -> 0 <= way_lru c s w < 2 ^ 64.
Proof.
  intros (_ & _ & _ & _ & _ & Hlru & _). unfold way_lru, zget.
  destruct (lru_counters c !! _) as [x |] eqn:Hx; simpl; [| lia].
  exact (Forall_lookup_1 _ _ _ _ Hlru Hx).
Qed.

(** The victim is a way of the set. *)
Lemma choose_victim_range (c : Cache) (s : Z) :
  cache_wf c -> 0 <= choose_victim c s < associativity c.
Proof.
  intros Hwf. pose proof Hwf as (_ & Ha & _). unfold choose_victim.
  destruct (is_set_assoc (type c)); [| lia].
  pose proof (lru_scan_spec c s (Z.to_nat (associativity c)) 0 UINT64_MAX 0) as H.
  destruct (find_from _ 0 _) eqn:Hf.
  - rewrite H. apply find_from_Some in Hf. lia.
  - cbv zeta in H. destruct H as [[-> _] | (Hr & _)]; lia.
Qed.


Lemma cache_access_config (c : Cache) (addr : Z) (w : bool) :
  let c' := snd (cache_access c addr w) in
  type c' = type c /\ size c' = size c /\ line_size c' = line_size c /\
  associativity c' = associativity c /\ num_sets c' = num_sets c /\
  miss_penalty c' = miss_penalty c /\ hit_time c' = hit_time c.
Proof.
  unfold cache_access. destruct (find_hit c _ _); simpl; repeat split; reflexivity.
Qed.

Lemma set_of_access (c : Cache) (addr b : Z) (w : bool) :
  set_of (snd (cache_access c addr w)) b = set_of c b.
Proof.
  unfold set_of, line_of.
  destruct (cache_access_config c addr w) as (_ & _ & -> & _ & -> & _). reflexivity.
Qed.

Lemma tag_of_access (c : Cache) (addr b : Z) (w : bool) :
  tag_of (snd (cache_access c addr w)) b = tag_of c b.
Proof.
  unfold tag_of, line_of.
  destruct (cache_access_config c addr w) as (_ & _ & -> & _ & -> & _). reflexivity.
Qed.

Lemma lru_update_ok (b : bool) (l : list Z) (i x n : Z) (P : Prop) :
  Forall (fun x => 0 <= x < 2 ^ 64) l -> (P -> length l = Z.to_nat n) ->
  Forall (fun x => 0 <= x < 2 ^ 64) (if b then zset l i (wrap64 x) else l) /\
  (P -> length (if b then zset l i (wrap64 x) else l) = Z.to_nat n).
Proof.
  intros Hl Hlen. destruct b; [| auto]. split.
  - apply Forall_insert; [assumption | apply wrap64_range].
  - rewrite length_zset. exact Hlen.
Qed.

(** [cache_access] keeps the cache well formed. *)
Lemma cache_access_wf (c : Cache) (addr : Z) (w : bool) :
  cache_wf c -> cache_wf (snd (cache_access c addr w)).
Proof.
  intros (Hl & Ha & Hn & Ht & Hv & Hlru & Hlen).
  unfold cache_access. destruct (find_hit c _ _); unfold cache_wf; simpl.
  - refine (conj Hl (conj Ha (conj Hn (conj Ht (conj Hv _))))).
    apply lru_update_ok; assumption.
  - refine (conj Hl (conj Ha (conj Hn (conj _ (conj _ _))))).
    + apply rows_ok_alter; [intros; apply length_zset | assumption].
    + apply rows_ok_alter; [intros; apply length_bset | assumption].
    + apply lru_update_ok; assumption.
Qed.

(** [cache_create] on a geometry [size = sets * associativity * line_size]
    with positive factors builds a well-formed cache of [sets] sets. *)
Lemma cache_create_wf (ty : CacheType) (sets assoc lsz : Z) :
  0 < sets -> 0 < assoc -> 0 < lsz ->
  exists c, cache_create ty (sets * assoc * lsz) lsz assoc = Some c /\
            cache_wf c /\ num_sets c = sets /\ associativity c = assoc /\
            line_size c = lsz /\ size c = num_sets c * associativity c * line_size c.
Proof.
  intros Hs Ha Hl. eexists. split; [reflexivity |].
  assert (Hq : Z.quot (Z.quot (sets * assoc * lsz) lsz) assoc = sets).
  { rewrite Z.quot_mul by lia. rewrite Z.quot_mul by lia. reflexivity. }
  unfold cache_wf, rows_ok. simpl. rewrite Hq.
  repeat split; try lia; rewrite ?length_replicate; try reflexivity.
  - apply Forall_replicate. apply length_replicate.
  - apply Forall_replicate. apply length_replicate.
  - destruct (is_set_assoc ty); [apply Forall_replicate; lia | constructor].
  - intros ->. simpl. apply length_replicate.
Qed.

(** The state of the ways after a miss: the victim way holds the new tag
    and is valid, every other way is as before. *)
Lemma miss_installs (c : Cache) (addr : Z) (w : bool) :
  cache_wf c ->
  find_hit c (set_of c addr) (tag_of c addr) = None ->
  let s := set_of c addr in
  let v := choose_victim c s in
  let c' := snd (cache_access c addr w) in
  way_valid c' s v = true /\ way_tag c' s v = tag_of c addr /\
  forall s' w', 0 <= s' -> 0 <= w' -> (s', w') <> (s, v) ->
    way_valid c' s' w' = way_valid c s' w' /\ way_tag c' s' w' = way_tag c s' w'.
Proof.
  intros Hwf Hmiss s v c'.
  pose proof (set_of_range c addr Hwf) as Hs.
  pose proof (choose_victim_range c s Hwf) as Hv.
  destruct Hwf as (Hl & Ha & Hn & Ht & Hvd & _).
  subst c'. unfold cache_access. rewrite Hmiss. fold s. fold v.
  unfold way_valid, way_tag. simpl. repeat split.
  - eapply bget_alter_eq; eauto.
  - eapply zget_alter_eq; eauto.
  - apply bget_alter_ne; try lia; assumption.
  - apply zget_alter_ne; try lia; assumption.
Qed.

(** A hit leaves tags and valid bits alone. *)
Lemma hit_keeps_ways (c : Cache) (addr : Z) (w : bool) (i : Z) :
  find_hit c (set_of c addr) (tag_of c addr) = Some i ->
  tags (snd (cache_access c addr w)) = tags c /\
  valid (snd (cache_access c addr w)) = valid c /\
  misses (snd (cache_access c addr w)) = misses c.
Proof. intros H. unfold cache_access. rewrite H. simpl. auto. Qed.

(** C4 (amended).  On a miss the victim way is: for a set-associative cache
    the first invalid way of the set if there is one, otherwise a way with
    the least LRU timestamp; for a direct-mapped or fully-associative cache
    always way 0.  The new tag is installed there with the valid bit set,
    the miss counter goes up by one and the call returns the miss penalty. *)
Theorem miss_victim_and_install (c : Cache) (addr : Z) (w : bool) :
  cache_wf c -> 0 <= addr < 2 ^ 64 ->
  find_hit c (set_of c addr) (tag_of c addr) = None ->
  let s := set_of c addr in
  let v := choose_victim c s in
  let c' := snd (cache_access c addr w) in
  (type c <> CACHE_SET_ASSOC -> v = 0) /\
  (type c = CACHE_SET_ASSOC ->
   match first_invalid c s with
   | Some k =>
       v = k /\ way_valid c s k = false /\
       forall j, 0 <= j < k -> way_valid c s j = true
   | None =>
       0 <= v < associativity c /\
       forall j, 0 <= j < associativity c -> way_lru c s v <= way_lru c s j
   end) /\
  way_valid c' s v = true /\ way_tag c' s v = tag_of c addr /\
  misses c' = wrap64 (misses c + 1) /\
  fst (cache_access c addr w) = miss_penalty c.
Proof.
  intros Hwf Haddr Hmiss s v c'.
  destruct (miss_installs c addr w Hwf Hmiss) as (Hvalid & Htag & _).
  pose proof (choose_victim_range c s Hwf) as Hv.
  split; [| split; [| repeat split; try assumption]].
  - intros Hty. subst v. unfold choose_victim, is_set_assoc.
    rewrite bool_decide_eq_false_2 by exact Hty. reflexivity.
  - intros Hty. subst v. unfold choose_victim, is_set_assoc, first_invalid.
    rewrite bool_decide_eq_true_2 by exact Hty.
    pose proof (lru_scan_spec c s (Z.to_nat (associativity c)) 0 UINT64_MAX 0) as H.
    destruct (find_from _ 0 _) eqn:Hf.
    + apply find_from_Some in Hf as (_ & Hk & Hbefore).
      split; [exact H |]. split.
      * apply negb_true_iff. exact Hk.
      * intros j Hj. apply negb_false_iff. apply Hbefore. lia.
    + cbv zeta in H. fold (choose_victim c s) in Hv.
      unfold choose_victim, is_set_assoc in Hv.
      rewrite bool_decide_eq_true_2 in Hv by exact Hty.
      split; [exact Hv |]. intros j Hj.
      destruct H as [[Hv0 Hall] | (_ & _ & Hall)].
      * pose proof (way_lru_range c s (lru_scan c s 0 (Z.to_nat (associativity c)) UINT64_MAX 0) Hwf).
        specialize (Hall j). unfold UINT64_MAX in Hall. lia.
      * apply Hall. lia.
  - subst c'. unfold cache_access. rewrite Hmiss. reflexivity.
  - unfold cache_access. rewrite Hmiss. reflexivity.
Qed.


Example two_way_created (ty : CacheType) :
  cache_create ty 128 64 2 = Some (two_way ty).
Proof. destruct ty; reflexivity. Qed.

Lemma two_way_wf (ty : CacheType) : cache_wf (two_way ty).
Proof.
  destruct (cache_create_wf ty 1 2 64) as (c & Hc & Hwf & _); try lia.
  change (1 * 2 * 64) with 128 in Hc. rewrite two_way_created in Hc.
  injection Hc as <-. exact Hwf.
Qed.

(** The claim as stated fails for a fully-associative cache: with way 0
    valid and way 1 invalid, a miss replaces way 0 and leaves way 1 invalid. *)
Lemma full_assoc_victim_is_way_0 :
  let c1 := snd (cache_access (two_way CACHE_FULL_ASSOC) 0 false) in
  find_hit c1 (set_of c1 64) (tag_of c1 64) = None /\
  first_invalid c1 (set_of c1 64) = Some 1 /\
  choose_victim c1 (set_of c1 64) = 0 /\
  way_valid (snd (cache_access c1 64 false)) (set_of c1 64) 1 = false.
Proof. vm_compute. auto. Qed.

Lemma miss_victim_and_install_witness :
  let c := access_all (two_way CACHE_SET_ASSOC) [(64, false); (0, true)] in
  find_hit c (set_of c 128) (tag_of c 128) = None /\
  way_valid (snd (cache_access c 128 false)) 0 (choose_victim c 0) = true /\
  way_tag (snd (cache_access c 128 false)) 0 (choose_victim c 0) = 2 /\
  misses (snd (cache_access c 128 false)) = 3.
Proof.
  intros c.
  assert (Hwf : cache_wf c) by apply cache_access_wf, cache_access_wf, two_way_wf.
  assert (Hmiss : find_hit c (set_of c 128) (tag_of c 128) = None) by reflexivity.
  destruct (miss_victim_and_install c 128 false Hwf ltac:(lia) Hmiss)
    as (_ & _ & Hvalid & Htag & Hcount & _).
  exact (conj Hmiss (conj Hvalid (conj Htag Hcount))).
Defined.

End CacheFacts.

Section CacheRuns.
Import CacheModel.

(** The hit search reads the tags, the valid bits and the associativity. *)
Lemma find_hit_ext (c1 c2 : Cache) (s t : Z) :
  tags c1 = tags c2 -> valid c1 = valid c2 ->
  associativity c1 = associativity c2 -> find_hit c1 s t = find_hit c2 s t.
Proof.
  intros Ht Hv Ha. unfold find_hit, way_valid, way_tag.
  rewrite Ht, Hv, Ha. reflexivity.
Qed.

(** After an access the accessed line is in the cache. *)
Lemma access_makes_resident (c : Cache) (a : Z) (w : bool) :
  cache_wf c ->
  is_Some (find_hit (snd (cache_access c a w)) (set_of c a) (tag_of c a)).
Proof.
  intros Hwf. destruct (find_hit c (set_of c a) (tag_of c a)) as [i |] eqn:Hf.
  - destruct (hit_keeps_ways c a w i Hf) as (Ht & Hv & _).
    rewrite (find_hit_ext _ c) by
      (try assumption; apply (cache_access_config c a w)).
    rewrite Hf. eauto.
  - destruct (miss_installs c a w Hwf Hf) as (Hvalid & Htag & _).
    pose proof (choose_victim_range c (set_of c a) Hwf) as Hv.
    unfold find_hit.
    apply (find_from_found _ _ 0 (choose_victim c (set_of c a))).
    + destruct (cache_access_config c a w) as (_ & _ & _ & -> & _). lia.
    + cbv beta. rewrite Hvalid, Htag, Z.eqb_refl. reflexivity.
Qed.

(** An access that does not evict keeps every resident line. *)
Lemma non_evicting_keeps (c : Cache) (a : Z) (w : bool) (s t : Z) :
  cache_wf c -> evicts c a = false -> 0 <= s ->
  is_Some (find_hit c s t) ->
  is_Some (find_hit (snd (cache_access c a w)) s t).
Proof.
  intros Hwf Hev Hs [k Hk]. unfold evicts in Hev.
  destruct (find_hit c (set_of c a) (tag_of c a)) as [i |] eqn:Hf.
  - destruct (hit_keeps_ways c a w i Hf) as (Ht & Hv & _).
    rewrite (find_hit_ext _ c) by
      (try assumption; apply (cache_access_config c a w)).
    rewrite Hk. eauto.
  - destruct (miss_installs c a w Hwf Hf) as (_ & _ & Hother).
    pose proof (set_of_range c a Hwf) as Hsa.
    pose proof (choose_victim_range c (set_of c a) Hwf) as Hv.
    apply find_from_Some in Hk as (Hkr & Hpk & _).
    apply andb_true_iff in Hpk as [Hkv Hkt].
    assert (Hne : (s, k) <> (set_of c a, choose_victim c (set_of c a))).
    { intros [= -> ->]. rewrite Hev in Hkv. discriminate. }
    destruct (Hother s k Hs ltac:(lia) Hne) as [Hv' Ht'].
    unfold find_hit. apply (find_from_found _ _ 0 k).
    + destruct (cache_access_config c a w) as (_ & _ & _ & -> & _). lia.
    + cbv beta. rewrite Hv', Ht', Hkv, Hkt. reflexivity.
Qed.

Lemma access_all_wf (reqs : list (Z * bool)) (c : Cache) :
  cache_wf c -> cache_wf (access_all c reqs).
Proof.
  revert c. induction reqs as [| r reqs IH]; intros c Hwf; simpl; [exact Hwf |].
  apply IH, cache_access_wf, Hwf.
Qed.

Lemma access_all_config (reqs : list (Z * bool)) (c : Cache) :
  associativity (access_all c reqs) = associativity c /\
  num_sets (access_all c reqs) = num_sets c /\
  line_size (access_all c reqs) = line_size c.
Proof.
  revert c. induction reqs as [| r reqs IH]; intros c; simpl; [auto |].
  destruct (IH (snd (cache_access c (fst r) (snd r)))) as (-> & -> & ->).
  destruct (cache_access_config c (fst r) (snd r)) as (_ & _ & -> & -> & -> & _).
  auto.
Qed.

(** Over a run without evictions, the lines resident at the start and the
    lines accessed are all resident at the end. *)
Lemma no_eviction_all_resident (reqs : list (Z * bool)) (c : Cache) (b : Z) :
  cache_wf c -> count_evictions c reqs = O ->
  is_Some (find_hit c (set_of c b) (tag_of c b)) \/ b ∈ map fst reqs ->
  is_Some (find_hit (access_all c reqs) (set_of c b) (tag_of c b)).
Proof.
  revert c. induction reqs as [| [a w] reqs IH]; intros c Hwf Hcount Hb; simpl in *.
  - destruct Hb as [Hb | Hb]; [exact Hb | inversion Hb].
  - destruct (evicts c a) eqn:Hev; [discriminate |]. simpl in Hcount.
    rewrite <- (set_of_access c a b w), <- (tag_of_access c a b w).
    apply IH; [apply cache_access_wf, Hwf | exact Hcount |].
    rewrite set_of_access, tag_of_access.
    destruct Hb as [Hb | Hb].
    + left. apply non_evicting_keeps; try assumption.
      apply (set_of_range c b Hwf).
    + apply elem_of_cons in Hb as [-> | Hb]; [| right; exact Hb].
      left. apply access_makes_resident, Hwf.
Qed.

(** A set holds at most [associativity] different tags. *)
Lemma residents_bounded (c : Cache) (s : Z) (ts : list Z) :
  cache_wf c -> 0 <= s < num_sets c -> NoDup ts ->
  (forall t, t ∈ ts -> is_Some (find_hit c s t)) ->
  (length ts <= Z.to_nat (associativity c))%nat.
Proof.
  intros (_ & _ & _ & [Hlen Hrows] & _) Hs Hnd Hall.
  destruct (lookup_lt_is_Some_2 (tags c) (Z.to_nat s)) as [row Hrow]; [lia |].
  rewrite <- (Forall_lookup_1 _ _ _ _ Hrows Hrow).
  apply submseteq_length, NoDup_submseteq; [exact Hnd |].
  intros t Ht. destruct (Hall t Ht) as [k Hk].
  apply find_from_Some in Hk as (Hkr & Hpk & _).
  apply andb_true_iff in Hpk as [_ Hkt]. apply Z.eqb_eq in Hkt.
  unfold way_tag, zget in Hkt. rewrite Hrow in Hkt. simpl in Hkt.
  destruct (row !! Z.to_nat k) as [x |] eqn:Hx.
  - simpl in Hkt. subst x. eapply list_elem_of_lookup_2, Hx.
  - apply lookup_ge_None in Hx.
    pose proof (Forall_lookup_1 _ _ _ _ Hrows Hrow) as Hl. simpl in Hl. lia.
Qed.

(** Distinct lines of one set have distinct tags. *)
Lemma distinct_lines_distinct_tags (c : Cache) (s : Z) (addrs : list Z) :
  0 < num_sets c ->
  (forall a, a ∈ addrs -> set_of c a = s) ->
  NoDup (map (line_of c) addrs) -> NoDup (map (tag_of c) addrs).
Proof.
  intros Hn. induction addrs as [| a addrs IH]; intros Hset Hnd; simpl in *.
  - constructor.
  - apply NoDup_cons in Hnd as [Hnotin Hnd]. apply NoDup_cons. split.
    + intros Hin. apply Hnotin.
      apply list_elem_of_fmap in Hin as (y & Heq & Hy).
      apply list_elem_of_fmap. exists y. split; [| exact Hy].
      assert (Hsa : set_of c a = set_of c y).
      { rewrite (Hset a), (Hset y); [reflexivity | right; exact Hy | left]. }
      unfold tag_of, set_of in *.
      rewrite (Z.div_mod (line_of c a) (num_sets c)) by lia.
      rewrite (Z.div_mod (line_of c y) (num_sets c)) by lia.
      rewrite Heq, Hsa. reflexivity.
    + apply IH; [| exact Hnd]. intros b Hb. apply Hset. right. exact Hb.
Qed.

(** Repeated accesses to a resident line are hits. *)
Lemma resident_stays_hit (reqs : list (Z * bool)) (c : Cache) (a : Z) :
  Forall (fun r => fst r = a) reqs ->
  is_Some (find_hit c (set_of c a) (tag_of c a)) ->
  misses (access_all c reqs) = misses c.
Proof.
  revert c. induction reqs as [| [a' w] reqs IH]; intros c Hall [i Hi]; simpl;
    [reflexivity |].
  apply Forall_cons in Hall as [Ha Hall]. simpl in Ha. subst a'.
  destruct (hit_keeps_ways c a w i Hi) as (Ht & Hv & Hm).
  rewrite IH; [exact Hm | exact Hall |].
  rewrite set_of_access, tag_of_access.
  rewrite (find_hit_ext _ c) by (try assumption; apply (cache_access_config c a w)).
  rewrite Hi. eauto.
Qed.

(** C5 (amended).  For a well-formed cache whose configuration satisfies
    [size = num_sets * associativity * line_size]: after one access to an
    address [A], any further run of accesses that all use [A] leaves the miss
    counter unchanged; and a run of [associativity + 1] accesses to addresses
    of the same set that lie on pairwise distinct lines contains at least
    one eviction of a valid line. *)
Theorem cache_round_trip (c : Cache) :
  cache_wf c -> size c = num_sets c * associativity c * line_size c ->
  (forall (A : Z) (w : bool) (reqs : list (Z * bool)),
      0 <= A < 2 ^ 64 -> Forall (fun r => fst r = A) reqs ->
      misses (access_all (snd (cache_access c A w)) reqs)
      = misses (snd (cache_access c A w))) /\
  (forall (reqs : list (Z * bool)) (s : Z),
      Z.of_nat (length reqs) = associativity c + 1 ->
      (forall a, a ∈ map fst reqs -> 0 <= a < 2 ^ 64 /\ set_of c a = s) ->
      NoDup (map (line_of c) (map fst reqs)) ->
      (1 <= count_evictions c reqs)%nat).
Proof.
  intros Hwf Hsize. split.
  - intros A w reqs HA Hall. apply (resident_stays_hit reqs _ A Hall).
    rewrite set_of_access, tag_of_access. apply access_makes_resident, Hwf.
  - intros reqs s Hlen Hset Hnd.
    destruct (count_evictions c reqs) as [| n] eqn:Hcount; [exfalso | lia].
    pose proof Hwf as (_ & Hassoc & Hn & _).
    assert (Hs : 0 <= s < num_sets c).
    { destruct reqs as [| [a w] reqs]; [simpl in Hlen; lia |].
      destruct (Hset a ltac:(left)) as [_ <-]. apply set_of_range, Hwf. }
    pose proof (access_all_wf reqs c Hwf) as Hwf'.
    destruct (access_all_config reqs c) as (Ha' & Hn' & _).
    assert (Hbound := residents_bounded (access_all c reqs) s
                        (map (tag_of c) (map fst reqs)) Hwf').
    rewrite Hn', Ha', !length_map in Hbound.
    enough (length reqs <= Z.to_nat (associativity c))%nat by lia.
    apply Hbound; [exact Hs | |].
    + apply (distinct_lines_distinct_tags c s); [exact Hn | | exact Hnd].
      intros a Ha. apply Hset, Ha.
    + intros t Ht. apply list_elem_of_fmap in Ht as (a & -> & Ha).
      destruct (Hset a Ha) as [_ <-].
      apply no_eviction_all_resident; [exact Hwf | exact Hcount | right; exact Ha].
Qed.


(** The claim as stated fails for distinct addresses of one line: they map
    to the same set, and after the first access they only hit. *)
Lemma same_line_addresses_do_not_evict :
  let c := two_way CACHE_SET_ASSOC in
  let reqs := [(0, false); (1, false); (2, false)] in
  size c = num_sets c * associativity c * line_size c /\
  Z.of_nat (length reqs) = associativity c + 1 /\
  NoDup (map fst reqs) /\
  map (set_of c) (map fst reqs) = [0; 0; 0] /\
  count_evictions c reqs = O /\
  misses (access_all c reqs) = 1.
Proof.
  repeat split.
  apply (bool_decide_unpack _). vm_compute. exact I.
Qed.

Lemma cache_round_trip_witness :
  let c := two_way CACHE_SET_ASSOC in
  misses (access_all (snd (cache_access c 64 false)) [(64, true); (64, false)])
  = misses (snd (cache_access c 64 false)) /\
  (1 <= count_evictions c [(0%Z, false); (64%Z, false); (128%Z, true)])%nat.
Proof.
  intros c.
  destruct (cache_round_trip c (two_way_wf CACHE_SET_ASSOC) eq_refl) as [Hsame Hevict].
  split.
  - apply Hsame; [lia |]. repeat constructor.
  - apply (Hevict _ 0); [reflexivity | |].
    + intros a Ha. simpl in Ha.
      repeat (apply elem_of_cons in Ha as [-> | Ha]; [split; [lia | reflexivity] |]).
      inversion Ha.
    + apply (bool_decide_unpack _). vm_compute. exact I.
Defined.

Lemma cache_create_some_sets_wf (ty : CacheType) (sz lsz assoc : Z) :
  0 < lsz -> 0 < assoc -> lsz * assoc <= sz ->
  exists c, cache_create ty sz lsz assoc = Some c /\ cache_wf c.
Proof.
  intros Hl Ha Hsz. eexists. split; [reflexivity |].
  assert (Hsets : 0 < Z.quot (Z.quot sz lsz) assoc).
  { rewrite (Z.quot_div_nonneg sz lsz) by lia.
    rewrite Z.quot_div_nonneg by (try apply Z.div_pos; lia).
    apply Z.div_str_pos. split; [lia |].
    apply Z.div_le_lower_bound; lia. }
  unfold cache_wf, rows_ok. simpl.
  repeat split; try lia; rewrite ?length_replicate; try reflexivity.
  - apply Forall_replicate. apply length_replicate.
  - apply Forall_replicate. apply length_replicate.
  - destruct (is_set_assoc ty); [apply Forall_replicate; lia | constructor].
  - intros ->. simpl. apply length_replicate.
Qed.

(** C9 (amended).  [cache_create] does not validate the geometry: for every
    type, every non-negative size and every positive line size and
    associativity it returns a cache (allocation succeeding) whose number of
    sets is [(size / line_size) / associativity] rounded down, whether or
    not the size is a multiple of [line_size * associativity].  When the
    size is at least [line_size * associativity] the cache has a set, is
    well formed, and every access runs on it.  When the size is smaller the
    cache has no set, and every access on it divides by zero. *)
Theorem cache_create_accepts_any_geometry (ty : CacheType) (sz lsz assoc : Z) :
  0 <= sz -> 0 < lsz -> 0 < assoc ->
  exists c, cache_create ty sz lsz assoc = Some c /\
            type c = ty /\ size c = sz /\ line_size c = lsz /\
            associativity c = assoc /\ num_sets c = (sz / lsz) / assoc /\
            hits c = 0 /\ misses c = 0 /\ accesses c = 0 /\
            (lsz * assoc <= sz ->
             cache_wf c /\
             forall addr w,
               cache_access_checked c addr w = Some (cache_access c addr w)) /\
            (sz < lsz * assoc ->
             num_sets c = 0 /\
             forall addr w, cache_access_checked c addr w = None).
Proof.
  intros Hsz Hl Ha.
  assert (Hsets : Z.quot (Z.quot sz lsz) assoc = sz / lsz / assoc).
  { rewrite (Z.quot_div_nonneg sz lsz) by lia.
    apply Z.quot_div_nonneg; [apply Z.div_pos; lia | lia]. }
  eexists. split; [reflexivity |].
  cbn [type size line_size associativity num_sets hits misses accesses].
  do 8 (split; [first [reflexivity | exact Hsets] |]).
  unfold cache_access_checked, divisors_nonzero. cbn [line_size num_sets].
  rewrite (proj2 (Z.eqb_neq lsz 0)) by lia. cbn [negb andb].
  split.
  - intros Hfit.
    destruct (cache_create_some_sets_wf ty sz lsz assoc Hl Ha Hfit)
      as (c & Hc & Hwf).
    injection Hc as <-. split; [exact Hwf |]. intros addr w.
    destruct Hwf as (_ & _ & Hn & _). cbn [num_sets] in Hn.
    rewrite (proj2 (Z.eqb_neq _ 0)) by lia. reflexivity.
  - intros Hsmall.
    assert (Hzero : sz / lsz / assoc = 0).
    { apply Z.div_small. split; [apply Z.div_pos; lia |].
      apply Z.div_lt_upper_bound; lia. }
    rewrite Hsets, Hzero. split; [reflexivity |]. intros addr w. reflexivity.
Qed.

(** The claim as stated fails: a size that is not a multiple of
    [line_size * associativity] is accepted, and the cache serves accesses. *)
Lemma invalid_geometry_accepted :
  200 mod (64 * 1) <> 0 /\
  exists c, cache_create CACHE_SET_ASSOC 200 64 1 = Some c /\
            num_sets c * associativity c * line_size c <> size c /\
            fst (cache_access c 0 false) = miss_penalty c.
Proof.
  split; [discriminate |]. eexists. split; [reflexivity |].
  split; [discriminate | reflexivity].
Qed.

Lemma cache_create_accepts_any_geometry_witness :
  (exists c, cache_create CACHE_SET_ASSOC 200 64 1 = Some c /\
             num_sets c = 3 /\ cache_wf c /\
             cache_access_checked c 0 false = Some (cache_access c 0 false)) /\
  (exists c, cache_create CACHE_SET_ASSOC 100 64 3 = Some c /\
             num_sets c = 0 /\ cache_access_checked c 0 false = None).
Proof.
  split.
  - destruct (cache_create_accepts_any_geometry CACHE_SET_ASSOC 200 64 1)
      as (c & Hc & _ & _ & _ & _ & Hn & _ & _ & _ & Hfit & _); try lia.
    destruct (Hfit ltac:(lia)) as [Hwf Hrun].
    exists c. exact (conj Hc (conj Hn (conj Hwf (Hrun 0 false)))).
  - destruct (cache_create_accepts_any_geometry CACHE_SET_ASSOC 100 64 3)
      as (c & Hc & _ & _ & _ & _ & _ & _ & _ & _ & _ & Hsmall); try lia.
    destruct (Hsmall ltac:(lia)) as [Hn Htrap].
    exists c. exact (conj Hc (conj Hn (Htrap 0 false))).
Defined.

End CacheRuns.

(** ** The branch predictor *)

Section PredictorFacts.
Import BP.

Lemma shift_in_bit (x : Z) (b : bool) :
  0 <= x -> Z.lor (Z.shiftl x 1) (if b then 1 else 0) = 2 * x + (if b then 1 else 0).
Proof.
  intros Hx. destruct b.
  - destruct x as [| p | p]; [reflexivity | reflexivity | lia].
  - rewrite Z.lor_0_r, Z.shiftl_mul_pow2 by lia. lia.
Qed.

Lemma width_mask (k : Z) :
  0 <= k <= 30 -> wrap32 (Z.shiftl 1 k - 1) = Z.ones k.
Proof.
  intros Hk. rewrite Z.shiftl_1_l, Z.ones_equiv. unfold wrap32.
  apply Z.mod_small.
  assert (2 ^ k <= 2 ^ 30) by (apply Z.pow_le_mono_r; lia).
  assert (0 < 2 ^ k) by (apply Z.pow_pos_nonneg; lia). lia.
Qed.

Lemma counter_step_saturates (taken : bool) (v : Z) :
  0 <= v <= 3 ->
  counter_step taken v = (if taken then Z.min 3 (v + 1) else Z.max 0 (v - 1)) /\
  0 <= counter_step taken v <= 3.
Proof.
  intros Hv. unfold counter_step.
  destruct taken; [destruct (Z.ltb_spec v 3) | destruct (Z.ltb_spec 0 v)]; lia.
Qed.

Lemma index_in_table (x n : Z) :
  0 < n < 2 ^ 31 -> 0 <= wrap32 (x mod n) < n /\ wrap32 (x mod n) = x mod n.
Proof.
  intros Hn. pose proof (Z.mod_pos_bound x n ltac:(lia)) as Hm.
  unfold wrap32. rewrite Z.mod_small by lia. lia.
Qed.

(** A predictor as [bp_create] builds it and [bp_update] keeps it. *)
Lemma bp_create_ok (ty : PredictorType) (bsz psz : Z) :
  0 <= psz ->
  let bp := bp_create ty bsz psz in
  length (pht bp) = Z.to_nat (pht_size bp) /\
  Forall (fun v => 0 <= v <= 3) (pht bp) /\ bhr bp = 0 /\ correct bp = 0.
Proof.
  intros Hp. simpl. rewrite length_replicate. repeat split.
  apply Forall_replicate. lia.
Qed.

(** C6.  [bp_update(pc, taken, predicted)]: the correct-predictions counter
    goes up by one exactly when [taken] equals [predicted]; for the bimodal
    and gshare policies the counter at the indexed table entry goes up by
    one when taken and down by one when not taken, saturating in [0, 3], the
    other entries being unchanged; for gshare the outcome bit is shifted
    into the history register, which is then reduced to [bhr_size] bits. *)
Theorem bp_update_spec (bp : BranchPredictor) (pc : Z) (taken predicted : bool) :
  0 < pht_size bp < 2 ^ 31 ->
  length (pht bp) = Z.to_nat (pht_size bp) ->
  Forall (fun v => 0 <= v <= 3) (pht bp) ->
  0 <= bhr_size bp <= 30 ->
  0 <= bhr bp < 2 ^ 32 -> 0 <= correct bp < 2 ^ 64 -> 0 <= pc < 2 ^ 64 ->
  let bp' := bp_update bp pc taken predicted in
  let index :=
    match type bp with
    | PREDICTOR_GSHARE => Z.lxor pc (bhr bp) mod pht_size bp
    | _ => pc mod pht_size bp
    end in
  (correct bp' = wrap64 (correct bp + 1) <-> taken = predicted) /\
  (correct bp' = correct bp <-> taken <> predicted) /\
  (type bp = PREDICTOR_BIMODAL \/ type bp = PREDICTOR_GSHARE ->
     zget (pht bp') index
     = (if taken then Z.min 3 (zget (pht bp) index + 1)
        else Z.max 0 (zget (pht bp) index - 1)) /\
     0 <= zget (pht bp') index <= 3 /\
     forall j, 0 <= j -> j <> index -> zget (pht bp') j = zget (pht bp) j) /\
  (type bp = PREDICTOR_ALWAYS_TAKEN \/ type bp = PREDICTOR_ALWAYS_NOT_TAKEN ->
     pht bp' = pht bp) /\
  (type bp = PREDICTOR_GSHARE ->
     bhr bp' = wrap32 (2 * bhr bp + (if taken then 1 else 0)) mod 2 ^ bhr_size bp) /\
  (type bp <> PREDICTOR_GSHARE -> bhr bp' = bhr bp) /\
  type bp' = type bp /\ pht_size bp' = pht_size bp /\ bhr_size bp' = bhr_size bp /\
  total bp' = total bp.
Proof.
  intros Hsize Hlen Hpht Hwidth Hbhr Hcorrect Hpc bp' index.
  assert (Hc : correct bp' = if eqb taken predicted
                             then wrap64 (correct bp + 1) else correct bp).
  { subst bp'. unfold bp_update. destruct (type bp); reflexivity. }
  assert (Hwrap : wrap64 (correct bp + 1) <> correct bp).
  { unfold wrap64. destruct (Z.eq_dec (correct bp) (2 ^ 64 - 1)) as [-> | Hne].
    - discriminate.
    - rewrite Z.mod_small by lia. lia. }
  assert (Hold : forall i, 0 <= zget (pht bp) i <= 3).
  { intros i. unfold zget. destruct (pht bp !! Z.to_nat i) eqn:Hi; simpl; [| lia].
    exact (Forall_lookup_1 _ _ _ _ Hpht Hi). }
  assert (Htable : type bp = PREDICTOR_BIMODAL \/ type bp = PREDICTOR_GSHARE ->
            0 <= index < pht_size bp /\
            pht bp' = zset (pht bp) index (counter_step taken (zget (pht bp) index))).
  { subst bp' index. unfold bp_update, bimodal_index, gshare_index.
    intros [Hty | Hty]; rewrite Hty; cbn [pht].
    - destruct (index_in_table pc (pht_size bp) Hsize) as [Hr ->].
      split; [apply Z.mod_pos_bound; lia | reflexivity].
    - destruct (index_in_table (Z.lxor pc (bhr bp)) (pht_size bp) Hsize) as [Hr ->].
      split; [apply Z.mod_pos_bound; lia | reflexivity]. }
  split; [| split; [| split; [| split; [| split; [| split]]]]].
  - rewrite Hc. destruct taken, predicted; simpl; split; intros H;
      try reflexivity; try discriminate; congruence.
  - rewrite Hc. destruct taken, predicted; simpl; split; intros H;
      try reflexivity; try discriminate; try congruence.
  - intros Hty. destruct (Htable Hty) as [Hidx ->].
    destruct (counter_step_saturates taken _ (Hold index)) as [Hstep Hrange].
    rewrite zget_zset_eq by lia.
    split; [exact Hstep | split; [exact Hrange |]].
    intros j Hj Hne. apply zget_zset_ne; lia.
  - subst bp'. unfold bp_update. intros [-> | ->]; reflexivity.
  - subst bp'. unfold bp_update. intros ->. simpl.
    rewrite shift_in_bit, width_mask, Z.land_ones by lia. reflexivity.
  - subst bp'. unfold bp_update. destruct (type bp); try reflexivity. congruence.
  - subst bp'. unfold bp_update. destruct (type bp); repeat split; reflexivity.
Qed.

Lemma bp_update_spec_witness :
  let bp := mkBP PREDICTOR_GSHARE 4 8 13 [2; 2; 2; 3; 2; 0; 2; 2] 5 9 in
  let bp' := bp_update bp 16 true false in
  correct bp' = correct bp /\
  zget (pht bp') (Z.lxor 16 13 mod 8) = Z.min 3 (zget (pht bp) (Z.lxor 16 13 mod 8) + 1) /\
  bhr bp' = wrap32 (2 * 13 + 1) mod 2 ^ 4.
Proof.
  intros bp bp'.
  destruct (bp_update_spec bp 16 true false) as (_ & Hc & Htab & _ & Hbhr & _);
    try (simpl; lia); try reflexivity.
  - repeat constructor; lia.
  - split; [apply Hc; discriminate |].
    split; [apply Htab; right; reflexivity | apply Hbhr; reflexivity].
Defined.

End PredictorFacts.

(** ** The in-order pipeline *)

Section PipelineFacts.
Import Isa Pipe.

Lemma stage_set_stage (p : Pipeline) (s s' : PipelineStage) (r : PipelineRegister) :
  stage (set_stage p s r) s' = if decide (s = s') then r else stage p s'.
Proof. destruct s, s'; reflexivity. Qed.

Lemma dest_zero_set (p : Pipeline) (s : PipelineStage) (r : PipelineRegister) :
  dest_zero p -> dest r = 0 -> dest_zero (set_stage p s r).
Proof.
  intros Hp Hr s'. rewrite stage_set_stage. destruct (decide (s = s')); auto.
Qed.

Lemma dest_zero_flush (l : list PipelineStage) (p : Pipeline) :
  dest_zero p ->
  dest_zero (fold_left (fun p i => set_stage p i (make_nop (stage p i) true)) l p).
Proof.
  revert p. induction l as [| s l IH]; intros p Hp; simpl; [exact Hp |].
  apply IH, dest_zero_set; [exact Hp | apply Hp].
Qed.

#[local] Arguments set_stage : simpl never.
#[local] Arguments stage : simpl never.

Ltac dest_zero_tac H :=
  simpl;
  repeat first [ apply H | apply dest_zero_set | apply dest_zero_flush
               | progress simpl ].

Ltac stage_cases :=
  repeat match goal with
         | |- context [if ?b then _ else _] => destruct b
         | |- context [let '(_, _) := ?x in _] => destruct x
         end.

(** Every stage keeps the destinations at 0: no stage writes [dest]. *)
Lemma stage_commit_dest (cpu : CPU) :
  dest_zero (pipeline cpu) -> dest_zero (pipeline (stage_commit cpu)).
Proof.
  intros H. unfold stage_commit. stage_cases; dest_zero_tac H.
Qed.

Lemma stage_writeback_dest (cpu : CPU) :
  dest_zero (pipeline cpu) -> dest_zero (pipeline (stage_writeback cpu)).
Proof.
  intros H. unfold stage_writeback. stage_cases; dest_zero_tac H.
Qed.

Lemma stage_memory_dest (cpu : CPU) :
  dest_zero (pipeline cpu) -> dest_zero (pipeline (stage_memory cpu)).
Proof.
  intros H. unfold stage_memory. stage_cases; dest_zero_tac H.
Qed.

Lemma stage_execute_dest (cpu : CPU) :
  dest_zero (pipeline cpu) -> dest_zero (pipeline (stage_execute cpu)).
Proof.
  intros H. unfold stage_execute. stage_cases; dest_zero_tac H.
Qed.

Lemma stage_decode_dest (cpu : CPU) :
  dest_zero (pipeline cpu) -> dest_zero (pipeline (stage_decode cpu)).
Proof.
  intros H. unfold stage_decode. stage_cases; dest_zero_tac H.
Qed.

Lemma stage_fetch_dest (cpu : CPU) :
  dest_zero (pipeline cpu) -> dest_zero (pipeline (stage_fetch cpu)).
Proof.
  intros H. unfold stage_fetch.
  destruct (stall _); [exact H |].
  assert (H1 : dest_zero (pipeline (fetch_check_mispredict cpu))).
  { unfold fetch_check_mispredict. stage_cases; dest_zero_tac H. }
  unfold fetch_instruction. stage_cases; dest_zero_tac H1.
Qed.

(** Only Writeback writes the register file, and only at [dest]. *)
Lemma stage_commit_regs (cpu : CPU) : registers (stage_commit cpu) = registers cpu.
Proof. reflexivity. Qed.

Lemma stage_writeback_regs (cpu : CPU) (r : Z) :
  dest_zero (pipeline cpu) -> 1 <= r ->
  zget (registers (stage_writeback cpu)) r = zget (registers cpu) r.
Proof.
  intros H Hr. unfold stage_writeback. destruct (bubble _); [reflexivity |].
  cbn [dest pr_with_cycle]. rewrite (H STAGE_MEMORY). simpl.
  apply zget_zset_ne; lia.
Qed.

Lemma stage_memory_regs (cpu : CPU) : registers (stage_memory cpu) = registers cpu.
Proof. unfold stage_memory. stage_cases; reflexivity. Qed.

Lemma stage_execute_regs (cpu : CPU) : registers (stage_execute cpu) = registers cpu.
Proof. unfold stage_execute. stage_cases; reflexivity. Qed.

Lemma stage_decode_regs (cpu : CPU) : registers (stage_decode cpu) = registers cpu.
Proof. unfold stage_decode. stage_cases; reflexivity. Qed.

Lemma stage_fetch_regs (cpu : CPU) : registers (stage_fetch cpu) = registers cpu.
Proof.
  unfold stage_fetch, fetch_instruction, fetch_check_mispredict.
  stage_cases; reflexivity.
Qed.

Lemma cpu_step_eq (cpu : CPU) :
  cpu_step cpu =
  let c := stage_fetch (stage_decode (stage_execute (stage_memory
             (stage_writeback (stage_commit cpu))))) in
  with_cycles c (wrap64 (cycles c + 1)).
Proof. reflexivity. Qed.

Lemma pipeline_with_cycles (c : CPU) (v : Z) : pipeline (with_cycles c v) = pipeline c.
Proof. reflexivity. Qed.

Lemma registers_with_cycles (c : CPU) (v : Z) : registers (with_cycles c v) = registers c.
Proof. reflexivity. Qed.

(** One cycle keeps the destinations at 0 and the registers other than R0. *)
Lemma cpu_step_keeps (cpu : CPU) (r : Z) :
  dest_zero (pipeline cpu) -> 1 <= r ->
  dest_zero (pipeline (cpu_step cpu)) /\
  zget (registers (cpu_step cpu)) r = zget (registers cpu) r.
Proof.
  intros H Hr. rewrite cpu_step_eq. cbv zeta.
  rewrite pipeline_with_cycles, registers_with_cycles.
  pose proof (stage_commit_dest cpu H) as H1.
  pose proof (stage_writeback_regs _ r H1 Hr) as Hw.
  pose proof (stage_writeback_dest _ H1) as H2.
  pose proof (stage_memory_dest _ H2) as H3.
  pose proof (stage_execute_dest _ H3) as H4.
  pose proof (stage_decode_dest _ H4) as H5.
  pose proof (stage_fetch_dest _ H5) as H6.
  split; [exact H6 |].
  rewrite stage_fetch_regs, stage_decode_regs, stage_execute_regs,
    stage_memory_regs, Hw, stage_commit_regs.
  reflexivity.
Qed.

Lemma cpu_run_S (cpu : CPU) (n : nat) :
  cpu_run cpu (S n) = cpu_step (cpu_run cpu n).
Proof. reflexivity. Qed.

Lemma cpu_run_keeps (n : nat) (cpu : CPU) (r : Z) :
  dest_zero (pipeline cpu) -> 1 <= r ->
  dest_zero (pipeline (cpu_run cpu n)) /\
  zget (registers (cpu_run cpu n)) r = zget (registers cpu) r.
Proof.
  intros H Hr. induction n as [| n [IHd IHr]]; [split; [exact H | reflexivity] |].
  rewrite cpu_run_S.
  destruct (cpu_step_keeps (cpu_run cpu n) r IHd Hr) as [Hd Hreg].
  split; [exact Hd |]. rewrite Hreg. exact IHr.
Qed.

(** From a freshly created processor, whatever program is loaded and
    whatever the memory holds, the registers other than R0 stay 0. *)
Lemma registers_above_R0_stay_zero
      (msize now : Z) (mem0 program : list Z) (addr r : Z) (n : nat) :
  1 <= r ->
  exists cpu0,
    cpu_create msize mem0 now = Some cpu0 /\
    zget (registers (cpu_run (snd (cpu_load_program cpu0 program addr)) n)) r = 0.
Proof.
  intros Hr. eexists. split; [reflexivity |].
  match goal with
  | |- zget (registers (cpu_run ?c n)) r = 0 =>
      assert (Hd : dest_zero (pipeline c));
      [| assert (Hz : zget (registers c) r = 0)]
  end.
  - unfold cpu_load_program. destruct (_ <? _); intros []; reflexivity.
  - assert (Hz0 : zget (replicate 16 0) r = 0).
    { unfold zget. destruct (replicate 16 0 !! Z.to_nat r) eqn:Hl; [| reflexivity].
      apply lookup_replicate in Hl as [-> _]. reflexivity. }
    unfold cpu_load_program. destruct (_ <? _); exact Hz0.
  - destruct (cpu_run_keeps n _ r Hd Hr) as [_ ->]. exact Hz.
Qed.

(** C3 (what the code does).  With the program [MOV R0,10; ADD R1,R0,R0]
    loaded at 0x1000 into a freshly created processor, whatever the rest of
    the memory holds, R1 is 0 after every number of cycles: the pipeline
    never sets a destination register, so every write-back goes to R0. *)
Theorem hazard_program_leaves_R1_zero (msize now : Z) (mem0 : list Z) (n : nat) :
  exists cpu0,
    cpu_create msize mem0 now = Some cpu0 /\
    zget (registers (cpu_run (snd (cpu_load_program cpu0 hazard_program 0x1000)) n)) 1
    = 0.
Proof. apply registers_above_R0_stay_zero. lia. Qed.

(** What a fetch that is not stalled leaves behind: the opcode byte read at
    the program counter, its type, and the program counter one further. *)
Lemma fetch_instruction_spec (cpu : CPU) :
  let cpu' := fetch_instruction cpu in
  let fr := stage (pipeline cpu') STAGE_FETCH in
  pr_pc fr = pc cpu /\ opcode fr = zget (memory cpu) (pc cpu) /\
  type fr = fetch_type (opcode fr) /\
  pc cpu' = wrap64 (pc cpu + 1) /\
  bubbles cpu' = bubbles cpu /\
  (forall s, s <> STAGE_FETCH -> stage (pipeline cpu') s = stage (pipeline cpu) s).
Proof.
  unfold fetch_instruction.
  destruct (CacheModel.cache_access _ _ _) as [lat l1]. cbn.
  repeat split. intros s Hs. destruct s; try reflexivity. contradiction.
Qed.

(** C10 (amended).  The HLT opcode is 20, the last enumerator.  A fetch
    stage that is not stalled maps every opcode byte of 20 or more to the
    no-op type, so a fetched HLT enters the pipeline as a no-op; nothing
    halts: the program counter ends one past the byte fetched, for HLT as
    for every other byte, on every cycle whose fetch is not stalled. *)
Theorem fetch_turns_hlt_into_nop (cpu : CPU) :
  stall (stage (pipeline cpu) STAGE_FETCH) = false ->
  let cpu' := stage_fetch cpu in
  let fr := stage (pipeline cpu') STAGE_FETCH in
  table_opcode INST_HLT = Some 20 /\ type_to_Z INST_HLT = 20 /\
  opcode fr = zget (memory cpu) (pr_pc fr) /\
  (20 <= opcode fr -> type fr = INST_NOP) /\
  (0 <= opcode fr < 20 -> type fr = type_of_Z (opcode fr)) /\
  pc cpu' = wrap64 (pr_pc fr + 1).
Proof.
  intros Hstall cpu' fr.
  assert (Hstep : cpu' = fetch_instruction (fetch_check_mispredict cpu)).
  { subst cpu'. unfold stage_fetch. rewrite Hstall. reflexivity. }
  destruct (fetch_instruction_spec (fetch_check_mispredict cpu))
    as (Hfpc & Hop & Hty & Hnext & _).
  rewrite <- Hstep in Hfpc, Hop, Hty, Hnext. fold fr in Hfpc, Hop, Hty.
  assert (Hmem : memory (fetch_check_mispredict cpu) = memory cpu).
  { unfold fetch_check_mispredict. stage_cases; reflexivity. }
  rewrite Hmem, <- Hfpc in Hop. rewrite <- Hfpc in Hnext.
  repeat split; try assumption; try reflexivity.
  - intros Hge. rewrite Hty. unfold fetch_type.
    destruct (Z.ltb_spec (opcode fr) 20); [lia | reflexivity].
  - intros Hlt. rewrite Hty. unfold fetch_type.
    destruct (Z.ltb_spec (opcode fr) 20); [reflexivity | lia].
Qed.

(** The claim as stated fails on the cycles in which Fetch is stalled:
    with MOV then HLT in memory, HLT is fetched (as a no-op) in cycle 2 and
    the program counter stays at 0x1002 during cycles 3 to 6. *)
Lemma pc_held_after_hlt :
  exists cpu0,
    cpu_create 0x2000 (replicate 0x2000 0) 0 = Some cpu0 /\
    let cpu1 := snd (cpu_load_program cpu0 [19; 20] 0x1000) in
    opcode (stage (pipeline (cpu_run cpu1 2)) STAGE_FETCH) = 20 /\
    type (stage (pipeline (cpu_run cpu1 2)) STAGE_FETCH) = INST_NOP /\
    pc (cpu_run cpu1 2) = 0x1002 /\
    pc (cpu_run cpu1 3) = 0x1002 /\ pc (cpu_run cpu1 6) = 0x1002 /\
    pc (cpu_run cpu1 7) = 0x1003.
Proof. eexists. split; [reflexivity |]. vm_compute. repeat split. Qed.

Lemma fetch_turns_hlt_into_nop_witness :
  let cpu := with_memory taken_jump_in_execute (replicate 0x2000 0 ++ [20]) in
  let fr := stage (pipeline (stage_fetch cpu)) STAGE_FETCH in
  opcode fr = 20 /\ type fr = INST_NOP /\ pc (stage_fetch cpu) = 0x2001.
Proof.
  intros cpu fr.
  destruct (fetch_turns_hlt_into_nop cpu) as (_ & _ & Hop & Hnop & _ & Hpc);
    [reflexivity |].
  assert (Hbyte : opcode fr = 20) by reflexivity.
  assert (Hge : 20 <= opcode fr) by (rewrite Hbyte; lia).
  exact (conj Hbyte (conj (Hnop Hge) Hpc)).
Defined.

End PipelineFacts.

(** ** The out-of-order engine *)

Section TomasuloFacts.
Import Isa Tomasulo.

Lemma tomasulo_create_wf (n_rs n_rob : Z) :
  0 <= n_rs -> 0 < n_rob -> engine_wf (tomasulo_create n_rs n_rob).
Proof.
  intros Hrs Hrob. unfold engine_wf, tomasulo_create. simpl.
  rewrite !length_replicate. repeat split; lia.
Qed.

Lemma rs_at_insert_eq (cpu : TomasuloCPU) (l : list RS.ReservationStation)
      (i : Z) (st : RS.ReservationStation) :
  0 <= i < Z.of_nat (length l) ->
  default RS.zero (<[Z.to_nat i := st]> l !! Z.to_nat i) = st.
Proof. intros Hi. rewrite list_lookup_insert_eq by lia. reflexivity. Qed.

(** C8.  [tomasulo_issue] returns false exactly when every reservation
    station is busy, and then leaves the engine unchanged.  Otherwise it
    returns true, takes the first free station (the only station it
    changes), fills the reorder-buffer entry at the tail (the only entry it
    changes) as busy and not ready, records that entry, as index + 1, as the
    pending producer of the destination register, advances the tail and
    counts the issue; the register file and the head are unchanged. *)
Theorem tomasulo_issue_spec (cpu : TomasuloCPU) (inst : DecodedInstruction) :
  engine_wf cpu ->
  0 <= rd inst < 32 -> 0 <= rs1 inst < 32 -> 0 <= rs2 inst < 32 ->
  let ok := fst (tomasulo_issue cpu inst) in
  let cpu' := snd (tomasulo_issue cpu inst) in
  (ok = false <->
   forall i, 0 <= i < rs_count cpu -> RS.busy (rs_at cpu i) = true) /\
  (ok = false -> cpu' = cpu) /\
  (ok = true ->
   exists i,
     0 <= i < rs_count cpu /\ RS.busy (rs_at cpu i) = false /\
     (forall j, 0 <= j < i -> RS.busy (rs_at cpu j) = true) /\
     RS.busy (rs_at cpu' i) = true /\
     RS.op (rs_at cpu' i) = type inst /\ RS.dest (rs_at cpu' i) = rd inst /\
     (forall j, 0 <= j -> j <> i -> rs_at cpu' j = rs_at cpu j) /\
     ROB.busy (rob_at cpu' (rob_tail cpu)) = true /\
     ROB.ready (rob_at cpu' (rob_tail cpu)) = false /\
     ROB.dest (rob_at cpu' (rob_tail cpu)) = rd inst /\
     (forall j, 0 <= j -> j <> rob_tail cpu -> rob_at cpu' j = rob_at cpu j) /\
     zget (reg_status cpu') (rd inst) = rob_tail cpu + 1 /\
     (forall r, 0 <= r -> r <> rd inst ->
                zget (reg_status cpu') r = zget (reg_status cpu) r) /\
     registers cpu' = registers cpu /\
     rob_head cpu' = rob_head cpu /\
     rob_tail cpu' = (rob_tail cpu + 1) mod rob_size cpu /\
     instructions_issued cpu' = wrap64 (instructions_issued cpu + 1) /\
     instructions_completed cpu' = instructions_completed cpu /\
     instructions_committed cpu' = instructions_committed cpu).
Proof.
  intros (Hrs & Hrsn & Hrob & Hrobn & Hhead & Htail & Hregs & Hstat) Hrd H1 H2 ok cpu'.
  subst ok cpu'. unfold tomasulo_issue, find_free_station.
  destruct (CacheModel.find_from _ 0 _) as [i |] eqn:Hfind; cbn [fst snd].
  - apply find_from_Some in Hfind as (Hi & Hfree & Hbefore).
    apply negb_true_iff in Hfree.
    split; [| split; [discriminate |]].
    + split; [discriminate |]. intros Hall.
      rewrite (Hall i) in Hfree by lia. discriminate.
    + intros _. exists i. unfold issue_at, rs_at, rob_at. cbn.
      rewrite !list_lookup_insert_eq by lia. cbn.
      repeat split; try lia; try reflexivity.
      * exact Hfree.
      * intros j Hj. apply negb_false_iff. apply Hbefore. lia.
      * intros j Hj Hne. rewrite list_lookup_insert_ne by lia. reflexivity.
      * intros j Hj Hne. rewrite list_lookup_insert_ne by lia. reflexivity.
      * apply zget_zset_eq. lia.
      * intros r Hr Hne. apply zget_zset_ne; lia.
      * apply Z.rem_mod_nonneg; lia.
  - split; [| split; [reflexivity | discriminate]].
    split; [| reflexivity]. intros _ i Hi.
    apply negb_false_iff.
    apply (find_from_None _ _ _ Hfind i). lia.
Qed.

Lemma tomasulo_issue_spec_witness :
  let cpu' := snd (tomasulo_issue loaded_engine (add_inst 1 2 3)) in
  fst (tomasulo_issue loaded_engine (add_inst 1 2 3)) = true /\
  RS.busy (rs_at cpu' 0) = true /\ ROB.busy (rob_at cpu' 0) = true /\
  zget (reg_status cpu') 1 = 1 /\ rob_tail cpu' = 1.
Proof.
  intros cpu'.
  assert (Hwf : engine_wf loaded_engine).
  { unfold engine_wf. cbn. repeat split; lia. }
  destruct (tomasulo_issue_spec loaded_engine (add_inst 1 2 3) Hwf)
    as (_ & _ & Hok); try (cbn; lia).
  assert (Htrue : fst (tomasulo_issue loaded_engine (add_inst 1 2 3)) = true)
    by reflexivity.
  destruct (Hok Htrue) as (i & _); clear Hok.
  repeat split.
Defined.


(** The number of busy reorder-buffer entries bounds the iterations of the
    commit loop. *)
Lemma busy_count_retire (l : list ROB.ROBEntry) (i : nat) (e e' : ROB.ROBEntry) :
  l !! i = Some e -> ROB.busy e = true -> ROB.busy e' = false ->
  S (length (filter (fun x => ROB.busy x = true) (<[i := e']> l)))
  = length (filter (fun x => ROB.busy x = true) l).
Proof.
  revert i. induction l as [| x l IH]; intros i Hl He He'; [discriminate |].
  destruct i as [| i]; simpl in *.
  - injection Hl as ->. rewrite !filter_cons.
    destruct (decide (ROB.busy e' = true)); [congruence |].
    destruct (decide (ROB.busy e = true)); [reflexivity | contradiction].
  - rewrite !filter_cons. destruct (decide (ROB.busy x = true)); simpl;
      rewrite (IH i Hl He He'); reflexivity.
Qed.

Lemma commit_head_wf (cpu : TomasuloCPU) :
  engine_wf cpu -> engine_wf (commit_head cpu).
Proof.
  intros (Hrs & Hrsn & Hrob & Hrobn & Hhead & Htail & Hregs & Hstat).
  unfold engine_wf, commit_head. cbn.
  rewrite length_insert.
  assert (0 <= Z.rem (rob_head cpu + 1) (rob_size cpu) < rob_size cpu).
  { rewrite Z.rem_mod_nonneg by lia. apply Z.mod_pos_bound. lia. }
  destruct (negb _); rewrite ?length_zset; repeat split; lia.
Qed.

Lemma commit_loop_stops (fuel : nat) (cpu : TomasuloCPU) :
  engine_wf cpu ->
  (length (filter (fun x => ROB.busy x = true) (rob cpu)) <= fuel)%nat ->
  head_ready (commit_loop fuel cpu) = false.
Proof.
  revert cpu. induction fuel as [| fuel IH]; intros cpu Hwf Hcount; simpl.
  - unfold head_ready, rob_at.
    destruct (rob cpu !! Z.to_nat (rob_head cpu)) as [e |] eqn:He; [| reflexivity].
    simpl. destruct (ROB.busy e) eqn:Hb; [| reflexivity].
    assert (Hin : e ∈ filter (fun x => ROB.busy x = true) (rob cpu)).
    { apply list_elem_of_filter. split; [exact Hb |].
      eapply list_elem_of_lookup_2, He. }
    destruct (filter _ (rob cpu)); [inversion Hin | simpl in Hcount; lia].
  - destruct (head_ready cpu) eqn:Hready; [| exact Hready].
    apply IH; [apply commit_head_wf, Hwf |].
    unfold head_ready, rob_at in Hready.
    destruct (rob cpu !! Z.to_nat (rob_head cpu)) as [e |] eqn:He;
      [| discriminate].
    simpl in Hready. apply andb_true_iff in Hready as [Hb _].
    unfold commit_head. cbn [rob]. unfold rob_at. rewrite He. cbn [default id].
    pose proof (busy_count_retire (rob cpu) (Z.to_nat (rob_head cpu)) e
                  (ROB.mk false (ROB.op e) (ROB.result e) (ROB.dest e)
                          (ROB.ready e) (ROB.exception e)) He Hb eq_refl).
    lia.
Qed.

(** [tomasulo_commit] returns with a head entry that is free or not ready:
    the bound [rob_size] on the loop is never the reason it stops. *)
Lemma tomasulo_commit_stops (cpu : TomasuloCPU) :
  engine_wf cpu -> head_ready (tomasulo_commit cpu) = false.
Proof.
  intros Hwf. apply commit_loop_stops; [exact Hwf |].
  destruct Hwf as (_ & _ & Hrob & _). rewrite <- Hrob. apply length_filter.
Qed.

(** C7 (what the code does).  Three additions are issued in order on an
    engine of three stations: the second reads the first's destination, the
    third is independent.  After one Execute, Writeback and Commit the
    second station has not executed, yet the second reorder-buffer entry has
    been retired with the third instruction's result: r4 holds r7 + r8 = 300
    and not 13, the third destination r6 is never written, and every later
    round leaves the engine as it is. *)
Theorem third_result_retired_as_second :
  let s0 := issue_all loaded_engine dependency_chain in
  let s1 := run_phases s0 in
  instructions_issued s0 = 3 /\
  RS.qj (rs_at s0 1) = 1 /\
  RS.busy (rs_at s1 1) = true /\ RS.result_ready (rs_at s1 1) = false /\
  instructions_committed s1 = 2 /\ rob_head s1 = 2 /\
  zget (registers s1) 1 = 3 /\
  zget (registers s1) 4 = 300 /\
  zget (registers s1) 6 = 0 /\
  ROB.busy (rob_at s1 2) = true /\ ROB.ready (rob_at s1 2) = false /\
  forall n, Nat.iter n run_phases s1 = s1.
Proof.
  intros s0 s1.
  assert (Hfix : run_phases s1 = s1) by (vm_compute; reflexivity).
  repeat split.
  intros n. induction n as [| n IH]; simpl; [reflexivity |].
  rewrite IH. exact Hfix.
Qed.

End TomasuloFacts.

(** * Further properties of the code *)

(** ** Codec: bounds, frame and locality *)

Section CodecMore.
Import Isa.

Ltac format_cases :=
  unfold format_eqb;
  repeat first [ rewrite bool_decide_eq_true_2 by reflexivity
               | rewrite bool_decide_eq_false_2 by discriminate ];
  cbn [orb].

Ltac untouched_bytes :=
  repeat first
    [ rewrite zget_write_u64_other by lia
    | rewrite zget_zset_ne by lia ].

Lemma nibble_range (x : Z) : 0 <= Z.land x 0x0F < 16.
Proof.
  change 0x0F with (Z.ones 4). rewrite Z.land_ones by lia.
  apply Z.mod_pos_bound. lia.
Qed.

(** X1.  Whatever the bytes are, a decoded instruction names registers of the
    16-entry register file. *)
Theorem decode_register_bounds (mem : list Z) (pc : Z) :
  let d := decode_instruction mem pc in
  0 <= rd d < 16 /\ 0 <= rs1 d < 16 /\ 0 <= rs2 d < 16.
Proof.
  unfold decode_instruction.
  destruct (lookup_opcode _) as [e |]; [destruct (e_format e) |]; format_cases;
    cbn [rd rs1 rs2]; repeat split; try lia; apply nibble_range.
Qed.

Lemma lookup_opcode_unknown (op : Z) :
  ~ (0 <= op <= 20) -> lookup_opcode op = None.
Proof.
  intros Hop. unfold lookup_opcode, instruction_table. cbn [List.find e_opcode].
  repeat rewrite (proj2 (Z.eqb_neq _ op)) by lia. reflexivity.
Qed.

Lemma lookup_opcode_known (op : Z) :
  0 <= op <= 20 ->
  exists e, lookup_opcode op = Some e /\ e_opcode e = op /\
            e_type e = type_of_Z op /\ lookup_type (e_type e) = Some e.
Proof.
  intros Hop.
  assert (Hcases : op = 0 \/ op = 1 \/ op = 2 \/ op = 3 \/ op = 4 \/ op = 5 \/
                   op = 6 \/ op = 7 \/ op = 8 \/ op = 9 \/ op = 10 \/ op = 11 \/
                   op = 12 \/ op = 13 \/ op = 14 \/ op = 15 \/ op = 16 \/
                   op = 17 \/ op = 18 \/ op = 19 \/ op = 20) by lia.
  repeat destruct Hcases as [-> | Hcases]; try subst op;
    eexists; repeat split; reflexivity.
Qed.

(** X2.  The opcode byte decides type and format: a byte of the table (0 to 20)
    gives the enumerator of that value and the table's format for it; any
    other byte decodes as a no-op in register format. *)
Theorem decode_opcode_lookup (mem : list Z) (pc : Z) :
  let d := decode_instruction mem pc in
  opcode d = zget mem pc /\
  (0 <= zget mem pc <= 20 ->
   type d = type_of_Z (zget mem pc) /\ table_format (type d) = Some (format d)) /\
  (~ (0 <= zget mem pc <= 20) -> type d = INST_NOP /\ format d = FORMAT_R).
Proof.
  unfold decode_instruction. rewrite Z.add_0_r.
  split; [| split].
  - destruct (lookup_opcode _) as [e |]; [destruct (e_format e) |]; format_cases;
      reflexivity.
  - intros Hop. destruct (lookup_opcode_known _ Hop) as (e & -> & _ & Hty & Hback).
    unfold table_format.
    destruct (e_format e) eqn:Hf; format_cases; cbn [type format];
      rewrite Hback; cbn; rewrite Hf; auto.
  - intros Hop. rewrite (lookup_opcode_unknown _ Hop). format_cases. auto.
Qed.

Lemma decode_opcode_lookup_witness :
  let d := decode_instruction [0x0E; 0x30; 0; 0; 0; 0; 0; 0; 0; 0] 0 in
  type d = INST_JZ /\ table_format (type d) = Some (format d).
Proof.
  apply (proj1 (proj2 (decode_opcode_lookup [0x0E; 0x30; 0; 0; 0; 0; 0; 0; 0; 0] 0))).
  change (0 <= 14 <= 20). lia.
Defined.

(** X3.  [encode_instruction] writes only the bytes of the instruction: every
    byte before the buffer or at or after [buffer + size] is unchanged, and
    the memory keeps its length. *)
Theorem encode_frame (inst : DecodedInstruction) (mem : list Z) (p j : Z) :
  0 <= p -> 0 <= j ->
  j < p \/ p + fst (encode_instruction inst mem p) <= j ->
  zget (snd (encode_instruction inst mem p)) j = zget mem j /\
  length (snd (encode_instruction inst mem p)) = length mem.
Proof.
  intros Hp Hj. unfold encode_instruction.
  destruct (lookup_type_total (type inst)) as (e & -> & _).
  destruct (format inst); format_cases;
    cbn [fst snd]; intros Hout;
    rewrite ?length_write_u64, ?length_zset;
    (split; [untouched_bytes; reflexivity | reflexivity]).
Qed.

Lemma encode_frame_witness :
  zget (snd (encode_instruction (mkInst INST_ADD FORMAT_R 1 1 2 3 0 0)
                                [9; 9; 9; 9; 9; 9] 1)) 4 = 9.
Proof.
  apply (encode_frame (mkInst INST_ADD FORMAT_R 1 1 2 3 0 0) [9; 9; 9; 9; 9; 9] 1 4);
    [lia | lia |]. change (4 < 1 \/ 1 + 3 <= 4). lia.
Defined.

Lemma read_u64_ext (m1 m2 : list Z) (a : Z) :
  (forall k, 0 <= k < 8 -> zget m1 (a + k) = zget m2 (a + k)) ->
  read_u64 m1 a = read_u64 m2 a.
Proof.
  intros H. unfold read_u64. cbn [fold_right].
  rewrite !H by lia. reflexivity.
Qed.

(** X4.  Decoding reads only the bytes of the instruction it decodes: two
    memories that agree on the [get_instruction_size] bytes from [pc] decode
    to the same instruction. *)
Theorem decode_reads_only_its_bytes (m1 m2 : list Z) (pc : Z) :
  (forall k, 0 <= k < get_instruction_size m1 pc -> zget m1 (pc + k) = zget m2 (pc + k)) ->
  decode_instruction m1 pc = decode_instruction m2 pc.
Proof.
  unfold get_instruction_size.
  assert (Hpos : 0 < format_size (format (decode_instruction m1 pc))).
  { destruct (format _); cbn; lia. }
  intros Hagree.
  assert (H0 : zget m1 (pc + 0) = zget m2 (pc + 0)) by (apply Hagree; lia).
  revert Hagree. unfold decode_instruction. rewrite <- H0.
  destruct (lookup_opcode _) as [e |]; [destruct (e_format e) |]; format_cases;
    cbn [format format_size];
    intros Hagree; rewrite <- ?Hagree by lia; try reflexivity.
  - rewrite (read_u64_ext m1 m2 (pc + 2)); [reflexivity |].
    intros k Hk. rewrite <- !Z.add_assoc. apply Hagree. lia.
  - rewrite (read_u64_ext m1 m2 (pc + 3)); [reflexivity |].
    intros k Hk. rewrite <- !Z.add_assoc. apply Hagree. lia.
  - rewrite (read_u64_ext m1 m2 (pc + 2)); [reflexivity |].
    intros k Hk. rewrite <- !Z.add_assoc. apply Hagree. lia.
Qed.

Lemma decode_reads_only_its_bytes_witness :
  decode_instruction [0x01; 0x12; 0x30; 7; 7] 0
  = decode_instruction [0x01; 0x12; 0x30; 8; 9; 10] 0.
Proof.
  apply decode_reads_only_its_bytes. intros k Hk.
  change (0 <= k < 3) in Hk.
  assert (Hc : k = 0 \/ k = 1 \/ k = 2) by lia.
  destruct Hc as [-> | [-> | ->]]; reflexivity.
Defined.

End CodecMore.

(** ** Cache: counters, cold misses and the LRU guarantee *)

Section CacheMore.
Import CacheModel.

Lemma cache_access_counters (c : Cache) (a : Z) (w : bool) :
  0 <= hits c -> 0 <= misses c -> hits c + misses c = accesses c ->
  accesses c + 1 < 2 ^ 64 ->
  let c' := snd (cache_access c a w) in
  accesses c' = accesses c + 1 /\ hits c' + misses c' = accesses c' /\
  hits c <= hits c' /\ misses c <= misses c'.
Proof.
  intros Hh Hm Hsum Hacc. unfold cache_access.
  destruct (find_hit c _ _); cbn [snd accesses hits misses];
    rewrite !wrap64_small by lia; lia.
Qed.

(** X5.  Every access counts once as an access and once as either a hit or a
    miss: over any run on a well-formed cache that does not overflow the
    64-bit counters, the access counter grows by the length of the run, hits
    and misses add up to it, and neither of them ever goes down. *)
Theorem access_counters (reqs : list (Z * bool)) (c : Cache) :
  cache_wf c ->
  0 <= hits c -> 0 <= misses c -> hits c + misses c = accesses c ->
  accesses c + Z.of_nat (length reqs) < 2 ^ 64 ->
  let c' := access_all c reqs in
  cache_wf c' /\
  accesses c' = accesses c + Z.of_nat (length reqs) /\
  hits c' + misses c' = accesses c' /\
  hits c <= hits c' /\ misses c <= misses c'.
Proof.
  revert c. induction reqs as [| [a w] reqs IH]; intros c Hwf Hh Hm Hsum Hacc.
  - cbn [access_all fold_left length]. cbv zeta.
    split; [exact Hwf |]. repeat split; lia.
  - cbn [length] in Hacc.
    destruct (cache_access_counters c a w Hh Hm Hsum ltac:(lia))
      as (Ha1 & Hs1 & Hh1 & Hm1).
    specialize (IH (snd (cache_access c a w)) (cache_access_wf c a w Hwf)
                   ltac:(lia) ltac:(lia) Hs1 ltac:(lia)).
    cbv zeta in IH. destruct IH as (Hwf2 & Ha2 & Hs2 & Hh2 & Hm2).
    change (access_all c ((a, w) :: reqs))
      with (access_all (snd (cache_access c a w)) reqs).
    cbv zeta. cbn [length]. split; [exact Hwf2 |]. repeat split; lia.
Qed.

Lemma access_counters_witness :
  let c' := access_all (two_way CACHE_SET_ASSOC)
                       [(0, false); (64, false); (0, true); (128, false)] in
  accesses c' = 4 /\ hits c' + misses c' = accesses c'.
Proof.
  intros c'.
  destruct (access_counters [(0, false); (64, false); (0, true); (128, false)]
              (two_way CACHE_SET_ASSOC) (two_way_wf CACHE_SET_ASSOC))
    as (_ & Hacc & Hsum & _);
    try (cbn; lia).
  exact (conj Hacc Hsum).
Defined.

Lemma find_from_all_false (p : Z -> bool) (n : nat) (i : Z) :
  (forall j, i <= j < i + Z.of_nat n -> p j = false) -> find_from p i n = None.
Proof.
  intros H. destruct (find_from p i n) as [k |] eqn:Hf; [| reflexivity].
  apply find_from_Some in Hf as (Hk & Hp & _). rewrite H in Hp by lia. discriminate.
Qed.

Lemma fresh_way_invalid (n m : nat) (i : nat) (j : Z) :
  bget (default [] (replicate n (replicate m false) !! i)) j = false.
Proof.
  unfold bget. destruct (replicate n (replicate m false) !! i) as [row |] eqn:Hrow.
  - apply lookup_replicate in Hrow as [-> _]. cbn [default id].
    destruct (replicate m false !! Z.to_nat j) as [b |] eqn:Hb; [| reflexivity].
    apply lookup_replicate in Hb as [-> _]. reflexivity.
  - reflexivity.
Qed.

(** X6.  A freshly created cache holds no line: whatever the geometry and the
    address, the first access misses, returns the miss penalty of 10 cycles
    and leaves the counters at one access, one miss and no hit. *)
Theorem first_access_misses (ty : CacheType) (sz lsz assoc addr : Z) (w : bool) :
  0 < lsz -> 0 < assoc -> lsz * assoc <= sz -> 0 <= addr < 2 ^ 64 ->
  exists c, cache_create ty sz lsz assoc = Some c /\
            fst (cache_access c addr w) = 10 /\
            accesses (snd (cache_access c addr w)) = 1 /\
            misses (snd (cache_access c addr w)) = 1 /\
            hits (snd (cache_access c addr w)) = 0.
Proof.
  intros Hl Ha Hsz Haddr. eexists. split; [reflexivity |].
  unfold cache_access.
  match goal with
  | |- context [find_hit ?c ?s ?t] =>
      assert (Hmiss : find_hit c s t = None)
  end.
  { unfold find_hit. apply find_from_all_false. intros j Hj.
    unfold way_valid. cbn [valid]. rewrite fresh_way_invalid. reflexivity. }
  rewrite Hmiss. cbn. repeat split.
Qed.

Lemma first_access_misses_witness :
  exists c, cache_create CACHE_DIRECT_MAPPED 8192 64 1 = Some c /\
            fst (cache_access c 4096 false) = 10 /\
            accesses (snd (cache_access c 4096 false)) = 1 /\
            misses (snd (cache_access c 4096 false)) = 1 /\
            hits (snd (cache_access c 4096 false)) = 0.
Proof. apply first_access_misses; lia. Defined.


Lemma bounded_timestamp (l : list Z) (bound i : Z) :
  Forall (fun x => x <= bound) l -> 0 <= bound -> zget l i <= bound.
Proof.
  intros Hall Hb. unfold zget. destruct (l !! Z.to_nat i) as [x |] eqn:Hx; cbn.
  - exact (Forall_lookup_1 _ _ _ _ Hall Hx).
  - exact Hb.
Qed.

(** On a miss, a line held by a way other than the victim stays resident. *)
Lemma other_way_survives (c : Cache) (b : Z) (w : bool) (s t k : Z) :
  cache_wf c -> find_hit c (set_of c b) (tag_of c b) = None ->
  0 <= s -> find_hit c s t = Some k ->
  (s, k) <> (set_of c b, choose_victim c (set_of c b)) ->
  is_Some (find_hit (snd (cache_access c b w)) s t).
Proof.
  intros Hwf Hmiss Hs Hk Hne.
  destruct (miss_installs c b w Hwf Hmiss) as (_ & _ & Hother).
  apply find_from_Some in Hk as (Hkr & Hpk & _).
  apply andb_true_iff in Hpk as [Hkv Hkt].
  destruct (Hother s k Hs ltac:(lia) Hne) as [Hv' Ht'].
  unfold find_hit. apply (find_from_found _ _ 0 k).
  - destruct (cache_access_config c b w) as (_ & _ & _ & -> & _). lia.
  - cbv beta. rewrite Hv', Ht', Hkv, Hkt. reflexivity.
Qed.

(** After an access to a set-associative cache, the way that serves the
    line carries the newest timestamp of its set. *)
Lemma accessed_way_is_newest (c : Cache) (a : Z) (w : bool) :
  cache_wf c -> type c = CACHE_SET_ASSOC ->
  Forall (fun x => x <= accesses c) (lru_counters c) ->
  0 <= accesses c -> accesses c + 1 < 2 ^ 64 ->
  let c1 := snd (cache_access c a w) in
  exists wa,
    0 <= wa < associativity c /\
    find_hit c1 (set_of c a) (tag_of c a) = Some wa /\
    way_lru c1 (set_of c a) wa = accesses c + 1 /\
    forall j, 0 <= j < associativity c -> j <> wa ->
              way_lru c1 (set_of c a) j <= accesses c.
Proof.
  intros Hwf Hty Hlru Hacc Hno c1.
  pose proof (set_of_range c a Hwf) as Hs.
  pose proof Hwf as (_ & Ha & Hn & _ & _ & _ & Hlen). specialize (Hlen Hty).
  assert (Hstamp : forall i, 0 <= i < associativity c ->
            lru_counters (snd (cache_access c a w))
            = zset (lru_counters c) (set_of c a * associativity c + i)
                   (accesses c + 1) ->
            way_lru c1 (set_of c a) i = accesses c + 1 /\
            forall j, 0 <= j < associativity c -> j <> i ->
                      way_lru c1 (set_of c a) j <= accesses c).
  { intros i Hi Heq. subst c1. unfold way_lru.
    destruct (cache_access_config c a w) as (_ & _ & _ & -> & _). rewrite Heq.
    split.
    - apply zget_zset_eq. rewrite Hlen. nia.
    - intros j Hj Hne. rewrite zget_zset_ne by nia.
      apply bounded_timestamp; assumption. }
  destruct (find_hit c (set_of c a) (tag_of c a)) as [i |] eqn:Hf.
  - exists i. pose proof (find_from_Some _ _ _ _ Hf) as (Hi & _).
    destruct (hit_keeps_ways c a w i Hf) as (Ht & Hv & _).
    split; [lia |]. split.
    + subst c1. rewrite (find_hit_ext _ c) by
        (try assumption; apply (cache_access_config c a w)). exact Hf.
    + apply Hstamp; [lia |]. unfold cache_access. rewrite Hf.
      cbn [snd lru_counters]. unfold is_set_assoc.
      rewrite bool_decide_eq_true_2 by exact Hty.
      rewrite wrap64_small by lia. reflexivity.
  - pose proof (choose_victim_range c (set_of c a) Hwf) as Hv.
    exists (choose_victim c (set_of c a)). split; [exact Hv |].
    destruct (access_makes_resident c a w Hwf) as [k Hk]. split.
    + destruct (Z.eq_dec k (choose_victim c (set_of c a))) as [<- | Hne];
        [exact Hk | exfalso].
      destruct (miss_installs c a w Hwf Hf) as (_ & _ & Hother).
      pose proof (find_from_Some _ _ _ _ Hk) as (Hkr & Hpk & _).
      destruct (Hother (set_of c a) k ltac:(lia) ltac:(lia)) as [Hv' Ht'];
        [congruence |].
      cbv beta in Hpk. rewrite Hv', Ht' in Hpk.
      destruct (cache_access_config c a w) as (_ & _ & _ & Hassoc & _).
      rewrite Hassoc in Hkr.
      unfold find_hit in Hf.
      rewrite (find_from_None _ _ _ Hf k) in Hpk by lia. discriminate.
    + apply Hstamp; [exact Hv |]. unfold cache_access. rewrite Hf.
      cbn [snd lru_counters]. unfold is_set_assoc.
      rewrite bool_decide_eq_true_2 by exact Hty.
      rewrite wrap64_small by lia. reflexivity.
Qed.

(** X7.  The LRU guarantee of a set-associative cache with at least two ways:
    the line of an access is still resident after the next access, whatever
    address that one uses. *)
Theorem most_recent_line_survives (c : Cache) (a b : Z) (w1 w2 : bool) :
  cache_wf c -> type c = CACHE_SET_ASSOC -> 2 <= associativity c ->
  Forall (fun x => x <= accesses c) (lru_counters c) ->
  0 <= accesses c -> accesses c + 1 < 2 ^ 64 - 1 ->
  let c2 := snd (cache_access (snd (cache_access c a w1)) b w2) in
  is_Some (find_hit c2 (set_of c a) (tag_of c a)).
Proof.
  intros Hwf Hty Hways Hlru Hacc Hno c2.
  destruct (accessed_way_is_newest c a w1 Hwf Hty Hlru Hacc ltac:(lia))
    as (wa & Hwa & Hres & Hnew & Hold).
  set (c1 := snd (cache_access c a w1)) in *.
  assert (Hwf1 : cache_wf c1) by apply cache_access_wf, Hwf.
  destruct (cache_access_config c a w1) as (Hty1 & _ & _ & Hassoc1 & _).
  fold c1 in Hty1, Hassoc1.
  pose proof (set_of_range c a Hwf) as Hsa.
  destruct (find_hit c1 (set_of c1 b) (tag_of c1 b)) as [i |] eqn:Hb.
  - destruct (hit_keeps_ways c1 b w2 i Hb) as (Ht & Hv & _).
    subst c2. rewrite (find_hit_ext _ c1) by
      (try assumption; apply (cache_access_config c1 b w2)).
    rewrite Hres. eauto.
  - apply (other_way_survives c1 b w2 _ _ wa Hwf1 Hb); [lia | exact Hres |].
    intros [= Hset Hvictim].
    pose proof (find_from_Some _ _ _ _ Hres) as (_ & Hpwa & _).
    apply andb_true_iff in Hpwa as [Hvalid _].
    rewrite <- Hset in Hvictim.
    unfold choose_victim, is_set_assoc in Hvictim.
    rewrite bool_decide_eq_true_2 in Hvictim by congruence.
    pose proof (lru_scan_spec c1 (set_of c a) (Z.to_nat (associativity c1))
                  0 UINT64_MAX 0) as Hscan.
    rewrite <- Hvictim in Hscan.
    destruct (find_from _ 0 _) as [k |] eqn:Hinv.
    + apply find_from_Some in Hinv as (_ & Hk & _). subst k.
      rewrite Hvalid in Hk. discriminate.
    + cbv zeta in Hscan. rewrite Hassoc1 in Hscan.
      destruct Hscan as [[_ Hall] | (_ & _ & Hall)].
      * specialize (Hall wa ltac:(lia)). unfold UINT64_MAX in Hall. lia.
      * set (j := if Z.eq_dec wa 0 then 1 else 0).
        assert (Hj : 0 <= j < associativity c /\ j <> wa)
          by (subst j; destruct (Z.eq_dec wa 0); lia).
        specialize (Hall j ltac:(lia)).
        specialize (Hold j ltac:(lia) ltac:(lia)). lia.
Qed.

Lemma most_recent_line_survives_witness :
  let c := access_all (two_way CACHE_SET_ASSOC) [(0, false); (64, false)] in
  is_Some (find_hit (snd (cache_access (snd (cache_access c 0 false)) 128 false))
                    (set_of c 0) (tag_of c 0)).
Proof.
  intros c. apply (most_recent_line_survives c 0 128 false false).
  - apply cache_access_wf, cache_access_wf, two_way_wf.
  - reflexivity.
  - change (2 <= 2). lia.
  - change (Forall (fun x => x <= 2) [1; 2]). repeat constructor; lia.
  - change (0 <= 2). lia.
  - change (2 + 1 < 2 ^ 64 - 1). lia.
Defined.


(** The bound on the timestamps used above holds at creation and is kept by
    every access that does not overflow the access counter. *)
Lemma timestamps_bounded_kept (c : Cache) (a : Z) (w : bool) :
  Forall (fun x => x <= accesses c) (lru_counters c) ->
  0 <= accesses c -> accesses c + 1 < 2 ^ 64 ->
  Forall (fun x => x <= accesses (snd (cache_access c a w)))
         (lru_counters (snd (cache_access c a w))).
Proof.
  intros Hlru Hacc Hno.
  assert (Hweak : Forall (fun x => x <= accesses c + 1) (lru_counters c)).
  { eapply Forall_impl; [exact Hlru |]. cbv beta. intros x Hx. lia. }
  unfold cache_access.
  destruct (find_hit c _ _); cbn [snd accesses lru_counters];
    rewrite wrap64_small by lia;
    (destruct (is_set_assoc (type c)); [| exact Hweak]);
    (apply Forall_insert; [exact Hweak | lia]).
Qed.

(** In a cache that is not set-associative only way 0 is ever filled. *)
Lemma only_way_0_kept (c : Cache) (a : Z) (w : bool) :
  cache_wf c -> type c <> CACHE_SET_ASSOC ->
  (forall s k, 0 <= s -> 1 <= k -> way_valid c s k = false) ->
  forall s k, 0 <= s -> 1 <= k ->
              way_valid (snd (cache_access c a w)) s k = false.
Proof.
  intros Hwf Hty Hzero s k Hs Hk.
  destruct (find_hit c (set_of c a) (tag_of c a)) as [i |] eqn:Hf.
  - destruct (hit_keeps_ways c a w i Hf) as (_ & Hv & _).
    unfold way_valid. rewrite Hv. apply Hzero; assumption.
  - destruct (miss_installs c a w Hwf Hf) as (_ & _ & Hother).
    assert (Hv0 : choose_victim c (set_of c a) = 0).
    { unfold choose_victim, is_set_assoc.
      rewrite bool_decide_eq_false_2 by exact Hty. reflexivity. }
    destruct (Hother s k Hs ltac:(lia)) as [-> _]; [| apply Hzero; assumption].
    rewrite Hv0. intros [= _ ->]. lia.
Qed.

(** X8.  A direct-mapped or fully-associative cache keeps one line per set: of
    two lines of the same set accessed one after the other, the first is no
    longer resident after the second access, however many ways the set has. *)
Theorem one_line_per_set_without_lru (c : Cache) (a b : Z) (w1 w2 : bool) :
  cache_wf c -> type c <> CACHE_SET_ASSOC ->
  (forall s k, 0 <= s -> 1 <= k -> way_valid c s k = false) ->
  set_of c a = set_of c b -> tag_of c a <> tag_of c b ->
  let c2 := snd (cache_access (snd (cache_access c a w1)) b w2) in
  find_hit c2 (set_of c a) (tag_of c a) = None /\
  is_Some (find_hit c2 (set_of c b) (tag_of c b)).
Proof.
  intros Hwf Hty Hzero Hset Htag c2.
  set (c1 := snd (cache_access c a w1)) in *.
  assert (Hwf1 : cache_wf c1) by apply cache_access_wf, Hwf.
  assert (Hty1 : type c1 <> CACHE_SET_ASSOC).
  { subst c1. destruct (cache_access_config c a w1) as (-> & _). exact Hty. }
  pose proof (only_way_0_kept c a w1 Hwf Hty Hzero) as Hzero1. fold c1 in Hzero1.
  pose proof (only_way_0_kept c1 b w2 Hwf1 Hty1 Hzero1) as Hzero2. fold c2 in Hzero2.
  pose proof (set_of_range c a Hwf) as Hsa.
  assert (Hsb : set_of c1 b = set_of c a)
    by (subst c1; rewrite set_of_access; congruence).
  assert (Htb : tag_of c1 b = tag_of c b) by (subst c1; apply tag_of_access).
  split.
  - unfold find_hit. apply find_from_all_false. intros j Hj. cbv beta.
    destruct (Z.eq_dec j 0) as [-> | Hne];
      [| rewrite Hzero2 by lia; reflexivity].
    assert (Hway0 : way_tag c2 (set_of c a) 0 = tag_of c b).
    { destruct (find_hit c1 (set_of c1 b) (tag_of c1 b)) as [i |] eqn:Hb.
      - pose proof (find_from_Some _ _ _ _ Hb) as (Hi & Hp & _).
        cbv beta in Hp. apply andb_true_iff in Hp as [Hv Ht].
        destruct (Z.eq_dec i 0) as [-> | Hi0];
          [| rewrite Hsb, Hzero1 in Hv by lia; discriminate].
        destruct (hit_keeps_ways c1 b w2 0 Hb) as (Htags & _).
        unfold way_tag. fold c2 in Htags. rewrite Htags.
        apply Z.eqb_eq in Ht. unfold way_tag in Ht.
        rewrite Hsb, Htb in Ht. exact Ht.
      - destruct (miss_installs c1 b w2 Hwf1 Hb) as (_ & Ht & _).
        unfold choose_victim, is_set_assoc in Ht.
        rewrite bool_decide_eq_false_2 in Ht by exact Hty1.
        fold c2 in Ht. rewrite Hsb, Htb in Ht. exact Ht. }
    rewrite Hway0. rewrite (proj2 (Z.eqb_neq _ _)) by congruence.
    apply andb_false_r.
  - subst c2. rewrite <- Hset, <- Hsb, <- Htb.
    apply access_makes_resident, Hwf1.
Qed.

Lemma one_line_per_set_without_lru_witness :
  let c := two_way CACHE_FULL_ASSOC in
  find_hit (snd (cache_access (snd (cache_access c 0 false)) 64 false))
           (set_of c 0) (tag_of c 0) = None.
Proof.
  intros c.
  apply (one_line_per_set_without_lru c 0 64 false false).
  - apply two_way_wf.
  - discriminate.
  - intros s k Hs Hk. unfold way_valid, c.
    change (valid (two_way CACHE_FULL_ASSOC)) with (replicate 1 (replicate 2 false)).
    apply fresh_way_invalid.
  - reflexivity.
  - discriminate.
Defined.

End CacheMore.

(** ** Branch predictor: cold start, hysteresis and accuracy *)

Section PredictorMore.
Import BP.

Lemma zget_replicate (n : nat) (x i : Z) :
  0 <= i < Z.of_nat n -> zget (replicate n x) i = x.
Proof.
  intros Hi. unfold zget. rewrite lookup_replicate_2 by lia. reflexivity.
Qed.

(** X9.  A freshly created predictor predicts taken under every policy except
    always-not-taken: the table starts at 2, weakly taken.  Predicting counts
    one prediction and changes nothing else. *)
Theorem fresh_predictor_predicts_taken
        (ty : PredictorType) (bsz psz pc : Z) :
  0 < psz < 2 ^ 31 -> 0 <= pc < 2 ^ 64 ->
  let r := bp_predict (bp_create ty bsz psz) pc in
  fst r = negb (bool_decide (ty = PREDICTOR_ALWAYS_NOT_TAKEN)) /\
  total (snd r) = 1 /\ correct (snd r) = 0 /\ bhr (snd r) = 0 /\
  pht (snd r) = pht (bp_create ty bsz psz).
Proof.
  intros Hp Hpc.
  destruct (index_in_table pc psz Hp) as [Hr _].
  destruct (index_in_table (Z.lxor pc 0) psz Hp) as [Hr' _].
  unfold bp_predict, bp_create, bimodal_index, gshare_index.
  destruct ty; cbn [type pht_size pht bhr total correct fst snd];
    rewrite ?zget_replicate by lia; repeat split.
Qed.

Lemma fresh_predictor_predicts_taken_witness :
  fst (bp_predict (bp_create PREDICTOR_GSHARE 12 4096) 0x1000) = true.
Proof.
  apply (fresh_predictor_predicts_taken PREDICTOR_GSHARE 12 4096 0x1000); lia.
Defined.

(** A table predictor in the state the code keeps it in. *)
Lemma bimodal_round (bp : BranchPredictor) (pc : Z) (taken : bool) :
  type bp = PREDICTOR_BIMODAL -> 0 < pht_size bp < 2 ^ 31 ->
  length (pht bp) = Z.to_nat (pht_size bp) ->
  let idx := pc mod pht_size bp in
  let v := zget (pht bp) idx in
  let bp' := predict_then_update bp pc taken in
  type bp' = PREDICTOR_BIMODAL /\ pht_size bp' = pht_size bp /\
  length (pht bp') = Z.to_nat (pht_size bp') /\
  zget (pht bp') idx = counter_step taken v /\
  total bp' = wrap64 (total bp + 1) /\
  correct bp' = (if eqb taken (2 <=? v) then wrap64 (correct bp + 1) else correct bp) /\
  fst (bp_predict bp pc) = (2 <=? v).
Proof.
  intros Hty Hsize Hlen idx v bp'.
  destruct (index_in_table pc (pht_size bp) Hsize) as [Hr Hidx].
  subst bp'. unfold predict_then_update, bp_predict, bp_update. rewrite Hty.
  cbn. rewrite ?Hty. unfold bimodal_index. cbn. rewrite ?Hidx.
  rewrite length_zset. repeat split; try assumption.
  apply zget_zset_eq. subst idx. lia.
Qed.

(** X10.  Two-bit hysteresis of the bimodal policy: two consecutive branches at
    one address with the same outcome make the predictor predict that
    outcome there, whatever the counter was; and a counter at 3 (at 0) still
    predicts taken (not taken) after one contrary outcome. *)
Theorem bimodal_hysteresis (bp : BranchPredictor) (pc : Z) (d : bool) :
  type bp = PREDICTOR_BIMODAL -> 0 < pht_size bp < 2 ^ 31 ->
  length (pht bp) = Z.to_nat (pht_size bp) ->
  Forall (fun v => 0 <= v <= 3) (pht bp) ->
  fst (bp_predict (train bp pc d 2) pc) = d /\
  (zget (pht bp) (pc mod pht_size bp) = (if d then 3 else 0) ->
   fst (bp_predict (train bp pc (negb d) 1) pc) = d).
Proof.
  intros Hty Hsize Hlen Hrange.
  assert (Hv : 0 <= zget (pht bp) (pc mod pht_size bp) <= 3).
  { unfold zget. destruct (pht bp !! _) as [x |] eqn:Hx; cbn; [| lia].
    exact (Forall_lookup_1 _ _ _ _ Hrange Hx). }
  split.
  - change (train bp pc d 2)
      with (predict_then_update (predict_then_update bp pc d) pc d).
    destruct (bimodal_round bp pc d Hty Hsize Hlen)
      as (Hty1 & Hsz1 & Hlen1 & Hc1 & _). cbv zeta in Hc1.
    set (bp1 := predict_then_update bp pc d) in *.
    destruct (bimodal_round bp1 pc d Hty1 ltac:(lia) Hlen1)
      as (Hty2 & Hsz2 & Hlen2 & Hc2 & _). cbv zeta in Hc2.
    set (bp2 := predict_then_update bp1 pc d) in *.
    destruct (bimodal_round bp2 pc d Hty2 ltac:(lia) Hlen2)
      as (_ & _ & _ & _ & _ & _ & Hp). cbv zeta in Hp.
    rewrite Hsz1 in Hc2. rewrite Hsz2, Hsz1 in Hp.
    rewrite Hp, Hc2, Hc1. unfold counter_step.
    destruct d; repeat match goal with
                       | |- context [?a <? ?b] => destruct (Z.ltb_spec a b)
                       | |- context [?a <=? ?b] => destruct (Z.leb_spec a b)
                       end; try reflexivity; lia.
  - intros Hsat.
    change (train bp pc (negb d) 1) with (predict_then_update bp pc (negb d)).
    destruct (bimodal_round bp pc (negb d) Hty Hsize Hlen)
      as (Hty1 & Hsz1 & Hlen1 & Hc1 & _). cbv zeta in Hc1.
    set (bp1 := predict_then_update bp pc (negb d)) in *.
    destruct (bimodal_round bp1 pc d Hty1 ltac:(lia) Hlen1)
      as (_ & _ & _ & _ & _ & _ & Hp). cbv zeta in Hp.
    rewrite Hsz1 in Hp. rewrite Hp, Hc1, Hsat. destruct d; reflexivity.
Qed.

Lemma bimodal_hysteresis_witness :
  let bp := mkBP PREDICTOR_BIMODAL 4 4 0 [0; 1; 2; 3] 0 0 in
  fst (bp_predict (train bp 5 true 2) 5) = true.
Proof.
  intros bp.
  apply (bimodal_hysteresis bp 5 true); try reflexivity; [cbn; lia |].
  repeat constructor; lia.
Defined.


Lemma train_0 (bp : BranchPredictor) (pc : Z) (d : bool) : train bp pc d 0 = bp.
Proof. reflexivity. Qed.

Lemma train_S (bp : BranchPredictor) (pc : Z) (d : bool) (n : nat) :
  train bp pc d (S n) = predict_then_update (train bp pc d n) pc d.
Proof. reflexivity. Qed.

(** X11.  A branch with a constant outcome costs a fresh bimodal predictor at
    most one misprediction: after [n] branches at one address the
    predictions counted are [n], all of them correct when the branch is
    always taken, all but the first when it is never taken. *)
Theorem constant_branch_mispredicted_at_most_once
        (bsz psz pc : Z) (d : bool) (n : nat) :
  0 < psz < 2 ^ 31 -> 0 <= pc < 2 ^ 64 -> Z.of_nat n < 2 ^ 64 ->
  let bp := train (bp_create PREDICTOR_BIMODAL bsz psz) pc d n in
  total bp = Z.of_nat n /\
  correct bp = (if d then Z.of_nat n else Z.max 0 (Z.of_nat n - 1)).
Proof.
  intros Hp Hpc Hn. cbv zeta.
  enough (Hinv :
    let bp := train (bp_create PREDICTOR_BIMODAL bsz psz) pc d n in
    type bp = PREDICTOR_BIMODAL /\ pht_size bp = psz /\
    length (pht bp) = Z.to_nat psz /\
    zget (pht bp) (pc mod psz)
    = (if d then Z.min 3 (2 + Z.of_nat n) else Z.max 0 (2 - Z.of_nat n)) /\
    total bp = Z.of_nat n /\
    correct bp = (if d then Z.of_nat n else Z.max 0 (Z.of_nat n - 1))).
  { cbv zeta in Hinv. tauto. }
  induction n as [| n IH].
  - cbv zeta. rewrite train_0. unfold bp_create.
    cbn [type pht_size pht total correct]. rewrite length_replicate.
    pose proof (Z.mod_pos_bound pc psz ltac:(lia)).
    rewrite zget_replicate by lia. destruct d; repeat split.
  - specialize (IH ltac:(lia)). cbv zeta in IH.
    destruct IH as (Hty & Hsz & Hlen & Hcnt & Htot & Hcor).
    rewrite train_S. cbv zeta.
    set (bp := train (bp_create PREDICTOR_BIMODAL bsz psz) pc d n) in *.
    destruct (bimodal_round bp pc d Hty ltac:(lia) ltac:(rewrite Hsz; exact Hlen))
      as (Hty' & Hsz' & Hlen' & Hcnt' & Htot' & Hcor' & _).
    cbv zeta in Hcnt', Hcor'. rewrite Hsz in Hcnt', Hcor', Hsz'.
    rewrite Hcnt in Hcnt', Hcor'. rewrite Htot in Htot'. rewrite Hcor in Hcor'.
    rewrite Hsz' in Hlen'.
    rewrite Hcnt', Htot', Hcor'.
    unfold counter_step, wrap64.
    split; [exact Hty' |]. split; [exact Hsz' |]. split; [exact Hlen' |].
    destruct d; cbn [eqb];
      repeat match goal with
             | |- context [?a <? ?b] => destruct (Z.ltb_spec a b)
             | |- context [?a <=? ?b] => destruct (Z.leb_spec a b)
             end; cbn [eqb]; rewrite ?Z.mod_small by lia; repeat split; lia.
Qed.

Lemma constant_branch_mispredicted_at_most_once_witness :
  correct (train (bp_create PREDICTOR_BIMODAL 12 4096) 0x1000 false 5) = 4.
Proof.
  apply (constant_branch_mispredicted_at_most_once 12 4096 0x1000 false 5); lia.
Defined.

End PredictorMore.

(** ** Pipeline: program loading, counters, and what never happens *)

Section PipelineMore.
Import Isa Pipe.

#[local] Arguments set_stage : simpl never.
#[local] Arguments stage : simpl never.

Lemma low_bits_disjoint (lo k : Z) :
  0 <= k -> 0 <= lo < 2 ^ k -> Z.land lo (2 ^ k) = 0.
Proof.
  intros Hk Hlo. apply Z.bits_inj'. intros n Hn.
  rewrite Z.land_spec, Z.bits_0, Z.pow2_bits_eqb by lia.
  destruct (Z.eqb_spec k n) as [<- | Hne]; [| apply andb_false_r].
  rewrite <- (Z.mod_small lo (2 ^ k)) by lia.
  rewrite Z.mod_pow2_bits_high by lia. reflexivity.
Qed.

(** X12.  [sign_extend] reads the low [bits] bits of its argument as a two's
    complement number: a value below [2^(bits-1)] is returned as it is, a
    value from [2^(bits-1)] up is lowered by [2^bits], in 64-bit arithmetic. *)
Theorem sign_extend_spec (value bits : Z) :
  1 <= bits <= 64 -> 0 <= value < 2 ^ bits ->
  sign_extend value bits
  = wrap64 (if value <? 2 ^ (bits - 1) then value else value - 2 ^ bits).
Proof.
  intros Hb Hv. unfold sign_extend.
  assert (Hpow : 2 ^ bits = 2 * 2 ^ (bits - 1)).
  { rewrite <- Z.pow_succ_r by lia. f_equal. lia. }
  assert (Hm : 0 < 2 ^ (bits - 1) <= 2 ^ 63).
  { split; [apply Z.pow_pos_nonneg; lia | apply Z.pow_le_mono_r; lia]. }
  rewrite Z.shiftl_1_l. rewrite (wrap64_small (2 ^ (bits - 1))) by lia.
  destruct (Z.ltb_spec value (2 ^ (bits - 1))) as [Hlow | Hhigh].
  - rewrite <- Z.add_nocarry_lxor by (apply low_bits_disjoint; lia).
    f_equal. lia.
  - replace value with ((value - 2 ^ (bits - 1)) + 2 ^ (bits - 1)) at 1 by lia.
    rewrite (Z.add_nocarry_lxor (value - 2 ^ (bits - 1)))
      by (apply low_bits_disjoint; lia).
    rewrite Z.lxor_assoc, Z.lxor_nilpotent, Z.lxor_0_r. f_equal. lia.
Qed.

Lemma sign_extend_spec_witness :
  sign_extend 0xFF 8 = 2 ^ 64 - 1 /\ sign_extend 0x7F 8 = 0x7F.
Proof.
  split.
  - apply (sign_extend_spec 0xFF 8); lia.
  - apply (sign_extend_spec 0x7F 8); lia.
Defined.








Lemma stage_set_same (p : Pipeline) (s : PipelineStage) (r : PipelineRegister) :
  stage (set_stage p s r) s = r.
Proof. destruct s; reflexivity. Qed.

Lemma stage_set_other (p : Pipeline) (s s' : PipelineStage) (r : PipelineRegister) :
  s <> s' -> stage (set_stage p s r) s' = stage p s'.
Proof. intros Hne. destruct s, s'; try reflexivity; contradiction. Qed.

Lemma bubble_free_set (p : Pipeline) (s0 : PipelineStage) (r : PipelineRegister) :
  (forall s, bubble (stage p s) = false) -> bubble r = false ->
  forall s, bubble (stage (set_stage p s0 r) s) = false.
Proof.
  intros Hp Hr s. rewrite stage_set_stage. destruct (decide (s0 = s)); auto.
Qed.

Ltac branch_cases :=
  repeat match goal with
         | |- context [if ?b then _ else _] => destruct b
         | |- context [let '(_, _) := ?x in _] => destruct x
         end.

(** What each stage does to a processor whose upstream register is not a
    bubble: one pipeline register is replaced, the counters that the stage
    does not own are unchanged. *)
Lemma stage_commit_shape (cpu : CPU) :
  bubble (stage (pipeline cpu) STAGE_WRITEBACK) = false ->
  let cpu' := stage_commit cpu in
  pipeline cpu'
  = set_stage (set_stage (pipeline cpu) STAGE_COMMIT
                         (stage (pipeline cpu) STAGE_WRITEBACK))
              STAGE_FETCH
              (pr_with_stall (stage (pipeline cpu) STAGE_FETCH) false) /\
  bubbles cpu' = bubbles cpu /\ cycles cpu' = cycles cpu /\
  instructions cpu' = instructions cpu /\ stalls cpu' = stalls cpu /\
  pc cpu' = pc cpu.
Proof.
  intros Hb. unfold stage_commit. rewrite Hb. cbn.
  rewrite stage_set_other by discriminate. repeat split.
Qed.

Lemma stage_writeback_shape (cpu : CPU) :
  bubble (stage (pipeline cpu) STAGE_MEMORY) = false ->
  let cpu' := stage_writeback cpu in
  pipeline cpu'
  = set_stage (pipeline cpu) STAGE_WRITEBACK
              (pr_with_cycle (stage (pipeline cpu) STAGE_MEMORY) (cycles cpu)) /\
  bubbles cpu' = bubbles cpu /\ cycles cpu' = cycles cpu /\
  instructions cpu' = wrap64 (instructions cpu + 1) /\ stalls cpu' = stalls cpu /\
  pc cpu' = pc cpu.
Proof.
  intros Hb. unfold stage_writeback. rewrite Hb. branch_cases; repeat split.
Qed.

Lemma stage_memory_shape (cpu : CPU) :
  bubble (stage (pipeline cpu) STAGE_EXECUTE) = false ->
  let cpu' := stage_memory cpu in
  (exists r, pipeline cpu' = set_stage (pipeline cpu) STAGE_MEMORY r /\
             bubble r = false /\ dest r = dest (stage (pipeline cpu) STAGE_EXECUTE) /\
             type r = type (stage (pipeline cpu) STAGE_EXECUTE)) /\
  bubbles cpu' = bubbles cpu /\ cycles cpu' = cycles cpu /\
  instructions cpu' = instructions cpu /\ stalls cpu' = stalls cpu /\
  pc cpu' = pc cpu.
Proof.
  intros Hb. unfold stage_memory. rewrite Hb.
  branch_cases; (split; [eexists; split; [reflexivity |]; cbn; auto |]);
    repeat split.
Qed.

Lemma stage_execute_shape (cpu : CPU) :
  bubble (stage (pipeline cpu) STAGE_DECODE) = false ->
  let cpu' := stage_execute cpu in
  (exists r, pipeline cpu' = set_stage (pipeline cpu) STAGE_EXECUTE r /\
             bubble r = false /\ dest r = dest (stage (pipeline cpu) STAGE_DECODE) /\
             type r = type (stage (pipeline cpu) STAGE_DECODE)) /\
  bubbles cpu' = bubbles cpu /\ cycles cpu' = cycles cpu /\
  instructions cpu' = instructions cpu /\ stalls cpu' = stalls cpu /\
  pc cpu' = pc cpu.
Proof.
  intros Hb. unfold stage_execute. rewrite Hb.
  branch_cases; (split; [eexists; split; [reflexivity |]; cbn; auto |]);
    repeat split.
Qed.


Lemma quiet_commit (cpu : CPU) :
  quiet cpu ->
  let cpu' := stage_commit cpu in
  quiet cpu' /\ stall (stage (pipeline cpu') STAGE_FETCH) = false /\
  cycles cpu' = cycles cpu /\ instructions cpu' = instructions cpu.
Proof.
  intros (Hd & Hs1 & Hs2 & Hb & Hbub).
  destruct (stage_commit_shape cpu (Hb _)) as (Hp & Hbub' & Hc & Hi & _).
  cbv zeta. unfold quiet. rewrite Hp, Hbub', Hc, Hi, !stage_set_same.
  repeat split; try assumption.
  - repeat apply dest_zero_set; try assumption; apply Hd.
  - repeat apply bubble_free_set; try assumption; apply Hb.
Qed.

Lemma quiet_replace (cpu cpu' : CPU) (s : PipelineStage) (r : PipelineRegister) :
  quiet cpu -> s <> STAGE_FETCH ->
  pipeline cpu' = set_stage (pipeline cpu) s r ->
  bubble r = false -> dest r = 0 -> bubbles cpu' = bubbles cpu ->
  quiet cpu' /\
  stage (pipeline cpu') STAGE_FETCH = stage (pipeline cpu) STAGE_FETCH.
Proof.
  intros (Hd & Hs1 & Hs2 & Hb & Hbub) Hs Hp Hr Hdr Hbub'.
  unfold quiet. rewrite Hp, Hbub', !stage_set_other by exact Hs.
  repeat split; try assumption.
  - apply dest_zero_set; assumption.
  - apply bubble_free_set; assumption.
Qed.

Lemma quiet_writeback (cpu : CPU) :
  quiet cpu ->
  let cpu' := stage_writeback cpu in
  quiet cpu' /\
  stage (pipeline cpu') STAGE_FETCH = stage (pipeline cpu) STAGE_FETCH /\
  cycles cpu' = cycles cpu /\ instructions cpu' = wrap64 (instructions cpu + 1).
Proof.
  intros Hq. pose proof Hq as (Hd & _ & _ & Hb & _).
  destruct (stage_writeback_shape cpu (Hb _)) as (Hp & Hbub' & Hc & Hi & _).
  destruct (quiet_replace cpu _ STAGE_WRITEBACK _ Hq ltac:(discriminate) Hp
              (Hb STAGE_MEMORY) (Hd STAGE_MEMORY) Hbub').
  cbv zeta. auto.
Qed.

Lemma quiet_memory (cpu : CPU) :
  quiet cpu ->
  let cpu' := stage_memory cpu in
  quiet cpu' /\
  stage (pipeline cpu') STAGE_FETCH = stage (pipeline cpu) STAGE_FETCH /\
  cycles cpu' = cycles cpu /\ instructions cpu' = instructions cpu.
Proof.
  intros Hq. pose proof Hq as (Hd & _ & _ & Hb & _).
  destruct (stage_memory_shape cpu (Hb _))
    as ((r & Hp & Hr & Hdr & _) & Hbub' & Hc & Hi & _).
  rewrite (Hd _) in Hdr.
  destruct (quiet_replace cpu _ STAGE_MEMORY _ Hq ltac:(discriminate) Hp Hr Hdr Hbub').
  cbv zeta. auto.
Qed.

Lemma quiet_execute (cpu : CPU) :
  quiet cpu ->
  let cpu' := stage_execute cpu in
  quiet cpu' /\
  stage (pipeline cpu') STAGE_FETCH = stage (pipeline cpu) STAGE_FETCH /\
  cycles cpu' = cycles cpu /\ instructions cpu' = instructions cpu.
Proof.
  intros Hq. pose proof Hq as (Hd & _ & _ & Hb & _).
  destruct (stage_execute_shape cpu (Hb _))
    as ((r & Hp & Hr & Hdr & _) & Hbub' & Hc & Hi & _).
  rewrite (Hd _) in Hdr.
  destruct (quiet_replace cpu _ STAGE_EXECUTE _ Hq ltac:(discriminate) Hp Hr Hdr Hbub').
  cbv zeta. auto.
Qed.

(** In a quiet processor the hazard check of Decode fires exactly when an
    instruction other than a no-op is anywhere from Execute to Commit. *)
Lemma quiet_hazard (cpu : CPU) :
  quiet cpu ->
  check_hazard cpu STAGE_DECODE (src1 (stage (pipeline cpu) STAGE_FETCH))
  || check_hazard cpu STAGE_DECODE (src2 (stage (pipeline cpu) STAGE_FETCH))
  = existsb (fun s => negb (type_eqb (type (stage (pipeline cpu) s)) INST_NOP))
            (stages_after STAGE_DECODE).
Proof.
  intros (Hd & Hs1 & Hs2 & _). rewrite Hs1, Hs2. unfold check_hazard.
  cbn [stages_after existsb]. rewrite !Hd. cbn [Z.eqb andb].
  apply orb_diag.
Qed.

Lemma quiet_decode_fetch (cpu : CPU) :
  quiet cpu -> stall (stage (pipeline cpu) STAGE_FETCH) = false ->
  let cpu' := stage_fetch (stage_decode cpu) in
  quiet cpu' /\ cycles cpu' = cycles cpu /\ instructions cpu' = instructions cpu.
Proof.
  intros Hq Hstall. pose proof Hq as (Hd & Hs1 & Hs2 & Hb & Hbub).
  cbv zeta. unfold stage_decode. rewrite (Hb STAGE_FETCH).
  rewrite (quiet_hazard cpu Hq).
  destruct (existsb _ _) eqn:Hhaz.
  - unfold stage_fetch. cbn [pipeline with_stalls with_pipeline].
    rewrite stage_set_other by discriminate. rewrite stage_set_same.
    cbn [stall pr_with_stall]. unfold quiet. cbn.
    rewrite !stage_set_other by discriminate. rewrite !stage_set_same.
    repeat split; try assumption.
    + repeat apply dest_zero_set; try assumption; apply Hd.
    + repeat apply bubble_free_set; try assumption; apply Hb.
  - cbn [stages_after existsb] in Hhaz.
    apply orb_false_iff in Hhaz as [Hex _]. apply negb_false_iff in Hex.
    unfold stage_fetch. cbn [pipeline with_pipeline].
    rewrite stage_set_other by discriminate. rewrite Hstall.
    unfold fetch_check_mispredict. cbn [pipeline with_pipeline].
    rewrite stage_set_other by discriminate.
    assert (Hnop : type (stage (pipeline cpu) STAGE_EXECUTE) = INST_NOP).
    { unfold type_eqb in Hex. apply bool_decide_eq_true in Hex. exact Hex. }
    rewrite Hnop. cbn [is_jump type_eqb orb].
    replace (is_jump INST_NOP) with false by reflexivity.
    unfold fetch_instruction.
    destruct (CacheModel.cache_access _ _ _) as [lat l1].
    unfold quiet. cbn. rewrite !stage_set_same.
    rewrite !stage_set_other by discriminate.
    repeat split; try assumption.
    + repeat apply dest_zero_set; try assumption; cbn; apply Hd.
    + repeat apply bubble_free_set; try assumption; cbn; apply Hb.
Qed.

Lemma bubbles_with_cycles (c : CPU) (v : Z) : bubbles (with_cycles c v) = bubbles c.
Proof. reflexivity. Qed.

Lemma cycles_with_cycles (c : CPU) (v : Z) : cycles (with_cycles c v) = v.
Proof. reflexivity. Qed.

Lemma instructions_with_cycles (c : CPU) (v : Z) :
  instructions (with_cycles c v) = instructions c.
Proof. reflexivity. Qed.

(** One cycle of a quiet processor: it stays quiet, and both the cycle
    counter and the retired-instruction counter go up by one. *)
Lemma quiet_step (cpu : CPU) :
  quiet cpu ->
  quiet (cpu_step cpu) /\
  cycles (cpu_step cpu) = wrap64 (cycles cpu + 1) /\
  instructions (cpu_step cpu) = wrap64 (instructions cpu + 1).
Proof.
  intros Hq. rewrite cpu_step_eq. cbv zeta.
  destruct (quiet_commit cpu Hq) as (Hq1 & Hst1 & Hc1 & Hi1).
  destruct (quiet_writeback _ Hq1) as (Hq2 & Hf2 & Hc2 & Hi2).
  destruct (quiet_memory _ Hq2) as (Hq3 & Hf3 & Hc3 & Hi3).
  destruct (quiet_execute _ Hq3) as (Hq4 & Hf4 & Hc4 & Hi4).
  assert (Hst4 : stall (stage (pipeline (stage_execute (stage_memory
                   (stage_writeback (stage_commit cpu))))) STAGE_FETCH) = false)
    by (rewrite Hf4, Hf3, Hf2; exact Hst1).
  destruct (quiet_decode_fetch _ Hq4 Hst4) as (Hq5 & Hc5 & Hi5).
  cbv zeta in Hq5, Hc5, Hi5.
  set (c5 := stage_fetch (stage_decode (stage_execute (stage_memory
               (stage_writeback (stage_commit cpu)))))) in *.
  split; [| split].
  - destruct Hq5 as (Hd & Hs1 & Hs2 & Hb & Hbub). unfold quiet.
    rewrite pipeline_with_cycles, bubbles_with_cycles.
    exact (conj Hd (conj Hs1 (conj Hs2 (conj Hb Hbub)))).
  - rewrite cycles_with_cycles, Hc5, Hc4, Hc3, Hc2, Hc1. reflexivity.
  - rewrite instructions_with_cycles, Hi5, Hi4, Hi3, Hi2, Hi1. reflexivity.
Qed.

Lemma wrap64_succ (z : Z) : wrap64 (wrap64 z + 1) = wrap64 (z + 1).
Proof. unfold wrap64. apply Zplus_mod_idemp_l. Qed.

Lemma quiet_run (n : nat) (cpu : CPU) :
  quiet cpu ->
  quiet (cpu_run cpu (S n)) /\
  cycles (cpu_run cpu (S n)) = wrap64 (cycles cpu + Z.of_nat (S n)) /\
  instructions (cpu_run cpu (S n)) = wrap64 (instructions cpu + Z.of_nat (S n)).
Proof.
  intros Hq. induction n as [| n (IHq & IHc & IHi)].
  - change (cpu_run cpu 1) with (cpu_step cpu).
    destruct (quiet_step cpu Hq) as (H1 & H2 & H3). auto.
  - rewrite cpu_run_S.
    destruct (quiet_step _ IHq) as (H1 & H2 & H3).
    rewrite H2, H3, IHc, IHi, !wrap64_succ.
    split; [exact H1 |]. split; f_equal; lia.
Qed.


(** X15.  A cycle in which Decode finds a hazard counts two stalls, one in
    Decode and one in Fetch: Decode is given a no-op, the Fetch register
    keeps its instruction with the stall flag set, and the program counter
    does not move. *)
Theorem hazard_cycle_counts_two_stalls (cpu : CPU) :
  let fr := stage (pipeline cpu) STAGE_FETCH in
  bubble fr = false ->
  check_hazard cpu STAGE_DECODE (src1 fr) || check_hazard cpu STAGE_DECODE (src2 fr)
  = true ->
  let cpu' := stage_fetch (stage_decode cpu) in
  stalls cpu' = wrap64 (wrap64 (stalls cpu + 1) + 1) /\
  pc cpu' = pc cpu /\ bubbles cpu' = bubbles cpu /\
  type (stage (pipeline cpu') STAGE_DECODE) = INST_NOP /\
  stage (pipeline cpu') STAGE_FETCH = pr_with_stall fr true /\
  forall s, s <> STAGE_FETCH -> s <> STAGE_DECODE ->
            stage (pipeline cpu') s = stage (pipeline cpu) s.
Proof.
  intros fr Hb Hhaz. cbv zeta. unfold stage_decode. fold fr. rewrite Hb, Hhaz.
  unfold stage_fetch. cbn [pipeline with_stalls with_pipeline].
  rewrite stage_set_other by discriminate. rewrite stage_set_same.
  cbn [stall pr_with_stall]. cbn.
  rewrite stage_set_same, stage_set_other, stage_set_same by discriminate.
  repeat split.
  intros s Hs1 Hs2. rewrite !stage_set_other by congruence. reflexivity.
Qed.

Lemma hazard_cycle_counts_two_stalls_witness :
  let cpu := taken_jump_in_execute in
  stalls (stage_fetch (stage_decode cpu)) = 2 /\
  pc (stage_fetch (stage_decode cpu)) = pc cpu.
Proof.
  intros cpu.
  destruct (hazard_cycle_counts_two_stalls cpu) as (Hs & Hpc & _);
    try reflexivity.
  exact (conj Hs Hpc).
Defined.

End PipelineMore.

(** ** A mispredicted jump in a run from reset *)

Section MispredictedRun.
Import Isa Pipe.

(** C2 (what the code does).  [aliased_branches] is loaded at address 0 of a
    freshly created processor and run.  In cycle 8203 the jump of address
    8192 is in Execute: it is taken, to target 0, and the predictor, asked
    again as the fetch stage would ask it, says not taken.  The fetch stage
    of that cycle flushes nothing: Fetch is stalled by the hazard that
    Decode found in the same cycle, so the stage returns before its
    misprediction check; the pipeline is as Decode left it, the program
    counter stays at 8194 and the bubble counter at 0.  The check itself,
    applied to the same state, would not flush either, because it takes
    [result != 0] for the outcome and the target is 0.  No cycle of the run
    ever counts a bubble. *)
Theorem mispredicted_jump_is_not_flushed :
  exists cpu0,
    cpu_create 16384 (replicate (Z.to_nat 16384) 0) 0 = Some cpu0 /\
    let loaded := snd (cpu_load_program cpu0 aliased_branches 0) in
    (forall m, bubbles (cpu_run loaded m) = 0) /\
    let before :=
      stage_decode
        (stage_execute
           (stage_memory
              (stage_writeback (stage_commit (cpu_run loaded 8202))))) in
    let ex := stage (pipeline before) STAGE_EXECUTE in
    let after := stage_fetch before in
    type ex = INST_JMP /\ bubble ex = false /\
    pr_pc ex = 8192 /\ result ex = 0 /\ branch_taken ex = true /\
    fst (BP.bp_predict (bp before) (pr_pc ex)) = false /\
    stall (stage (pipeline before) STAGE_FETCH) = true /\
    pipeline after = pipeline before /\
    (forall s, bubble (stage (pipeline after) s) = false) /\
    pc before = 8194 /\ pc after = 8194 /\ bubbles after = 0 /\
    pc (fetch_check_mispredict before) = 8194 /\
    bubbles (fetch_check_mispredict before) = 0.
Proof.
  eexists. split; [reflexivity |]. intros loaded. split.
  - assert (Hquiet : quiet loaded).
    { subst loaded. unfold cpu_load_program. destruct (_ <? _); cbn [snd];
        (split; [intros []; reflexivity |]);
        (split; [reflexivity |]); (split; [reflexivity |]);
        (split; [intros []; reflexivity | reflexivity]). }
    intros [| m].
    + apply Hquiet.
    + destruct (quiet_run m _ Hquiet) as (Hq & _). apply Hq.
  - subst loaded. vm_compute.
    repeat split. intros []; reflexivity.
Qed.

End MispredictedRun.

(** ** The memory stage: a store followed by a load *)

Section PipelineMemory.
Import Isa Pipe.
#[local] Arguments set_stage : simpl never.
#[local] Arguments stage : simpl never.

Lemma stage_memory_store (cpu : CPU) :
  let pr := stage (pipeline cpu) STAGE_EXECUTE in
  bubble pr = false -> type pr = INST_ST ->
  memory (stage_memory cpu) = write_u64 (memory cpu) (mem_addr pr) (mem_data pr) /\
  l1_cache (stage_memory cpu)
  = snd (CacheModel.cache_access (l1_cache cpu) (mem_addr pr) true) /\
  stage (pipeline (stage_memory cpu)) STAGE_MEMORY = pr_with_cycle pr (cycles cpu) /\
  registers (stage_memory cpu) = registers cpu.
Proof.
  intros pr Hb Ht. unfold stage_memory. fold pr. rewrite Hb. cbv zeta.
  change (type (pr_with_cycle pr (cycles cpu))) with (type pr). rewrite Ht.
  change (type_eqb INST_ST INST_LD) with false.
  change (type_eqb INST_ST INST_ST) with true. cbv iota.
  change (mem_addr (pr_with_cycle pr (cycles cpu))) with (mem_addr pr).
  destruct (CacheModel.cache_access _ _ true) as [lat l1].
  cbn [snd memory l1_cache pipeline with_memory with_pipeline with_l1_cache registers].
  rewrite stage_set_same. repeat split.
Qed.

Lemma stage_memory_load (cpu : CPU) :
  let pr := stage (pipeline cpu) STAGE_EXECUTE in
  bubble pr = false -> type pr = INST_LD ->
  memory (stage_memory cpu) = memory cpu /\
  l1_cache (stage_memory cpu)
  = snd (CacheModel.cache_access (l1_cache cpu) (mem_addr pr) false) /\
  stage (pipeline (stage_memory cpu)) STAGE_MEMORY
  = pr_with_result (pr_with_cycle pr (cycles cpu))
                   (read_u64 (memory cpu) (mem_addr pr)) /\
  registers (stage_memory cpu) = registers cpu.
Proof.
  intros pr Hb Ht. unfold stage_memory. fold pr. rewrite Hb. cbv zeta.
  change (type (pr_with_cycle pr (cycles cpu))) with (type pr). rewrite Ht.
  change (type_eqb INST_LD INST_LD) with true. cbv iota.
  change (mem_addr (pr_with_cycle pr (cycles cpu))) with (mem_addr pr).
  destruct (CacheModel.cache_access _ _ false) as [lat l1].
  cbn [snd memory l1_cache pipeline with_memory with_pipeline with_l1_cache registers].
  rewrite stage_set_same. repeat split.
Qed.

Lemma hit_counts (c : CacheModel.Cache) (a : Z) (w : bool) (i : Z) :
  CacheModel.find_hit c (CacheModel.set_of c a) (CacheModel.tag_of c a) = Some i ->
  CacheModel.hits (snd (CacheModel.cache_access c a w))
  = wrap64 (CacheModel.hits c + 1) /\
  CacheModel.misses (snd (CacheModel.cache_access c a w)) = CacheModel.misses c.
Proof.
  intros H. unfold CacheModel.cache_access. rewrite H. split; reflexivity.
Qed.

(** X16.  Store, then load, through the memory stage.  A store placed in the
    Execute register writes its eight data bytes at its address and nowhere
    else; a load of the same address that follows it reads the stored word
    back into its result, leaves memory as it is, and hits in the L1 cache. *)
Theorem store_then_load (cpu : CPU) (st ld : PipelineRegister) :
  bubble st = false -> type st = INST_ST ->
  bubble ld = false -> type ld = INST_LD -> mem_addr ld = mem_addr st ->
  0 <= mem_addr st -> mem_addr st + 8 <= Z.of_nat (length (memory cpu)) ->
  0 <= mem_data st < 2 ^ 64 -> CacheModel.cache_wf (l1_cache cpu) ->
  let cpu1 :=
    stage_memory (with_pipeline cpu (set_stage (pipeline cpu) STAGE_EXECUTE st)) in
  let cpu2 :=
    stage_memory (with_pipeline cpu1 (set_stage (pipeline cpu1) STAGE_EXECUTE ld)) in
  result (stage (pipeline cpu2) STAGE_MEMORY) = mem_data st /\
  memory cpu2 = memory cpu1 /\
  length (memory cpu1) = length (memory cpu) /\
  (forall j, 0 <= j -> j < mem_addr st \/ mem_addr st + 8 <= j ->
             zget (memory cpu1) j = zget (memory cpu) j) /\
  CacheModel.misses (l1_cache cpu2) = CacheModel.misses (l1_cache cpu1) /\
  CacheModel.hits (l1_cache cpu2) = wrap64 (CacheModel.hits (l1_cache cpu1) + 1).
Proof.
  intros Hbs Hts Hbl Htl Haddr Ha Hlen Hdata Hwf cpu1 cpu2.
  destruct (stage_memory_store
              (with_pipeline cpu (set_stage (pipeline cpu) STAGE_EXECUTE st)))
    as (Hm1 & Hc1 & _ & _).
  { cbn [pipeline with_pipeline]. rewrite stage_set_same. exact Hbs. }
  { cbn [pipeline with_pipeline]. rewrite stage_set_same. exact Hts. }
  cbn [pipeline with_pipeline memory l1_cache] in Hm1, Hc1.
  rewrite stage_set_same in Hm1, Hc1. fold cpu1 in Hm1, Hc1.
  destruct (stage_memory_load
              (with_pipeline cpu1 (set_stage (pipeline cpu1) STAGE_EXECUTE ld)))
    as (Hm2 & Hc2 & Hr2 & _).
  { cbn [pipeline with_pipeline]. rewrite stage_set_same. exact Hbl. }
  { cbn [pipeline with_pipeline]. rewrite stage_set_same. exact Htl. }
  cbn [pipeline with_pipeline memory l1_cache cycles] in Hm2, Hc2, Hr2.
  rewrite stage_set_same in Hc2, Hr2. fold cpu2 in Hm2, Hc2, Hr2.
  rewrite Hr2, Hm2, Hc2, Hm1, Haddr. cbn [result pr_with_result].
  split; [apply read_write_u64; assumption |].
  split; [reflexivity |].
  split; [apply length_write_u64 |].
  split; [intros j Hj Hout; apply zget_write_u64_other; assumption |].
  rewrite Hc1.
  destruct (access_makes_resident (l1_cache cpu) (mem_addr st) true Hwf) as [i Hi].
  rewrite <- (set_of_access _ (mem_addr st) _ true),
          <- (tag_of_access _ (mem_addr st) _ true) in Hi.
  apply (hit_counts _ _ false) in Hi. destruct Hi as [Hh Hm].
  split; assumption.
Qed.

Lemma store_then_load_witness :
  let st := mkPR 0 INST_ST 17 0 0 0 0 0 0x100 77 false false 0 in
  let ld := mkPR 1 INST_LD 16 0 0 0 0 0 0x100 0 false false 0 in
  let cpu1 :=
    stage_memory (with_pipeline stalled_with_taken_jump
                    (set_stage (pipeline stalled_with_taken_jump) STAGE_EXECUTE st)) in
  let cpu2 :=
    stage_memory (with_pipeline cpu1 (set_stage (pipeline cpu1) STAGE_EXECUTE ld)) in
  result (stage (pipeline cpu2) STAGE_MEMORY) = 77.
Proof.
  intros st ld cpu1 cpu2.
  assert (Hlen : mem_addr st + 8
                 <= Z.of_nat (length (memory stalled_with_taken_jump))).
  { cbn [memory stalled_with_taken_jump mem_addr st]. rewrite length_replicate. lia. }
  exact (proj1 (store_then_load stalled_with_taken_jump st ld
                  eq_refl eq_refl eq_refl eq_refl eq_refl
                  ltac:(cbn; lia) Hlen ltac:(cbn; lia)
                  (two_way_wf CacheModel.CACHE_SET_ASSOC))).
Defined.
End PipelineMemory.

(** ** Out-of-order engine: the commit loop and the stations that never resume *)

Section TomasuloMore.
Import Isa Tomasulo.

Lemma commit_head_fields (cpu : TomasuloCPU) :
  rs (commit_head cpu) = rs cpu /\
  rob_size (commit_head cpu) = rob_size cpu /\
  rs_count (commit_head cpu) = rs_count cpu /\
  rob_head (commit_head cpu) = Z.rem (rob_head cpu + 1) (rob_size cpu) /\
  instructions_committed (commit_head cpu)
  = wrap64 (instructions_committed cpu + 1).
Proof. repeat split. Qed.

Lemma iter_commit_head_fields (k : nat) (cpu : TomasuloCPU) :
  0 < rob_size cpu -> 0 <= rob_head cpu ->
  let cpu' := Nat.iter k commit_head cpu in
  rs cpu' = rs cpu /\ rob_size cpu' = rob_size cpu /\
  rob_head cpu' = (rob_head cpu + Z.of_nat k) mod rob_size cpu /\
  0 <= rob_head cpu' /\
  instructions_committed cpu'
  = wrap64 (instructions_committed cpu + Z.of_nat k) \/
  k = O.
Proof.
  intros Hsize Hhead. destruct k as [| k]; [right; reflexivity | left].
  induction k as [| k IH].
  - cbn [Nat.iter nat_rect]. change (Nat.iter 1 commit_head cpu) with (commit_head cpu).
    destruct (commit_head_fields cpu) as (-> & -> & _ & -> & ->).
    rewrite Z.rem_mod_nonneg by lia.
    pose proof (Z.mod_pos_bound (rob_head cpu + 1) (rob_size cpu) Hsize).
    repeat split; try reflexivity; lia.
  - cbv zeta in IH. destruct IH as (Hrs & Hsz & Hh & Hh0 & Hc).
    change (Nat.iter (S (S k)) commit_head cpu)
      with (commit_head (Nat.iter (S k) commit_head cpu)).
    cbv zeta.
    destruct (commit_head_fields (Nat.iter (S k) commit_head cpu))
      as (-> & -> & _ & -> & ->).
    rewrite Hrs, Hsz, Hh, Hc. rewrite Z.rem_mod_nonneg by (rewrite <- ?Hh; lia).
    rewrite Zplus_mod_idemp_l. unfold wrap64. rewrite Zplus_mod_idemp_l.
    pose proof (Z.mod_pos_bound (rob_head cpu + Z.of_nat (S k) + 1)
                  (rob_size cpu) Hsize).
    repeat split; try lia; f_equal; lia.
Qed.

Lemma commit_loop_is_a_run (fuel : nat) (cpu : TomasuloCPU) :
  exists k : nat,
    (k <= fuel)%nat /\
    commit_loop fuel cpu = Nat.iter k commit_head cpu /\
    forall i, (i < k)%nat -> head_ready (Nat.iter i commit_head cpu) = true.
Proof.
  revert cpu. induction fuel as [| fuel IH]; intros cpu.
  - exists O. repeat split; [reflexivity | intros; lia].
  - cbn [commit_loop]. destruct (head_ready cpu) eqn:Hready.
    + destruct (IH (commit_head cpu)) as (k & Hk & Heq & Hall).
      exists (S k). split; [lia |]. split.
      * rewrite Heq. symmetry. apply Nat.iter_succ_r.
      * intros i Hi. destruct i as [| i]; [exact Hready |].
        rewrite Nat.iter_succ_r. apply Hall. lia.
    + exists O. repeat split; [lia | intros; lia].
Qed.

(** X17.  In-order retirement.  [tomasulo_commit] always returns; it retires
    [k <= rob_size] entries, each the head entry at its turn and each busy and
    ready when retired, and stops at the first head entry that is free or not
    ready.  The head has then advanced by [k] around the buffer, [k] commits
    have been counted and no reservation station has changed. *)
Theorem tomasulo_commit_retires_head_run (cpu : TomasuloCPU) :
  engine_wf cpu -> 0 <= instructions_committed cpu < 2 ^ 64 ->
  exists k : nat,
    (k <= Z.to_nat (rob_size cpu))%nat /\
    tomasulo_commit cpu = Nat.iter k commit_head cpu /\
    (forall i, (i < k)%nat -> head_ready (Nat.iter i commit_head cpu) = true) /\
    head_ready (tomasulo_commit cpu) = false /\
    rob_head (tomasulo_commit cpu)
    = (rob_head cpu + Z.of_nat k) mod rob_size cpu /\
    instructions_committed (tomasulo_commit cpu)
    = wrap64 (instructions_committed cpu + Z.of_nat k) /\
    rs (tomasulo_commit cpu) = rs cpu.
Proof.
  intros Hwf Hcount. pose proof (tomasulo_commit_stops cpu Hwf) as Hstop.
  destruct Hwf as (_ & _ & _ & Hsize & Hhead & _ & _ & _).
  unfold tomasulo_commit in *.
  destruct (commit_loop_is_a_run (Z.to_nat (rob_size cpu)) cpu)
    as (k & Hk & Heq & Hall).
  exists k. rewrite Heq in *.
  destruct (iter_commit_head_fields k cpu Hsize ltac:(lia))
    as [(Hrs & _ & Hh & _ & Hc) | ->].
  - repeat split; assumption.
  - change (Nat.iter 0 commit_head cpu) with cpu in *.
    rewrite !Z.add_0_r, Z.mod_small, wrap64_small by lia.
    repeat split; assumption.
Qed.

Lemma tomasulo_commit_retires_head_run_witness :
  let s := tomasulo_writeback
             (tomasulo_execute (issue_all loaded_engine dependency_chain)) in
  exists k : nat,
    tomasulo_commit s = Nat.iter k commit_head s /\
    rob_head (tomasulo_commit s) = (rob_head s + Z.of_nat k) mod rob_size s /\
    head_ready (tomasulo_commit s) = false.
Proof.
  intros s.
  assert (Hwf : engine_wf s).
  { unfold engine_wf. repeat split; try reflexivity; vm_compute; congruence. }
  assert (Hcount : 0 <= instructions_committed s < 2 ^ 64).
  { split; vm_compute; congruence. }
  destruct (tomasulo_commit_retires_head_run s Hwf Hcount)
    as (k & _ & Heq & _ & Hstop & Hhead & _).
  exists k. exact (conj Heq (conj Hhead Hstop)).
Defined.

Lemma waiting_not_executed (cpu : TomasuloCPU) (i j : Z) :
  0 <= i -> 0 <= j -> waiting (rs_at cpu i) ->
  rs_at (execute_at cpu j) i = rs_at cpu i.
Proof.
  intros Hi Hj (Hbusy & Hready & Htag). unfold execute_at.
  destruct (Z.eq_dec j i) as [-> | Hne].
  - destruct (RS.busy (rs_at cpu i) && (RS.qj (rs_at cpu i) =? 0)
              && (RS.qk (rs_at cpu i) =? 0)) eqn:Hcond; [| reflexivity].
    apply andb_true_iff in Hcond as [Hc Hk]. apply andb_true_iff in Hc as [_ Hq].
    apply Z.eqb_eq in Hq, Hk. lia.
  - destruct (_ && _); [| reflexivity]. unfold rs_at. cbn [rs].
    rewrite list_lookup_insert_ne by lia. reflexivity.
Qed.

Lemma waiting_not_written_back (cpu : TomasuloCPU) (i j : Z) :
  0 <= i -> 0 <= j -> waiting (rs_at cpu i) ->
  rs_at (writeback_at cpu j) i = rs_at cpu i.
Proof.
  intros Hi Hj (Hbusy & Hready & Htag). unfold writeback_at.
  destruct (Z.eq_dec j i) as [-> | Hne].
  - rewrite Hbusy, Hready. reflexivity.
  - destruct (_ && _); [| reflexivity]. unfold rs_at. cbn [rs].
    rewrite list_lookup_insert_ne by lia. reflexivity.
Qed.

Lemma waiting_fold (f : TomasuloCPU -> Z -> TomasuloCPU) (l : list Z)
      (cpu : TomasuloCPU) (i : Z) :
  (forall c j, 0 <= j -> waiting (rs_at c i) -> rs_at (f c j) i = rs_at c i) ->
  Forall (fun j => 0 <= j) l -> waiting (rs_at cpu i) ->
  rs_at (fold_left f l cpu) i = rs_at cpu i.
Proof.
  intros Hf. revert cpu. induction l as [| j l IH]; intros cpu Hl Hw; cbn;
    [reflexivity |].
  apply Forall_cons in Hl as [Hj Hl].
  rewrite IH; [apply Hf; assumption | exact Hl |].
  rewrite Hf; assumption.
Qed.

Lemma indices_nonneg (n : Z) : Forall (fun j => 0 <= j) (indices n).
Proof.
  unfold indices. apply Forall_forall. intros j Hj.
  apply list_elem_of_fmap in Hj as (k & -> & _). lia.
Qed.

Lemma waiting_commit_loop (fuel : nat) (cpu : TomasuloCPU) :
  rs (commit_loop fuel cpu) = rs cpu.
Proof.
  revert cpu. induction fuel as [| fuel IH]; intros cpu; cbn; [reflexivity |].
  destruct (head_ready cpu); [| reflexivity]. rewrite IH. reflexivity.
Qed.

Lemma waiting_one_call (cpu : TomasuloCPU) (c : engine_call) (i : Z) :
  0 <= i -> waiting (rs_at cpu i) -> rs_at (do_call cpu c) i = rs_at cpu i.
Proof.
  intros Hi Hw. destruct c as [inst | | |]; cbn [do_call].
  - unfold tomasulo_issue, find_free_station.
    destruct (CacheModel.find_from _ 0 _) as [k |] eqn:Hfind; [| reflexivity].
    apply find_from_Some in Hfind as (Hk & Hfree & _).
    apply negb_true_iff in Hfree. cbn [snd]. unfold issue_at, rs_at. cbn [rs].
    destruct (Z.eq_dec k i) as [-> | Hne].
    + destruct Hw as (Hbusy & _). rewrite Hbusy in Hfree. discriminate.
    + rewrite list_lookup_insert_ne by lia. reflexivity.
  - apply waiting_fold; [| apply indices_nonneg | exact Hw].
    intros c j Hj Hc. apply waiting_not_executed; assumption.
  - apply waiting_fold; [| apply indices_nonneg | exact Hw].
    intros c j Hj Hc. apply waiting_not_written_back; assumption.
  - unfold tomasulo_commit, rs_at. rewrite waiting_commit_loop. reflexivity.
Qed.

(** X18.  Nothing ever resolves a pending operand tag: a station that holds an
    instruction waiting for a producer is left exactly as it is by every
    call of the engine, so under any sequence of issue, execute, writeback
    and commit calls it never executes and is never freed. *)
Theorem waiting_station_never_resumes
        (cs : list engine_call) (cpu : TomasuloCPU) (i : Z) :
  0 <= i -> waiting (rs_at cpu i) ->
  rs_at (do_calls cpu cs) i = rs_at cpu i.
Proof.
  intros Hi. revert cpu. induction cs as [| c cs IH]; intros cpu Hw; cbn;
    [reflexivity |].
  change (fold_left do_call cs (do_call cpu c)) with (do_calls (do_call cpu c) cs).
  rewrite IH; [apply waiting_one_call; assumption |].
  rewrite waiting_one_call; assumption.
Qed.

Lemma waiting_station_never_resumes_witness :
  let s := issue_all loaded_engine dependency_chain in
  rs_at (do_calls s [CallExecute; CallWriteback; CallCommit;
                     CallIssue (add_inst 9 10 11); CallExecute;
                     CallWriteback; CallCommit]) 1
  = rs_at s 1.
Proof.
  intros s. apply waiting_station_never_resumes; [lia |].
  split; [reflexivity |]. split; [reflexivity |]. left. discriminate.
Defined.

End TomasuloMore.

(** ** Out-of-order engine: one instruction on an idle engine *)

Section TomasuloIdle.
Import Isa Tomasulo.

Lemma fold_left_fixed {A : Type} (f : A -> Z -> A) (l : list Z) (c : A) :
  (forall j, j ∈ l -> f c j = c) -> fold_left f l c = c.
Proof.
  induction l as [| j l IH]; intros H; cbn; [reflexivity |].
  rewrite (H j) by (left). apply IH. intros k Hk. apply H. right. exact Hk.
Qed.

Lemma indices_first (n : Z) :
  0 < n -> indices n = 0 :: map Z.of_nat (seq 1 (Z.to_nat n - 1)).
Proof.
  intros Hn. unfold indices.
  replace (Z.to_nat n) with (S (Z.to_nat n - 1)) at 1 by lia. reflexivity.
Qed.

Lemma fold_first_only {A : Type} (f : A -> Z -> A) (n : Z) (c : A) :
  0 < n -> (forall j, 1 <= j < n -> f (f c 0) j = f c 0) ->
  fold_left f (indices n) c = f c 0.
Proof.
  intros Hn H. rewrite indices_first by exact Hn. cbn [fold_left].
  apply fold_left_fixed. intros j Hj.
  apply list_elem_of_fmap in Hj as (k & -> & Hk).
  apply elem_of_seq in Hk. apply H. lia.
Qed.

Lemma idle_issues_at_0 (cpu : TomasuloCPU) (inst : DecodedInstruction) :
  0 < rs_count cpu -> idle cpu ->
  tomasulo_issue cpu inst = (true, issue_at cpu inst 0).
Proof.
  intros Hn (Hrs & _). unfold tomasulo_issue, find_free_station.
  replace (Z.to_nat (rs_count cpu)) with (S (Z.to_nat (rs_count cpu) - 1)) by lia.
  cbn [CacheModel.find_from]. rewrite Hrs. reflexivity.
Qed.

Lemma find_from_first (p : Z -> bool) (n : nat) (k : Z) :
  0 <= k < Z.of_nat n -> p k = true -> (forall j, 0 <= j < k -> p j = false) ->
  CacheModel.find_from p 0 n = Some k.
Proof.
  intros Hk Hp Hbefore.
  destruct (find_from_found p n 0 k ltac:(lia) Hp) as [k' Hf].
  pose proof (find_from_Some _ _ _ _ Hf) as (Hr & Hp' & Hb').
  destruct (Z.lt_trichotomy k' k) as [Hlt | [-> | Hgt]]; [| exact Hf |].
  - rewrite Hbefore in Hp' by lia. discriminate.
  - rewrite Hb' in Hp by lia. discriminate.
Qed.

Ltac t_fields :=
  cbn [rs rob registers reg_status rs_count rob_size rs_head rs_tail rob_head
       rob_tail clock instructions_issued instructions_completed
       instructions_committed].

Lemma execute_at_free (cpu : TomasuloCPU) (j : Z) :
  RS.busy (rs_at cpu j) = false -> execute_at cpu j = cpu.
Proof. intros H. unfold execute_at. rewrite H. reflexivity. Qed.

Lemma writeback_at_free (cpu : TomasuloCPU) (j : Z) :
  RS.busy (rs_at cpu j) = false -> writeback_at cpu j = cpu.
Proof. intros H. unfold writeback_at. rewrite H. reflexivity. Qed.

Lemma rs_at_issue_other (cpu : TomasuloCPU) (inst : DecodedInstruction) (i j : Z) :
  0 <= i -> 0 <= j -> i <> j -> rs_at (issue_at cpu inst i) j = rs_at cpu j.
Proof.
  intros Hi Hj Hne. unfold issue_at, rs_at. cbn [rs].
  rewrite list_lookup_insert_ne by lia. reflexivity.
Qed.

Lemma rs_at_execute_other (cpu : TomasuloCPU) (i j : Z) :
  0 <= i -> 0 <= j -> i <> j -> rs_at (execute_at cpu i) j = rs_at cpu j.
Proof.
  intros Hi Hj Hne. unfold execute_at. destruct (_ && _); [| reflexivity].
  unfold rs_at. cbn [rs]. rewrite list_lookup_insert_ne by lia. reflexivity.
Qed.

Lemma rs_at_writeback_other (cpu : TomasuloCPU) (i j : Z) :
  0 <= i -> 0 <= j -> i <> j -> rs_at (writeback_at cpu i) j = rs_at cpu j.
Proof.
  intros Hi Hj Hne. unfold writeback_at. destruct (_ && _); [| reflexivity].
  unfold rs_at. cbn [rs]. rewrite list_lookup_insert_ne by lia. reflexivity.
Qed.

Lemma rs_count_execute_at (cpu : TomasuloCPU) (i : Z) :
  rs_count (execute_at cpu i) = rs_count cpu.
Proof. unfold execute_at. destruct (_ && _); reflexivity. Qed.

Lemma rs_count_writeback_at (cpu : TomasuloCPU) (i : Z) :
  rs_count (writeback_at cpu i) = rs_count cpu.
Proof. unfold writeback_at. destruct (_ && _); reflexivity. Qed.

Lemma single_execute (cpu : TomasuloCPU) (inst : DecodedInstruction) :
  idle cpu -> 0 < rs_count cpu ->
  tomasulo_execute (issue_at cpu inst 0) = execute_at (issue_at cpu inst 0) 0.
Proof.
  intros (Hfree & _) Hn. unfold tomasulo_execute.
  apply fold_first_only; [exact Hn |]. intros j Hj. apply execute_at_free.
  rewrite rs_at_execute_other, rs_at_issue_other by lia. apply Hfree.
Qed.

Lemma single_writeback (cpu : TomasuloCPU) (inst : DecodedInstruction) :
  idle cpu -> 0 < rs_count cpu ->
  tomasulo_writeback (execute_at (issue_at cpu inst 0) 0)
  = writeback_at (execute_at (issue_at cpu inst 0) 0) 0.
Proof.
  intros (Hfree & _) Hn. unfold tomasulo_writeback.
  apply fold_first_only; [rewrite rs_count_execute_at; exact Hn |].
  intros j Hj. rewrite rs_count_execute_at in Hj. apply writeback_at_free.
  rewrite rs_at_writeback_other, rs_at_execute_other, rs_at_issue_other by lia.
  apply Hfree.
Qed.

(** The engine after one instruction went through issue, execute and
    writeback on an idle engine. *)
Lemma single_written_back (cpu : TomasuloCPU) (inst : DecodedInstruction) :
  engine_wf cpu -> idle cpu -> 0 < rs_count cpu ->
  let st := rs_at cpu 0 in
  let v := alu_value (type inst) (zget (registers cpu) (rs1 inst))
                     (zget (registers cpu) (rs2 inst)) in
  writeback_at (execute_at (issue_at cpu inst 0) 0) 0
  = mkT (<[0%nat := RS.mk false (type inst) (zget (registers cpu) (rs1 inst))
                     (zget (registers cpu) (rs2 inst)) 0 0 (rd inst)
                     (RS.address st) v false]> (rs cpu))
        (<[Z.to_nat (rob_tail cpu) := ROB.mk true (type inst) v (rd inst) true false]>
           (rob cpu))
        (registers cpu)
        (zset (reg_status cpu) (rd inst) (rob_tail cpu + 1))
        (rs_count cpu) (rob_size cpu) (rs_head cpu) (rs_tail cpu)
        (rob_head cpu) (Z.rem (rob_tail cpu + 1) (rob_size cpu))
        (clock cpu) (wrap64 (instructions_issued cpu + 1))
        (wrap64 (instructions_completed cpu + 1)) (instructions_committed cpu).
Proof.
  intros (Hrs & _ & Hrob & Hsize & Hhead & Htail & Hregs & Hstat)
         (Hfree & Hrobfree & Hstatus & Hht) Hn st v.
  assert (Hlen0 : (0 < length (rs cpu))%nat) by lia.
  assert (Hlent : (Z.to_nat (rob_tail cpu) < length (rob cpu))%nat) by lia.
  subst st. unfold issue_at. rewrite !Hstatus. cbn [Z.eqb].
  unfold execute_at. cbv zeta. unfold rs_at. cbn [rs].
  rewrite list_lookup_insert_eq by exact Hlen0.
  cbn [default id RS.busy RS.qj RS.qk andb Z.eqb RS.op RS.vj RS.vk RS.dest
       RS.address RS.result RS.result_ready].
  rewrite list_insert_insert_eq. t_fields.
  unfold writeback_at. cbv zeta. unfold rs_at. cbn [rs].
  rewrite list_lookup_insert_eq by exact Hlen0.
  cbn [default id RS.busy RS.qj RS.qk andb Z.eqb RS.op RS.vj RS.vk RS.dest
       RS.address RS.result RS.result_ready].
  rewrite list_insert_insert_eq. t_fields.
  unfold find_pending_entry, rob_at. t_fields.
  rewrite (find_from_first _ _ (rob_tail cpu)).
  - rewrite list_lookup_insert_eq by exact Hlent.
    cbn [default id ROB.busy ROB.op ROB.dest ROB.exception].
    rewrite list_insert_insert_eq. reflexivity.
  - lia.
  - rewrite list_lookup_insert_eq by exact Hlent. reflexivity.
  - intros j Hj. rewrite list_lookup_insert_ne by lia.
    apply andb_false_intro1. apply Hrobfree.
Qed.

Lemma commit_loop_not_ready (fuel : nat) (cpu : TomasuloCPU) :
  head_ready cpu = false -> commit_loop fuel cpu = cpu.
Proof. intros H. destruct fuel; cbn; [| rewrite H]; reflexivity. Qed.

Lemma rem_in_range (a n : Z) : 0 <= a -> 0 < n -> 0 <= Z.rem a n < n.
Proof.
  intros Ha Hn. rewrite Z.rem_mod_nonneg by lia. apply Z.mod_pos_bound. exact Hn.
Qed.

(** The engine after one instruction went through all four phases on an
    idle engine. *)
Lemma single_retired (cpu : TomasuloCPU) (inst : DecodedInstruction) :
  engine_wf cpu -> idle cpu -> 0 < rs_count cpu ->
  let st := rs_at cpu 0 in
  let v := alu_value (type inst) (zget (registers cpu) (rs1 inst))
                     (zget (registers cpu) (rs2 inst)) in
  run_phases (issue_at cpu inst 0)
  = mkT (<[0%nat := RS.mk false (type inst) (zget (registers cpu) (rs1 inst))
                     (zget (registers cpu) (rs2 inst)) 0 0 (rd inst)
                     (RS.address st) v false]> (rs cpu))
        (<[Z.to_nat (rob_tail cpu) := ROB.mk false (type inst) v (rd inst) true false]>
           (rob cpu))
        (zset (registers cpu) (rd inst) v)
        (zset (zset (reg_status cpu) (rd inst) (rob_tail cpu + 1)) (rd inst) 0)
        (rs_count cpu) (rob_size cpu) (rs_head cpu) (rs_tail cpu)
        (Z.rem (rob_tail cpu + 1) (rob_size cpu))
        (Z.rem (rob_tail cpu + 1) (rob_size cpu))
        (clock cpu) (wrap64 (instructions_issued cpu + 1))
        (wrap64 (instructions_completed cpu + 1))
        (wrap64 (instructions_committed cpu + 1)).
Proof.
  intros Hwf Hidle Hn st v. unfold run_phases.
  rewrite (single_execute cpu inst Hidle Hn), (single_writeback cpu inst Hidle Hn).
  rewrite (single_written_back cpu inst Hwf Hidle Hn). fold st. fold v.
  destruct Hwf as (Hrs & Hrs0 & Hrob & Hsize & Hhead & Htail & Hregs & Hstat).
  destruct Hidle as (Hfree & Hrobfree & Hstatus & Hht).
  assert (Hlent : (Z.to_nat (rob_tail cpu) < length (rob cpu))%nat) by lia.
  pose proof (rem_in_range (rob_tail cpu + 1) (rob_size cpu) ltac:(lia) Hsize)
    as Hnext.
  unfold tomasulo_commit. t_fields.
  replace (Z.to_nat (rob_size cpu)) with (S (Z.to_nat (rob_size cpu) - 1)) by lia.
  rewrite Hht in *.
  cbn [commit_loop]. unfold head_ready at 1, rob_at. t_fields.
  rewrite list_lookup_insert_eq by exact Hlent.
  cbn [default id ROB.busy ROB.ready andb].
  unfold commit_head, rob_at. t_fields.
  rewrite list_lookup_insert_eq by exact Hlent.
  cbn [default id ROB.busy ROB.ready ROB.exception ROB.op ROB.result ROB.dest negb].
  rewrite list_insert_insert_eq.
  apply commit_loop_not_ready.
  unfold head_ready, rob_at. t_fields.
  destruct (Z.eq_dec (Z.rem (rob_tail cpu + 1) (rob_size cpu)) (rob_tail cpu))
    as [-> | Hne].
  - rewrite list_lookup_insert_eq by exact Hlent. reflexivity.
  - rewrite list_lookup_insert_ne by lia.
    apply andb_false_intro1. apply Hrobfree.
Qed.

(** X19.  One instruction on an idle engine, taken through the four phases in
    order.  The instruction is issued; after Execute, Writeback and Commit
    its destination register holds the value computed from the register
    values of its two sources, no other register has changed, and the engine
    is idle and well formed again, ready for the next instruction.  The three
    register numbers are indices of the 32-entry register arrays. *)
Theorem single_instruction_completes
        (cpu : TomasuloCPU) (inst : DecodedInstruction) :
  engine_wf cpu -> idle cpu -> 0 < rs_count cpu ->
  0 <= rd inst < 32 -> 0 <= rs1 inst < 32 -> 0 <= rs2 inst < 32 ->
  let a := zget (registers cpu) (rs1 inst) in
  let b := zget (registers cpu) (rs2 inst) in
  let cpu' := run_phases (snd (tomasulo_issue cpu inst)) in
  fst (tomasulo_issue cpu inst) = true /\
  zget (registers cpu') (rd inst)
  = match type inst with
    | INST_ADD => wrap64 (a + b)
    | INST_SUB => wrap64 (a - b)
    | INST_MUL => wrap64 (a * b)
    | _ => 0
    end /\
  (forall r, 0 <= r -> r <> rd inst ->
             zget (registers cpu') r = zget (registers cpu) r) /\
  idle cpu' /\ engine_wf cpu'.
Proof.
  intros Hwf Hidle Hn Hrd _ _ a b.
  rewrite (idle_issues_at_0 cpu inst Hn Hidle). cbn [fst snd].
  rewrite (single_retired cpu inst Hwf Hidle Hn).
  destruct Hwf as (Hrs & Hrs0 & Hrob & Hsize & Hhead & Htail & Hregs & Hstat).
  destruct Hidle as (Hfree & Hrobfree & Hstatus & Hht).
  assert (Hlent : (Z.to_nat (rob_tail cpu) < length (rob cpu))%nat) by lia.
  pose proof (rem_in_range (rob_tail cpu + 1) (rob_size cpu) ltac:(lia) Hsize)
    as Hnext.
  cbv zeta. t_fields.
  split; [reflexivity |]. split; [apply zget_zset_eq; lia |].
  split; [intros r Hr Hne; apply zget_zset_ne; lia |].
  split.
  - unfold idle, rs_at, rob_at. t_fields. split; [| split; [| split]].
    + intros i. destruct (decide (Z.to_nat i = 0%nat)) as [-> | Hi].
      * rewrite list_lookup_insert_eq by lia. reflexivity.
      * rewrite list_lookup_insert_ne by lia. apply Hfree.
    + intros j. destruct (decide (Z.to_nat j = Z.to_nat (rob_tail cpu))) as [-> | Hj].
      * rewrite list_lookup_insert_eq by exact Hlent. reflexivity.
      * rewrite list_lookup_insert_ne by lia. apply Hrobfree.
    + intros r. unfold zget, zset. rewrite list_insert_insert_eq.
      destruct (decide (Z.to_nat r = Z.to_nat (rd inst))) as [-> | Hr].
      * rewrite list_lookup_insert_eq by lia. reflexivity.
      * rewrite list_lookup_insert_ne by lia. apply Hstatus.
    + reflexivity.
  - unfold engine_wf. t_fields. rewrite !length_insert, !length_zset.
    repeat split; try assumption; lia.
Qed.

Lemma loaded_engine_idle : idle loaded_engine.
Proof.
  unfold idle, rs_at, rob_at, loaded_engine, tomasulo_create. t_fields.
  split; [| split; [| split]]; [| | | reflexivity].
  - intros i. destruct (replicate _ _ !! _) as [st |] eqn:Hl; [| reflexivity].
    apply lookup_replicate in Hl as [-> _]. reflexivity.
  - intros j. destruct (replicate _ _ !! _) as [e |] eqn:Hl; [| reflexivity].
    apply lookup_replicate in Hl as [-> _]. reflexivity.
  - intros r. unfold zget.
    destruct (replicate _ _ !! _) as [x |] eqn:Hl; [| reflexivity].
    apply lookup_replicate in Hl as [-> _]. reflexivity.
Qed.

Lemma single_instruction_completes_witness :
  zget (registers (run_phases (snd (tomasulo_issue loaded_engine (add_inst 1 2 3)))))
       1 = 3.
Proof.
  assert (Hwf : engine_wf loaded_engine).
  { unfold engine_wf. repeat split; try reflexivity; vm_compute; congruence. }
  assert (Hn : 0 < rs_count loaded_engine) by reflexivity.
  assert (Hrd : 0 <= rd (add_inst 1 2 3) < 32) by (cbn; lia).
  assert (Hrs1 : 0 <= rs1 (add_inst 1 2 3) < 32) by (cbn; lia).
  assert (Hrs2 : 0 <= rs2 (add_inst 1 2 3) < 32) by (cbn; lia).
  exact (proj1 (proj2 (single_instruction_completes
                         loaded_engine (add_inst 1 2 3) Hwf loaded_engine_idle
                         Hn Hrd Hrs1 Hrs2))).
Defined.

End TomasuloIdle.
